(** * recmar-stock-bridge: feed-to-catalog inventory sync

    A shallow embedding of the two versions of the sync script that the
    repository holds:

    - [src/recmar-sync.mjs], the earlier script ([Module Legacy]): match,
      then bulk write;
    - [src/unnamed/part_000], the later script ([Module Current]): match,
      dedupe by inventory item id, bulk write, then connect the items that
      were not stocked at the location and retry them.

    JS strings are modelled as [string]; a JS [Map] that is only looked up
    as a [gmap]; a JS [Map] or [Set] whose iteration order is used as an
    insertion-ordered list; the network as an oracle passed to the run. *)

From Stdlib Require Import ZArith Ascii String DecimalString List Lia.
From stdpp Require Import base option list gmap strings.

Local Open Scope string_scope.
Local Open Scope list_scope.

(** ** JS values used by the script *)

(** [!x] for a value that is a string or [undefined]: the empty string and
    [undefined] are the two falsy ones. *)
Definition truthy (o : option string) : bool :=
  match o with
  | Some s => negb (String.eqb s "")
  | None => false
  end.

(** [x || ''] for a value that is a string or [undefined]. *)
Definition or_empty (o : option string) : string :=
  if truthy o then default "" o else "".

(** [String(x)] applied to a string. *)
Definition String_ (s : string) : string := s.

(** ** SKU normalisation

    [function normalizeSkuText(s){
       return String(s||'').toUpperCase().replace(/[^A-Z0-9]/g,''); }]

    Characters are 8-bit; [toUpperCase] is the ASCII case conversion, which
    is what JS does on ASCII text.  [normalizeWith] leaves the case
    conversion open, for the facts that hold for any conversion. *)

Definition is_lower (c : ascii) : bool :=
  let n := nat_of_ascii c in (97 <=? n)%nat && (n <=? 122)%nat.

Definition is_upper (c : ascii) : bool :=
  let n := nat_of_ascii c in (65 <=? n)%nat && (n <=? 90)%nat.

Definition is_digit (c : ascii) : bool :=
  let n := nat_of_ascii c in (48 <=? n)%nat && (n <=? 57)%nat.

(** The class [[A-Z0-9]] of the regular expression. *)
Definition is_AZ09 (c : ascii) : bool := is_upper c || is_digit c.

Definition upper_char (c : ascii) : ascii :=
  if is_lower c then ascii_of_nat (nat_of_ascii c - 32) else c.

Fixpoint toUpperCase (s : string) : string :=
  match s with
  | EmptyString => EmptyString
  | String c s' => String (upper_char c) (toUpperCase s')
  end.

(** [.replace(/[^A-Z0-9]/g,'')]: every character outside the class is
    deleted. *)
Fixpoint strip_non_AZ09 (s : string) : string :=
  match s with
  | EmptyString => EmptyString
  | String c s' =>
      if is_AZ09 c then String c (strip_non_AZ09 s') else strip_non_AZ09 s'
  end.

Definition normalizeWith (upper : string -> string) (s : string) : string :=
  strip_non_AZ09 (upper (String_ (or_empty (Some s)))).

Definition normalizeSkuText (s : string) : string :=
  normalizeWith toUpperCase s.

(** A string made of characters of the class only. *)
Fixpoint all_AZ09 (s : string) : bool :=
  match s with
  | EmptyString => true
  | String c s' => is_AZ09 c && all_AZ09 s'
  end.

(** [/pat/.test(s)] for a pattern of plain characters: [pat] occurs somewhere
    in [s]. *)
Fixpoint occurs_in (pat s : string) : bool :=
  String.prefix pat s ||
  match s with
  | EmptyString => false
  | String _ s' => occurs_in pat s'
  end.

(** [/not stocked at the location/i.test(msg)]: the flag [i] compares
    characters after case conversion. *)
Definition not_stocked_message (msg : string) : bool :=
  occurs_in (toUpperCase "not stocked at the location") (toUpperCase msg).

(** ** Variants of a SKU

    The specification's words for what normalisation identifies: two
    spellings are case and punctuation variants of one SKU when they
    differ only in the case of letters and in characters that are neither
    letters nor digits. *)

(** An ASCII character that is neither a letter nor a digit. *)
Definition is_punctuation (c : ascii) : bool :=
  (nat_of_ascii c <? 128)%nat
  && negb (is_lower c || is_upper c || is_digit c).

(** The same character, or the two cases of one letter. *)
Definition same_up_to_case (c d : ascii) : bool :=
  Ascii.eqb c d
  || (is_lower c && (nat_of_ascii d =? nat_of_ascii c - 32)%nat)
  || (is_lower d && (nat_of_ascii c =? nat_of_ascii d - 32)%nat).

(** [variant_of s t]: [s] and [t] are read side by side; a character of
    one stands against the same character, or the other case of the same
    letter, of the other, and punctuation is passed over on either side. *)
Inductive variant_of : string -> string -> Prop :=
  | variant_end : variant_of EmptyString EmptyString
  | variant_char (c d : ascii) (s t : string) :
      same_up_to_case c d = true -> variant_of s t ->
      variant_of (String c s) (String d t)
  | variant_drop_l (c : ascii) (s t : string) :
      is_punctuation c = true -> variant_of s t ->
      variant_of (String c s) t
  | variant_drop_r (c : ascii) (s t : string) :
      is_punctuation c = true -> variant_of s t ->
      variant_of s (String c t).

(** A string of ASCII characters. *)
Fixpoint is_ascii_text (s : string) : bool :=
  match s with
  | EmptyString => true
  | String c s' => (nat_of_ascii c <? 128)%nat && is_ascii_text s'
  end.

(** The 256 characters. *)
Definition all_chars : list ascii := map ascii_of_nat (seq 0 256).

(** ** Records of the script

    Quantities are JS numbers that the script copies and never computes
    with ([Number(q)] of a number is [q]), so their type [Qty] is left
    open. *)

(** [{ sku, inventory_item_id, qty }]: a matched row, and a work item. *)
Record Candidate (Qty : Type) : Type := mkCandidate {
  sku : string;
  inventory_item_id : string;
  qty : Qty
}.
Arguments mkCandidate {Qty} _ _ _.
Arguments sku {Qty} _.
Arguments inventory_item_id {Qty} _.
Arguments qty {Qty} _.

(** [{ sku, mapped_to, reason }], a row of misses.csv. *)
Record Miss : Type := mkMiss {
  miss_sku : string;
  mapped_to : string;
  reason : string
}.

(** [{ normalized_key, matches, sample }], a row of ambiguous.csv. *)
Record Ambiguous : Type := mkAmbiguous {
  normalized_key : string;
  matches : nat;
  sample : string
}.

(** [{ sku, inventory_item_id, to }], a row of changes.csv. *)
Record ChangedRow (Qty : Type) : Type := mkChangedRow {
  changed_sku : string;
  changed_inventory_item_id : string;
  to : Qty
}.
Arguments mkChangedRow {Qty} _ _ _.
Arguments changed_sku {Qty} _.
Arguments changed_inventory_item_id {Qty} _.
Arguments to {Qty} _.

(** The state of the match loop: the three lists and the three counters. *)
Record MatchState (Qty : Type) : Type := mkMatchState {
  candidates : list (Candidate Qty);
  misses : list Miss;
  ambiguous : list Ambiguous;
  matchedExact : nat;
  matchedMapped : nat;
  matchedNormalized : nat
}.
Arguments mkMatchState {Qty} _ _ _ _ _ _.
Arguments candidates {Qty} _.
Arguments misses {Qty} _.
Arguments ambiguous {Qty} _.
Arguments matchedExact {Qty} _.
Arguments matchedMapped {Qty} _.
Arguments matchedNormalized {Qty} _.

Definition match_init {Qty : Type} : MatchState Qty :=
  mkMatchState [] [] [] 0 0 0.

(** One entry of [userErrors { field message }].  [field2] is the number
    that [Number(e.field?.[2])] denotes, an integer row index; [None] when
    the path has no third component. *)
Record UserError : Type := mkUserError {
  message : string;
  field2 : option Z
}.

(** What [await gql(INV_SET_MUT, { input })] does: it throws (transport
    failure, a response that is not ok, or top-level errors), or it returns
    data, of which the script reads the user errors ([[]] when absent). *)
Inductive GqlResult : Type :=
  | GqlThrows
  | GqlData (userErrors : list UserError).

(** What [fetch] of inventory_levels/connect.json does: it throws, or it
    returns a response with a status. *)
Inductive ConnectResponse : Type :=
  | FetchThrows
  | Response (status : nat).

(** [res.ok]: the status is in the range 200 to 299. *)
Definition res_ok (status : nat) : bool :=
  (200 <=? status)%nat && (status <=? 299)%nat.

(** [String(res.status)]. *)
Definition status_text (status : nat) : string :=
  NilEmpty.string_of_uint (Nat.to_uint status).

(** The calls that leave the process, in the order they are made. *)
Inductive Event (Qty : Type) : Type :=
  | EvSetQuantities (chunk : list (Candidate Qty))
  | EvConnect (invId : string) (returned : bool).
Arguments EvSetQuantities {Qty} _.
Arguments EvConnect {Qty} _ _.

(** The state of the write passes. *)
Record RunState (Qty : Type) : Type := mkRunState {
  updated : Z;
  errors : Z;
  changedRows : list (ChangedRow Qty);
  notStockedSet : list string;
  trace : list (Event Qty)
}.
Arguments mkRunState {Qty} _ _ _ _ _.
Arguments updated {Qty} _.
Arguments errors {Qty} _.
Arguments changedRows {Qty} _.
Arguments notStockedSet {Qty} _.
Arguments trace {Qty} _.

Definition run_init {Qty : Type} : RunState Qty :=
  mkRunState 0%Z 0%Z [] [] [].

(** The number of [gql] calls made so far, the argument the oracle is
    asked with: the network may answer the same chunk differently the
    second time. *)
Definition gql_calls {Qty : Type} (t : list (Event Qty)) : nat :=
  length (List.filter
            (fun e => match e with EvSetQuantities _ => true | _ => false end) t).

(** The object [summary] that the script logs, without [location_id],
    [shopify_variants_unique] and [writer], which the run only passes
    on. *)
Record Summary : Type := mkSummary {
  feed_rows : nat;
  matched_exact : nat;
  matched_mapped : nat;
  matched_normalized : nat;
  summary_ambiguous : nat;
  summary_misses : nat;
  processed_this_run : nat;
  summary_updated : Z;
  summary_errors : Z;
  full_sweep : bool
}.

(** [Math.max(1, Number(GQL_BATCH) || 100)], for a setting that denotes an
    integer ([None]: not a number). *)
Definition BATCH (gql_batch : option Z) : Z :=
  Z.max 1 (match gql_batch with
           | Some 0%Z | None => 100
           | Some n => n
           end).

(** [for (let i=0; i<work.length; i+=BATCH) { chunk = work.slice(i, i+BATCH) }]:
    the chunks the loop visits from index [i] on. *)
Fixpoint chunks_from {A : Type} (fuel : nat) (batch i : nat) (work : list A)
  : list (list A) :=
  match fuel with
  | O => []
  | S fuel' =>
      if (i <? length work)%nat
      then firstn batch (skipn i work)
             :: chunks_from fuel' batch (i + batch) work
      else []
  end.

(** The loop advances by at least one row a round, so [length work] rounds
    are enough. *)
Definition chunks {A : Type} (batch : Z) (work : list A) : list (list A) :=
  chunks_from (length work) (Z.to_nat batch) 0 work.

(** A JS [Map] with string keys in insertion order: [set] overwrites the
    value of a key that is present, in place, and appends a new key. *)
Fixpoint map_set {V : Type} (k : string) (v : V) (m : list (string * V))
  : list (string * V) :=
  match m with
  | [] => [(k, v)]
  | (k', v') :: m' =>
      if String.eqb k' k then (k, v) :: m' else (k', v') :: map_set k v m'
  end.

(** A JS [Set] of strings in insertion order: [has] and [add]. *)
Definition set_has (x : string) (s : list string) : bool :=
  existsb (String.eqb x) s.

Definition set_add (x : string) (s : list string) : list string :=
  if set_has x s then s else s ++ [x].

(** Updates of the match state, one per statement of the loop body. *)
Section MatchUpdates.
Context {Qty : Type}.
Implicit Type st : MatchState Qty.

(** [matchedExact++] *)
Definition incr_matchedExact st : MatchState Qty :=
  mkMatchState (candidates st) (misses st) (ambiguous st)
    (S (matchedExact st)) (matchedMapped st) (matchedNormalized st).

(** [matchedMapped++] *)
Definition incr_matchedMapped st : MatchState Qty :=
  mkMatchState (candidates st) (misses st) (ambiguous st)
    (matchedExact st) (S (matchedMapped st)) (matchedNormalized st).

(** [matchedNormalized++] *)
Definition incr_matchedNormalized st : MatchState Qty :=
  mkMatchState (candidates st) (misses st) (ambiguous st)
    (matchedExact st) (matchedMapped st) (S (matchedNormalized st)).

(** [candidates.push(x)] *)
Definition push_candidate (x : Candidate Qty) st : MatchState Qty :=
  mkMatchState (candidates st ++ [x]) (misses st) (ambiguous st)
    (matchedExact st) (matchedMapped st) (matchedNormalized st).

(** [misses.push(x)] *)
Definition push_miss (x : Miss) st : MatchState Qty :=
  mkMatchState (candidates st) (misses st ++ [x]) (ambiguous st)
    (matchedExact st) (matchedMapped st) (matchedNormalized st).

(** [ambiguous.push(x)] *)
Definition push_ambiguous (x : Ambiguous) st : MatchState Qty :=
  mkMatchState (candidates st) (misses st) (ambiguous st ++ [x])
    (matchedExact st) (matchedMapped st) (matchedNormalized st).
End MatchUpdates.

(** Updates of the run state. *)
Section RunUpdates.
Context {Qty : Type}.
Implicit Type st : RunState Qty.

(** A call leaves the process. *)
Definition emit (e : Event Qty) st : RunState Qty :=
  mkRunState (updated st) (errors st) (changedRows st) (notStockedSet st)
    (trace st ++ [e]).

(** [errors += n] *)
Definition add_errors (n : Z) st : RunState Qty :=
  mkRunState (updated st) (errors st + n)%Z (changedRows st)
    (notStockedSet st) (trace st).

(** [updated += n] *)
Definition add_updated (n : Z) st : RunState Qty :=
  mkRunState (updated st + n)%Z (errors st) (changedRows st)
    (notStockedSet st) (trace st).

(** [for (const x of rows) changedRows.push({ sku: x.sku,
    inventory_item_id: x.inventory_item_id, to: x.qty })] *)
Definition push_changed (rows : list (Candidate Qty)) st : RunState Qty :=
  mkRunState (updated st) (errors st)
    (changedRows st
       ++ map (fun x => mkChangedRow (sku x) (inventory_item_id x) (qty x))
            rows)
    (notStockedSet st) (trace st).

(** [notStockedSet.add(id)] *)
Definition add_notStocked (id : string) st : RunState Qty :=
  mkRunState (updated st) (errors st) (changedRows st)
    (set_add id (notStockedSet st)) (trace st).

(** The tail of the [try] block, the same in every write loop:
    [const ok = Math.max(0, chunk.length - ue.length); updated += ok;
     for (const x of chunk.slice(0, ok)) changedRows.push(...)]. *)
Definition count_ok (chunk : list (Candidate Qty)) (ue : list UserError)
  : Z :=
  Z.max 0 (Z.of_nat (length chunk) - Z.of_nat (length ue)).

Definition credit_ok (chunk : list (Candidate Qty)) (ue : list UserError) st
  : RunState Qty :=
  let ok := count_ok chunk ue in
  push_changed (firstn (Z.to_nat ok) chunk) (add_updated ok st).
End RunUpdates.

(** ** The earlier script, src/recmar-sync.mjs *)
Module Legacy.
Section Script.
Context {Qty : Type}.
Variable exact : gmap string string.
Variable normalized : gmap string (list string).
Variable skuMap : gmap string string.
(** [(SKU_MATCH_MODE || 'normalize').toLowerCase()]. *)
Variable mode : string.
(** [String(FULL_SWEEP).toLowerCase() === 'true']. *)
Variable FULL_SWEEP : bool.
(** [Number(GQL_BATCH)]. *)
Variable GQL_BATCH : option Z.
(** [gql n chunk]: the outcome of the write call for [chunk] made after
    [n] earlier write calls. *)
Variable gql : nat -> list (Candidate Qty) -> GqlResult.

(** Lines 221-225: the end of the loop body, a miss or a matched row. *)
Definition miss_or_push (feedSku targetSku : string) (qty : Qty)
    (invId : option string) (st : MatchState Qty) : MatchState Qty :=
  match invId with
  | Some id =>
      if truthy (Some id)
      then push_candidate (mkCandidate targetSku id qty) st
      else push_miss (mkMiss feedSku (or_empty (skuMap !! feedSku))
                        "not_in_shopify") st
  | None =>
      push_miss (mkMiss feedSku (or_empty (skuMap !! feedSku))
                   "not_in_shopify") st
  end.

(** Lines 194-226: the body of [for (const [feedSku, qty] of
    feed.entries())]. *)
Definition match_row (st : MatchState Qty) (row : string * Qty)
  : MatchState Qty :=
  let '(feedSku, qty) := row in
  let targetSku := feedSku in
  let invId := exact !! targetSku in
  let '(targetSku, invId, st) :=
    if negb (truthy invId) && negb (size skuMap =? 0)%nat then
      match skuMap !! feedSku with
      | Some mapped =>
          if truthy (Some mapped) then
            let invId := exact !! mapped in
            (mapped, invId,
             if truthy invId then incr_matchedMapped st else st)
          else (targetSku, invId, st)
      | None => (targetSku, invId, st)
      end
    else (targetSku, invId, st) in
  if negb (truthy invId) && negb (String.eqb mode "exact") then
    let nk := normalizeSkuText targetSku in
    let list := default [] (normalized !! nk) in
    if (length list =? 1)%nat then
      miss_or_push feedSku targetSku qty (head list)
        (incr_matchedNormalized st)
    else if (1 <? length list)%nat then
      push_ambiguous (mkAmbiguous nk (length list) targetSku) st
    else miss_or_push feedSku targetSku qty invId st
  else if truthy invId then
    miss_or_push feedSku targetSku qty invId (incr_matchedExact st)
  else miss_or_push feedSku targetSku qty invId st.

Definition match_loop (feed : list (string * Qty)) : MatchState Qty :=
  fold_left match_row feed match_init.

(** Lines 229-236: [let work = intersect], cut to 1500 rows when the
    full sweep is off. *)
Definition work_of (intersect : list (Candidate Qty))
  : list (Candidate Qty) :=
  let work := intersect in
  if negb FULL_SWEEP then firstn 1500 work else work.

(** Lines 247-274: one round of the write loop. *)
Definition write_chunk (st : RunState Qty) (chunk : list (Candidate Qty))
  : RunState Qty :=
  let n := gql_calls (trace st) in
  let st := emit (EvSetQuantities chunk) st in
  match gql n chunk with
  | GqlData ue =>
      let st :=
        if (0 <? length ue)%nat
        then add_errors (Z.of_nat (length ue)) st else st in
      credit_ok chunk ue st
  | GqlThrows => add_errors (Z.of_nat (length chunk)) st
  end.

Definition write_pass (work : list (Candidate Qty)) (st : RunState Qty)
  : RunState Qty :=
  fold_left write_chunk (chunks (BATCH GQL_BATCH) work) st.

(** Lines 173-292: the run, from the feed table to the summary and the
    lists that go to the reports. *)
Definition main (feed : list (string * Qty))
  : Summary * MatchState Qty * RunState Qty :=
  let m := match_loop feed in
  let work := work_of (candidates m) in
  let st := write_pass work run_init in
  (mkSummary (length feed) (matchedExact m) (matchedMapped m)
     (matchedNormalized m) (length (ambiguous m)) (length (misses m))
     (length work) (updated st) (errors st) FULL_SWEEP,
   m, st).
End Script.
End Legacy.

(** ** The later script, src/unnamed/part_000 *)
Module Current.
Section Script.
Context {Qty : Type}.
Variable exact : gmap string string.
Variable normalized : gmap string (list string).
Variable skuMap : gmap string string.
(** [(SKU_MATCH_MODE || 'normalize').toLowerCase()]. *)
Variable mode : string.
(** [String(FULL_SWEEP).toLowerCase() === 'true']. *)
Variable FULL_SWEEP : bool.
(** [Number(GQL_BATCH)]. *)
Variable GQL_BATCH : option Z.
(** [gql n chunk]: the outcome of the write call for [chunk] made after
    [n] earlier write calls. *)
Variable gql : nat -> list (Candidate Qty) -> GqlResult.
(** The outcome of the connect request for an item. *)
Variable fetch_connect : string -> ConnectResponse.

(** Lines 235-239: the end of the loop body, a miss or a matched row. *)
Definition miss_or_push (feedSku targetSku : string) (qty : Qty)
    (invId : option string) (st : MatchState Qty) : MatchState Qty :=
  match invId with
  | Some id =>
      if truthy (Some id)
      then push_candidate (mkCandidate targetSku (String_ id) qty) st
      else push_miss (mkMiss feedSku (or_empty (skuMap !! feedSku))
                        "not_in_shopify") st
  | None =>
      push_miss (mkMiss feedSku (or_empty (skuMap !! feedSku))
                   "not_in_shopify") st
  end.

(** Lines 208-240: the body of [for (const [feedSku, qty] of
    feed.entries())]. *)
Definition match_row (st : MatchState Qty) (row : string * Qty)
  : MatchState Qty :=
  let '(feedSku, qty) := row in
  let targetSku := feedSku in
  let invId := exact !! targetSku in
  let '(targetSku, invId, st) :=
    if negb (truthy invId) && negb (size skuMap =? 0)%nat then
      match skuMap !! feedSku with
      | Some mapped =>
          if truthy (Some mapped) then
            let invId := exact !! mapped in
            (mapped, invId,
             if truthy invId then incr_matchedMapped st else st)
          else (targetSku, invId, st)
      | None => (targetSku, invId, st)
      end
    else (targetSku, invId, st) in
  if negb (truthy invId) && negb (String.eqb mode "exact") then
    let nk := normalizeSkuText targetSku in
    let list := default [] (normalized !! nk) in
    if (length list =? 1)%nat then
      miss_or_push feedSku targetSku qty (head list)
        (incr_matchedNormalized st)
    else if (1 <? length list)%nat then
      push_ambiguous (mkAmbiguous nk (length list) targetSku) st
    else miss_or_push feedSku targetSku qty invId st
  else if truthy invId then
    miss_or_push feedSku targetSku qty invId (incr_matchedExact st)
  else miss_or_push feedSku targetSku qty invId st.

Definition match_loop (feed : list (string * Qty)) : MatchState Qty :=
  fold_left match_row feed match_init.

(** Lines 242-244: [for (const x of candidates)
    byInv.set(x.inventory_item_id, x)]. *)
Definition byInv (candidates : list (Candidate Qty))
  : list (string * Candidate Qty) :=
  fold_left (fun m x => map_set (inventory_item_id x) x m) candidates [].

(** Line 245: [Array.from(byInv.values())]. *)
Definition dedupe (candidates : list (Candidate Qty))
  : list (Candidate Qty) :=
  map snd (byInv candidates).

(** Lines 245-253: the work list, cut to 1500 items when the full sweep
    is off. *)
Definition work_of (candidates : list (Candidate Qty))
  : list (Candidate Qty) :=
  let work := dedupe candidates in
  if negb FULL_SWEEP then firstn 1500 work else work.

(** Lines 282-288: the items to connect, read off the user errors. *)
Definition note_not_stocked (chunk : list (Candidate Qty))
    (st : RunState Qty) (e : UserError) : RunState Qty :=
  let msg := message e in
  let idx := default (-1)%Z (field2 e) in
  if not_stocked_message msg && (0 <=? idx)%Z
     && (idx <? Z.of_nat (length chunk))%Z
  then match nth_error chunk (Z.to_nat idx) with
       | Some x => add_notStocked (inventory_item_id x) st
       | None => st
       end
  else st.

(** Lines 264-301: one round of the first write loop. *)
Definition write_chunk (st : RunState Qty) (chunk : list (Candidate Qty))
  : RunState Qty :=
  let n := gql_calls (trace st) in
  let st := emit (EvSetQuantities chunk) st in
  match gql n chunk with
  | GqlData ue =>
      let st :=
        if (0 <? length ue)%nat
        then add_errors (Z.of_nat (length ue))
               (fold_left (note_not_stocked chunk) ue st)
        else st in
      credit_ok chunk ue st
  | GqlThrows => add_errors (Z.of_nat (length chunk)) st
  end.

Definition write_pass (work : list (Candidate Qty)) (st : RunState Qty)
  : RunState Qty :=
  fold_left write_chunk (chunks (BATCH GQL_BATCH) work) st.

(** Lines 112-123: [connectInventory] returns ([true]) or throws
    ([false]); a response that is not ok throws unless its status shows
    422. *)
Definition connectInventory (invId : string) : bool :=
  match fetch_connect invId with
  | FetchThrows => false
  | Response status =>
      if negb (res_ok status)
      then occurs_in "422" (status_text status)
      else true
  end.

(** Lines 306-309: the connect loop; a failure is logged and dropped. *)
Definition connect_all (st : RunState Qty) : RunState Qty :=
  fold_left (fun st invId => emit (EvConnect invId (connectInventory invId)) st)
    (notStockedSet st) st.

(** Line 312: [work.filter(x => notStockedSet.has(x.inventory_item_id))]. *)
Definition retry_of (work : list (Candidate Qty)) (st : RunState Qty)
  : list (Candidate Qty) :=
  List.filter (fun x => set_has (inventory_item_id x) (notStockedSet st))
    work.

(** Lines 313-342: one round of the retry loop. *)
Definition retry_chunk (st : RunState Qty) (chunk : list (Candidate Qty))
  : RunState Qty :=
  let n := gql_calls (trace st) in
  let st := emit (EvSetQuantities chunk) st in
  match gql n chunk with
  | GqlData ue =>
      let st :=
        if (0 <? length ue)%nat
        then add_errors (Z.of_nat (length ue)) st else st in
      credit_ok chunk ue st
  | GqlThrows => add_errors (Z.of_nat (length chunk)) st
  end.

(** Lines 304-343: connect the items that were not stocked and retry
    them. *)
Definition recover (work : list (Candidate Qty)) (st : RunState Qty)
  : RunState Qty :=
  if (0 <? length (notStockedSet st))%nat then
    let st := connect_all st in
    let retry := retry_of work st in
    fold_left retry_chunk (chunks (BATCH GQL_BATCH) retry) st
  else st.

(** The two write stages on a work list. *)
Definition write_and_recover (work : list (Candidate Qty)) : RunState Qty :=
  recover work (write_pass work run_init).

(** Lines 188-360: the run, from the feed table to the summary and the
    lists that go to the reports. *)
Definition main (feed : list (string * Qty))
  : Summary * MatchState Qty * RunState Qty :=
  let m := match_loop feed in
  let work := work_of (candidates m) in
  let st := write_and_recover work in
  (mkSummary (length feed) (matchedExact m) (matchedMapped m)
     (matchedNormalized m) (length (ambiguous m)) (length (misses m))
     (length work) (updated st) (errors st) FULL_SWEEP,
   m, st).
End Script.
End Current.

(** ** The readings of the claims *)

(** The tier at which the matcher resolves a feed row, as the matching rules
    are worded: exact on the feed SKU; else exact on the manual map's
    target; else, unless the mode is exact, the one item under the
    normalized key of the target (the mapped SKU when there is one). *)
Inductive Tier : Type := TierExact | TierMapped | TierNormalized.

Inductive Outcome : Type :=
  | Matched (tier : Tier) (sku itemId : string)
  | IsAmbiguous (normalizedKey : string) (candidateCount : nat)
      (sampleSku : string)
  | Missed (feedSku mappedTo : string).

Section Readings.
Context {Qty : Type}.
Variable exact : gmap string string.
Variable normalized : gmap string (list string).
Variable skuMap : gmap string string.
Variable mode : string.

(** A lookup that found something: a value that is there and is not the
    empty string. *)
Definition found (o : option string) : option string :=
  if truthy o then o else None.

(** The SKU that the stages after tier 1 work with: the manual map's
    target when the feed SKU has one, the feed SKU otherwise. *)
Definition target_of (feedSku : string) : string :=
  default feedSku (found (skuMap !! feedSku)).

(** Tier 3 on a target SKU. *)
Definition tier_normalized (feedSku target : string) : Outcome :=
  let nk := normalizeSkuText target in
  match default [] (normalized !! nk) with
  | [] => Missed feedSku (or_empty (skuMap !! feedSku))
  | [id] =>
      match found (Some id) with
      | Some id => Matched TierNormalized target id
      | None => Missed feedSku (or_empty (skuMap !! feedSku))
      end
  | l => IsAmbiguous nk (length l) target
  end.

(** The tiers in order, the first success wins. *)
Definition tiered_outcome (feedSku : string) : Outcome :=
  match found (exact !! feedSku) with
  | Some id => Matched TierExact feedSku id
  | None =>
      match found (skuMap !! feedSku) ≫= (fun mapped => found (exact !! mapped)) with
      | Some id => Matched TierMapped (target_of feedSku) id
      | None =>
          if String.eqb mode "exact"
          then Missed feedSku (or_empty (skuMap !! feedSku))
          else tier_normalized feedSku (target_of feedSku)
      end
  end.

(** What an outcome adds to the three lists of the match loop. *)
Definition record_outcome (o : Outcome) (q : Qty) (st : MatchState Qty)
  : list (Candidate Qty) * list Miss * list Ambiguous :=
  match o with
  | Matched _ s id =>
      ((candidates st ++ [mkCandidate s id q])%list, misses st, ambiguous st)
  | IsAmbiguous nk n s =>
      (candidates st, misses st, (ambiguous st ++ [mkAmbiguous nk n s])%list)
  | Missed f m =>
      (candidates st, (misses st ++ [mkMiss f m "not_in_shopify"])%list,
       ambiguous st)
  end.

(** The rows of a feed that resolve at a given tier. *)
Definition is_tier (t : Tier) (o : Outcome) : bool :=
  match o, t with
  | Matched TierExact _ _, TierExact => true
  | Matched TierMapped _ _, TierMapped => true
  | Matched TierNormalized _ _, TierNormalized => true
  | _, _ => false
  end.

Definition matched_at (t : Tier) (feed : list (string * Qty)) : nat :=
  length (List.filter (fun row => is_tier t (tiered_outcome (fst row))) feed).
End Readings.

(** The item ids of a list of rows, and the distinct ones among them. *)
Definition item_ids {Qty : Type} (l : list (Candidate Qty)) : list string :=
  map inventory_item_id l.

Definition distinct_item_ids {Qty : Type} (l : list (Candidate Qty))
  : list string :=
  remove_dups (item_ids l).

(** The rows of a chunk that no user error points at: the reading of
    "changed" by error index. *)
Definition rows_without_error {Qty : Type} (chunk : list (Candidate Qty))
    (ue : list UserError) : list (Candidate Qty) :=
  map snd
    (List.filter
       (fun ix => negb (existsb
                          (fun e => match field2 e with
                                    | Some i => (i =? Z.of_nat (fst ix))%Z
                                    | None => false
                                    end) ue))
       (combine (seq 0 (length chunk)) chunk)).

(** The connect calls of a trace, and the chunks written. *)
Definition connect_calls {Qty : Type} (t : list (Event Qty)) : list string :=
  omap (fun e => match e with EvConnect id _ => Some id | _ => None end) t.

Definition written_chunks {Qty : Type} (t : list (Event Qty))
  : list (list (Candidate Qty)) :=
  omap (fun e => match e with EvSetQuantities c => Some c | _ => None end) t.

(** The last row of a list with a given item id. *)
Definition last_row_of {Qty : Type} (id : string) (l : list (Candidate Qty))
  : option (Candidate Qty) :=
  List.find (fun x => String.eqb (inventory_item_id x) id) (rev l).

(** The number of rows the match loop has filed. *)
Definition sorted_rows {Qty : Type} (st : MatchState Qty) : nat :=
  length (candidates st) + length (ambiguous st) + length (misses st).

(** A user error that makes the first pass note an item: the message has
    the signature and the index points into the chunk. *)
Definition flags {Qty : Type} (chunk : list (Candidate Qty)) (e : UserError)
    (id : string) : Prop :=
  exists idx x,
    not_stocked_message (message e) = true
    /\ field2 e = Some idx
    /\ (0 <= idx < Z.of_nat (length chunk))%Z
    /\ nth_error chunk (Z.to_nat idx) = Some x
    /\ inventory_item_id x = id.

(** The user errors of the first pass that note an item: the [k]-th call
    after [k0] earlier ones returned an error that flags it. *)
Definition flagged_in {Qty : Type}
    (gql : nat -> list (Candidate Qty) -> GqlResult) (k0 : nat)
    (cs : list (list (Candidate Qty))) (id : string) : Prop :=
  exists k chunk ue e,
    nth_error cs k = Some chunk
    /\ gql (k0 + k)%nat chunk = GqlData ue
    /\ e ∈ ue /\ flags chunk e id.

(** What a round adds to the counters and to the changed rows when the
    call returns data: the same in the three write loops. *)
Definition credited {Qty : Type} (st st' : RunState Qty)
    (chunk : list (Candidate Qty)) (ue : list UserError) : Prop :=
  updated st' = (updated st + count_ok chunk ue)%Z
  /\ errors st' = (errors st + Z.of_nat (length ue))%Z
  /\ changedRows st'
     = changedRows st
       ++ map (fun x => mkChangedRow (sku x) (inventory_item_id x) (qty x))
            (firstn (Z.to_nat (count_ok chunk ue)) chunk).

(** What a round does when the call throws. *)
Definition charged {Qty : Type} (st st' : RunState Qty)
    (chunk : list (Candidate Qty)) : Prop :=
  updated st' = updated st
  /\ errors st' = (errors st + Z.of_nat (length chunk))%Z
  /\ changedRows st' = changedRows st.

(** ** Concrete runs *)
Module Examples.
(** A catalog of two variants, and a feed with two spellings of the first
    SKU and one SKU that the catalog does not have. *)
Definition exact1 : gmap string string :=
  <["SKU1" := "101"]> (<["SKU2" := "102"]> ∅).

Definition normalized1 : gmap string (list string) :=
  <["SKU1" := ["101"]]> (<["SKU2" := ["102"]]> ∅).

Definition feed1 : list (string * Z) :=
  [("SKU1", 10%Z); ("sku1", 7%Z); ("SKU3", 5%Z)].

(** A catalog that has NEW and not OLD, a manual map from OLD to NEW, and
    a feed of the one row OLD. *)
Definition exact2 : gmap string string := <["NEW" := "201"]> ∅.

Definition normalized2 : gmap string (list string) :=
  <["NEW" := ["201"]]> ∅.

Definition skuMap2 : gmap string string := <["OLD" := "NEW"]> ∅.

Definition feed2 : list (string * Z) := [("OLD", 3%Z)].

(** A manual map whose target is not in the catalog as it is spelt. *)
Definition skuMap3 : gmap string string := <["OLD" := "new"]> ∅.

(** Five work items, and the one of them alone. *)
Definition item (n : nat) : Candidate Z :=
  mkCandidate ("SKU" +:+ status_text n) (status_text (300 + n)) (Z.of_nat n).

Definition five_items : list (Candidate Z) := map item (seq 0 5).

Definition one_item : list (Candidate Z) := [item 0].

(** A network on which every call succeeds. *)
Definition gql_fine : nat -> list (Candidate Z) -> GqlResult :=
  fun _ _ => GqlData [].

Definition connect_fine : string -> ConnectResponse :=
  fun _ => Response 200.

(** Every write call returns one user error, at row 2, that is not about
    stocking. *)
Definition error_at_row_2 : list UserError :=
  [mkUserError "The quantity is invalid." (Some 2%Z)].

Definition gql_error_at_row_2 : nat -> list (Candidate Z) -> GqlResult :=
  fun _ _ => GqlData error_at_row_2.

(** Every write call returns two user errors for row 0. *)
Definition two_errors_at_row_0 : list UserError :=
  [mkUserError "The quantity is invalid." (Some 0%Z);
   mkUserError "The location is invalid." (Some 0%Z)].

Definition gql_two_errors : nat -> list (Candidate Z) -> GqlResult :=
  fun _ _ => GqlData two_errors_at_row_0.

(** The first write call reports row 0 as not stocked, the later ones
    succeed; the connect call is answered with status 500. *)
Definition gql_not_stocked_once : nat -> list (Candidate Z) -> GqlResult :=
  fun n _ =>
    match n with
    | O => GqlData
             [mkUserError
                "The specified inventory item is not stocked at the location."
                (Some 0%Z)]
    | S _ => GqlData []
    end.

Definition connect_refused : string -> ConnectResponse :=
  fun _ => Response 500.
End Examples.

(** ** Readings of the run as a whole *)

Section RowReadings.
Context {Qty : Type}.
Variable exact : gmap string string.
Variable normalized : gmap string (list string).
Variable skuMap : gmap string string.
Variable mode : string.

(** What a feed row adds to [candidates], to [misses] and to [ambiguous],
    read off the row alone. *)
Definition candidate_of (row : string * Qty) : option (Candidate Qty) :=
  match tiered_outcome exact normalized skuMap mode (fst row) with
  | Matched _ s id => Some (mkCandidate s id (snd row))
  | _ => None
  end.

Definition miss_of (row : string * Qty) : option Miss :=
  match tiered_outcome exact normalized skuMap mode (fst row) with
  | Missed f m => Some (mkMiss f m "not_in_shopify")
  | _ => None
  end.

Definition ambiguous_of (row : string * Qty) : option Ambiguous :=
  match tiered_outcome exact normalized skuMap mode (fst row) with
  | IsAmbiguous nk n s => Some (mkAmbiguous nk n s)
  | _ => None
  end.
End RowReadings.

(** The distinct strings of a list in the order of their first
    occurrence. *)
Definition first_occurrences (ids : list string) : list string :=
  fold_left (fun s x => set_add x s) ids [].

(** The row of changes.csv for a work item. *)
Definition changed_row_of {Qty : Type} (x : Candidate Qty) : ChangedRow Qty :=
  mkChangedRow (sku x) (inventory_item_id x) (qty x).

(** What every round of every write loop does to the counters and to the
    changed rows: it records the first [j] rows of the chunk, for some [j],
    adds [j] to [updated], and adds to [errors] at least the rows it did
    not record. *)
Definition accounted {Qty : Type} (st st' : RunState Qty)
    (chunk : list (Candidate Qty)) : Prop :=
  exists j : nat,
    (j <= length chunk)%nat
    /\ changedRows st' = changedRows st ++ map changed_row_of (firstn j chunk)
    /\ updated st' = (updated st + Z.of_nat j)%Z
    /\ (Z.of_nat (length chunk) - Z.of_nat j
        <= errors st' - errors st)%Z.

(** ** The catalog index, [fetchAllVariantSkuToInvItem]

    The function is the same in the two scripts (src/recmar-sync.mjs lines
    79-107, src/unnamed/part_000 lines 82-110). *)

(** [s.trim()], for the white space of ASCII: tab, line feed, vertical
    tab, form feed, carriage return and space. *)
Definition is_space (c : ascii) : bool :=
  let n := nat_of_ascii c in ((9 <=? n)%nat && (n <=? 13)%nat) || (n =? 32)%nat.

Fixpoint trim_start (s : string) : string :=
  match s with
  | String c s' => if is_space c then trim_start s' else s
  | EmptyString => EmptyString
  end.

(** The string without its trailing white space: a character is dropped
    when it is white space and nothing is kept after it. *)
Fixpoint trim_end (s : string) : string :=
  match s with
  | String c s' =>
      match trim_end s' with
      | EmptyString => if is_space c then EmptyString else String c EmptyString
      | rest => String c rest
      end
  | EmptyString => EmptyString
  end.

Definition trim (s : string) : string := trim_end (trim_start s).

(** [s] without the prefix [p], when it starts with [p]. *)
Fixpoint drop_prefix (p s : string) : option string :=
  match p, s with
  | EmptyString, _ => Some s
  | String a p', String b s' =>
      if Ascii.eqb a b then drop_prefix p' s' else None
  | String _ _, EmptyString => None
  end.

(** [\d+] at the start of a string, greedy: the longest run of digits. *)
Fixpoint take_digits (s : string) : string :=
  match s with
  | String c s' => if is_digit c then String c (take_digits s') else EmptyString
  | EmptyString => EmptyString
  end.

(** [/InventoryItem\/(\d+)/] tried at the start of a string: the group. *)
Definition match_InventoryItem_here (s : string) : option string :=
  match drop_prefix "InventoryItem/" s with
  | Some rest =>
      let digits := take_digits rest in
      if String.eqb digits "" then None else Some digits
  | None => None
  end.

(** [gid.match(/InventoryItem\/(\d+)/)]: the group [m[1]] of the leftmost
    match, [None] when there is no match. *)
Fixpoint match_InventoryItem (gid : string) : option string :=
  match match_InventoryItem_here gid with
  | Some digits => Some digits
  | None =>
      match gid with
      | String _ gid' => match_InventoryItem gid'
      | EmptyString => None
      end
  end.

(** An element of [pv.edges]: [e.cursor], [e.node?.sku || ''] and
    [e.node?.inventoryItem?.id || '']. *)
Record Edge : Type := mkEdge {
  cursor : string;
  node_sku : string;
  inventoryItem_id : string
}.

(** What [await gql(q, { after: cursor })] does for a page: it throws, or
    it returns the edges and [pageInfo.hasNextPage]. *)
Inductive PageResult : Type :=
  | PageThrows
  | Page (edges : list Edge) (hasNextPage : bool).

(** The two maps under construction and the cursor. *)
Record IndexState : Type := mkIndexState {
  index_exact : gmap string string;
  index_normalized : gmap string (list string);
  index_cursor : option string
}.

Definition index_init : IndexState := mkIndexState ∅ ∅ None.

(** The body of [for (const e of pv.edges)]. *)
Definition add_edge (st : IndexState) (e : Edge) : IndexState :=
  let sku := trim (node_sku e) in
  let gid := inventoryItem_id e in
  let m := match_InventoryItem gid in
  match m with
  | Some invId =>
      if String.eqb sku ""
      then mkIndexState (index_exact st) (index_normalized st)
             (Some (cursor e))
      else
        let n := normalizeSkuText sku in
        let list := default [] (index_normalized st !! n) in
        mkIndexState (<[sku := invId]> (index_exact st))
          (<[n := list ++ [invId]]> (index_normalized st))
          (Some (cursor e))
  | None =>
      mkIndexState (index_exact st) (index_normalized st) (Some (cursor e))
  end.

(** How a run of the page loop ends: with the two maps, with the error of
    a page request, or not within the rounds it was given. *)
Inductive FetchOutcome : Type :=
  | Fetched (exact : gmap string string)
      (normalized : gmap string (list string))
  | FetchFailed
  | FetchRunsOn.

(** [while (hasNext) { ... }]: [source n c] is what the [n]-th page
    request, made with cursor [c], does.  The result comes with the
    cursors of the requests made, in order. *)
Fixpoint fetch_loop (fuel : nat)
    (source : nat -> option string -> PageResult)
    (n : nat) (st : IndexState) (asked : list (option string))
  : FetchOutcome * list (option string) :=
  match fuel with
  | O => (FetchRunsOn, asked)
  | S fuel' =>
      let asked := asked ++ [index_cursor st] in
      match source n (index_cursor st) with
      | PageThrows => (FetchFailed, asked)
      | Page edges hasNextPage =>
          let st := fold_left add_edge edges st in
          if hasNextPage
          then fetch_loop fuel' source (S n) st asked
          else (Fetched (index_exact st) (index_normalized st), asked)
      end
  end.

Definition fetchAllVariantSkuToInvItem (fuel : nat)
    (source : nat -> option string -> PageResult)
  : FetchOutcome * list (option string) :=
  fetch_loop fuel source 0 index_init [].

(** The catalog records that the loop keeps: the trimmed SKU and the item
    id of an edge that has both. *)
Definition record_of (e : Edge) : option (string * string) :=
  match match_InventoryItem (inventoryItem_id e) with
  | Some invId =>
      if String.eqb (trim (node_sku e)) "" then None
      else Some (trim (node_sku e), invId)
  | None => None
  end.

(** The item id of the last record with a given SKU. *)
Definition last_id_of (sku : string) (records : list (string * string))
  : option string :=
  snd <$> List.find (fun r => String.eqb (fst r) sku) (rev records).

(** The item ids of the records whose SKU has a given normalized key, in
    the order of the records. *)
Definition ids_under (key : string) (records : list (string * string))
  : list string :=
  map snd
    (List.filter (fun r => String.eqb (normalizeSkuText (fst r)) key) records).

(** A string of one or more digits. *)
Fixpoint all_digits (s : string) : bool :=
  match s with
  | String c s' => is_digit c && all_digits s'
  | EmptyString => true
  end.

(** The normalized map's entry for a key: the ids under it, when there is
    one. *)
Definition ids_entry (key : string) (records : list (string * string))
  : option (list string) :=
  match ids_under key records with
  | [] => None
  | ids => Some ids
  end.

(** The cursor after a list of edges: the cursor of the last one, the
    cursor before them when there is none. *)
Definition cursor_after (c : option string) (edges : list Edge)
  : option string :=
  match last edges with
  | Some e => Some (cursor e)
  | None => c
  end.

(** The pages that [k] requests in a row return, from the [n]-th request
    and the cursor [c] on, when none of them throws: each request is made
    with the cursor of the last edge before it. *)
Fixpoint pages_seen (source : nat -> option string -> PageResult)
    (k : nat) (n : nat) (c : option string)
  : option (list (list Edge * bool)) :=
  match k with
  | O => Some []
  | S k' =>
      match source n c with
      | PageThrows => None
      | Page edges hasNextPage =>
          (fun rest => (edges, hasNextPage) :: rest)
            <$> pages_seen source k' (S n) (cursor_after c edges)
      end
  end.

(** The cursors that the requests for a list of pages are made with. *)
Fixpoint cursors_asked (c : option string) (pages : list (list Edge * bool))
  : list (option string) :=
  match pages with
  | [] => []
  | (edges, _) :: rest => c :: cursors_asked (cursor_after c edges) rest
  end.

(** The records of a list of pages. *)
Definition records_of (pages : list (list Edge * bool))
  : list (string * string) :=
  omap record_of (concat (map fst pages)).

(** Every page but the last says that there is a next page, and the last
    says that there is none. *)
Fixpoint ends_at_last (pages : list (list Edge * bool)) : bool :=
  match pages with
  | [] => false
  | [(_, hasNextPage)] => negb hasNextPage
  | (_, hasNextPage) :: rest => hasNextPage && ends_at_last rest
  end.

(** The index that the records stand for. *)
Definition index_of_records (exact : gmap string string)
    (normalized : gmap string (list string))
    (records : list (string * string)) : Prop :=
  (forall sku, exact !! sku = last_id_of sku records)
  /\ (forall key, normalized !! key = ids_entry key records).

(** ** Reading the feed, [parseCsvNumeric] *)

(** [s.split(c)] for a separator of one character: the pieces between the
    separators; a string without the separator is one piece. *)
Fixpoint split_on (sep : ascii) (s : string) : list string :=
  match s with
  | EmptyString => [EmptyString]
  | String c s' =>
      if Ascii.eqb c sep then EmptyString :: split_on sep s'
      else match split_on sep s' with
           | piece :: rest => String c piece :: rest
           | [] => [String c EmptyString]
           end
  end.

(** The string without a carriage return at its end. *)
Fixpoint drop_last_cr (s : string) : string :=
  match s with
  | String c EmptyString =>
      if Ascii.eqb c "013"%char then EmptyString else s
  | String c s' => String c (drop_last_cr s')
  | EmptyString => EmptyString
  end.

(** [s.split(/\r?\n/)]: a line feed separates, and takes a carriage return
    right before it along. *)
Fixpoint drop_cr_before_lf (pieces : list string) : list string :=
  match pieces with
  | [] => []
  | [piece] => [piece]
  | piece :: rest => drop_last_cr piece :: drop_cr_before_lf rest
  end.

Definition split_lines (s : string) : list string :=
  drop_cr_before_lf (split_on "010"%char s).

(** [l.findIndex(p)], [None] for -1. *)
Fixpoint findIndex {A : Type} (p : A -> bool) (l : list A) : option nat :=
  match l with
  | [] => None
  | x :: l' => if p x then Some 0%nat else S <$> findIndex p l'
  end.

(** [/^sku$/i.test(h)] and [/^quantity$/i.test(h)]. *)
Definition is_sku_header (h : string) : bool :=
  String.eqb (toUpperCase h) (toUpperCase "sku").

Definition is_quantity_header (h : string) : bool :=
  String.eqb (toUpperCase h) (toUpperCase "quantity").

(** The two versions of [parseCsvNumeric].  [content] is what
    [fs.readFileSync(filePath, 'utf8')] returns; [Number_ s] is the number
    [Number(s)], [None] when it is [NaN]; the result is the [Map] in
    insertion order, [None] when the function throws. *)
Module CurrentInput.
Section Parse.
Context {Qty : Type}.
Variable Number_ : string -> option Qty.

(** Lines 138-143 of src/unnamed/part_000: one data line. *)
Definition add_line (iSku iQty : nat) (map : list (string * Qty))
    (line : string) : list (string * Qty) :=
  let row := split_on ","%char line in
  let sku := trim (or_empty (nth_error row iSku)) in
  if String.eqb sku "" then map
  else
    match Number_ (default "0" (nth_error row iQty)) with
    | None => map
    | Some q => map_set sku q map
    end.

(** Lines 128-146 of src/unnamed/part_000. *)
Definition parseCsvNumeric (content : string) : option (list (string * Qty)) :=
  let txt := trim content in
  let lines := split_lines txt in
  let header := split_on ","%char (hd "" lines) in
  let iSku := findIndex is_sku_header header in
  let iQty := findIndex is_quantity_header header in
  match iSku, iQty with
  | Some iSku, Some iQty => Some (fold_left (add_line iSku iQty) (tl lines) [])
  | _, _ => None
  end.
End Parse.
End CurrentInput.

Module LegacyInput.
Section Parse.
Context {Qty : Type}.
Variable Number_ : string -> option Qty.

(** Lines 122-127 of src/recmar-sync.mjs: one data line. *)
Definition add_line (iSku iQty : nat) (map : list (string * Qty))
    (line : string) : list (string * Qty) :=
  let row := split_on ","%char line in
  if negb (truthy (nth_error row iSku)) then map
  else
    let sku := trim (default "" (nth_error row iSku)) in
    match Number_ (default "0" (nth_error row iQty)) with
    | None => map
    | Some q => map_set sku q map
    end.

(** Lines 112-130 of src/recmar-sync.mjs. *)
Definition parseCsvNumeric (content : string) : option (list (string * Qty)) :=
  let txt := trim content in
  let lines := split_lines txt in
  let header := split_on ","%char (hd "" lines) in
  let iSku := findIndex is_sku_header header in
  let iQty := findIndex is_quantity_header header in
  match iSku, iQty with
  | Some iSku, Some iQty => Some (fold_left (add_line iSku iQty) (tl lines) [])
  | _, _ => None
  end.
End Parse.
End LegacyInput.

(** The insertion-ordered [Map] that a list of [set] calls builds. *)
Definition map_of_sets {V : Type} (sets : list (string * V))
  : list (string * V) :=
  fold_left (fun m r => map_set (fst r) (snd r) m) sets [].

(** The value of the last [set] call for a key. *)
Definition last_set {V : Type} (k : string) (sets : list (string * V))
  : option V :=
  snd <$> List.find (fun r => String.eqb (fst r) k) (rev sets).

(** The data row that a line of the feed file stands for in the later
    script: the trimmed SKU cell and the number of the quantity cell, when
    the SKU is not empty and the quantity is a number. *)
Definition feed_row_of {Qty : Type} (Number_ : string -> option Qty)
    (iSku iQty : nat) (line : string) : option (string * Qty) :=
  let row := split_on ","%char line in
  let sku := trim (or_empty (nth_error row iSku)) in
  if String.eqb sku "" then None
  else (fun q => (sku, q)) <$> Number_ (default "0" (nth_error row iQty)).

(** The decimal digits of a number of the feed, for the examples: the
    value of a string of digits, [NaN] for any other string but the empty
    one, which is 0. *)
Definition Number_of_digits (s : string) : option Z :=
  if all_digits s
  then Some (Z.of_N (fold_left
                       (fun n c => (10 * n + (N_of_ascii c - 48))%N)
                       (list_ascii_of_string s) 0%N))
  else None.

(** The data row that a line stands for in the earlier script: the SKU
    cell must not be empty before it is trimmed. *)
Definition legacy_feed_row_of {Qty : Type} (Number_ : string -> option Qty)
    (iSku iQty : nat) (line : string) : option (string * Qty) :=
  let row := split_on ","%char line in
  if negb (truthy (nth_error row iSku)) then None
  else (fun q => (trim (default "" (nth_error row iSku)), q))
         <$> Number_ (default "0" (nth_error row iQty)).

(** The header cells of a feed file and its data lines. *)
Definition header_of (content : string) : list string :=
  split_on ","%char (hd "" (split_lines (trim content))).

Definition data_lines_of (content : string) : list string :=
  tl (split_lines (trim content)).

(** An entry whose key is not the empty string. *)
Definition has_sku {V : Type} (r : string * V) : bool :=
  negb (String.eqb (fst r) "").

(** ** Identifiers in the write call *)

(** [function invGid(id){ return `gid://shopify/InventoryItem/${id}`; }]
    for an id that is a string. *)
Definition invGid (id : string) : string :=
  "gid://shopify/InventoryItem/" +:+ id.

(** [function locGid(id){ return `gid://shopify/Location/${id}`; }]. *)
Definition locGid (id : string) : string :=
  "gid://shopify/Location/" +:+ id.

(** An element of [quantities] in the input of the write call, and the
    list of them for a chunk: [chunk.map(x => ({ inventoryItemId:
    invGid(x.inventory_item_id), locationId: locGid(location_id),
    quantity: Number(x.qty) }))]. *)
Record QuantityInput (Qty : Type) : Type := mkQuantityInput {
  inventoryItemId : string;
  locationId : string;
  quantity : Qty
}.
Arguments mkQuantityInput {Qty} _ _ _.
Arguments inventoryItemId {Qty} _.
Arguments locationId {Qty} _.
Arguments quantity {Qty} _.

Definition quantities_of {Qty : Type} (location_id : string)
    (chunk : list (Candidate Qty)) : list (QuantityInput Qty) :=
  map (fun x => mkQuantityInput (invGid (inventory_item_id x))
                  (locGid location_id) (qty x))
    chunk.

(** ** Reading the manual map, [loadSkuMap] *)

(** The double quote. *)
Definition dquote : ascii := "034"%char.

(** [s.replace(/^"|"$/g,'')]: a double quote at the start goes, and a
    double quote at the end of what is left goes. *)
Definition strip_leading_quote (s : string) : string :=
  match s with
  | String c s' => if Ascii.eqb c dquote then s' else s
  | EmptyString => EmptyString
  end.

Fixpoint strip_trailing_quote (s : string) : string :=
  match s with
  | String c EmptyString => if Ascii.eqb c dquote then EmptyString else s
  | String c s' => String c (strip_trailing_quote s')
  | EmptyString => EmptyString
  end.

Definition strip_quotes (s : string) : string :=
  strip_trailing_quote (strip_leading_quote s).

(** [l => l.trim() && !l.trim().startsWith('#')]. *)
Definition is_map_line (l : string) : bool :=
  negb (String.eqb (trim l) "") && negb (String.prefix "#" (trim l)).

(** [/feed_sku/i.test(s)] and [/shopify_sku/i.test(s)]. *)
Definition has_feed_sku (s : string) : bool :=
  occurs_in (toUpperCase "feed_sku") (toUpperCase s).

Definition has_shopify_sku (s : string) : bool :=
  occurs_in (toUpperCase "shopify_sku") (toUpperCase s).

(** [file] is the text of sku-map.csv, [None] when the file is not there
    or reading it throws: both ways the function returns an empty map. *)
Module CurrentMap.
(** Line 158 of src/unnamed/part_000: the test of the first line. *)
Definition is_header (line : string) : bool :=
  has_feed_sku line && has_shopify_sku line.

(** Lines 160-166 of src/unnamed/part_000: one line. *)
Definition add_line (map : gmap string string) (line : string)
  : gmap string string :=
  let parts := split_on ","%char line in
  let feed := nth_error parts 0 in
  let shop := nth_error parts 1 in
  if negb (truthy feed) || negb (truthy shop) then map
  else
    let f := strip_quotes (trim (default "" feed)) in
    let s := strip_quotes (trim (default "" shop)) in
    if truthy (Some f) && truthy (Some s) then <[f := s]> map else map.

(** Lines 151-173 of src/unnamed/part_000. *)
Definition loadSkuMap (file : option string) : gmap string string :=
  match file with
  | None => ∅
  | Some content =>
      let text := trim content in
      let lines := List.filter is_map_line (split_lines text) in
      let lines :=
        match lines with
        | first :: rest => if is_header first then rest else lines
        | [] => lines
        end in
      fold_left add_line lines ∅
  end.
End CurrentMap.

Module LegacyMap.
(** Lines 142-143 of src/recmar-sync.mjs: the test of the first line, cell
    by cell; a second cell that is not there reads as "undefined". *)
Definition is_header (line : string) : bool :=
  let first := split_on ","%char line in
  has_feed_sku (default "undefined" (nth_error first 0))
  && has_shopify_sku (default "undefined" (nth_error first 1)).

(** Lines 145-151 of src/recmar-sync.mjs: one line. *)
Definition add_line (map : gmap string string) (line : string)
  : gmap string string :=
  let parts := split_on ","%char line in
  if (length parts <? 2)%nat then map
  else
    let feed := strip_quotes (trim (default "" (nth_error parts 0))) in
    let shop := strip_quotes (trim (default "" (nth_error parts 1))) in
    if truthy (Some feed) && truthy (Some shop) then <[feed := shop]> map
    else map.

(** Lines 135-158 of src/recmar-sync.mjs; without lines, [lines[0].split]
    throws and the [catch] returns an empty map. *)
Definition loadSkuMap (file : option string) : gmap string string :=
  match file with
  | None => ∅
  | Some content =>
      let text := trim content in
      let lines := List.filter is_map_line (split_lines text) in
      match lines with
      | first :: rest =>
          fold_left add_line (if is_header first then rest else lines) ∅
      | [] => ∅
      end
  end.
End LegacyMap.

(** The lines of a manual-map file that are neither blank nor comments. *)
Definition map_lines_of (content : string) : list string :=
  List.filter is_map_line (split_lines (trim content)).

(** The two header tests give the same answer on the first line of a
    manual-map file that is neither blank nor a comment; a file that is
    not there, or has no such line, has no header to disagree on. *)
Definition header_tests_agree (file : option string) : Prop :=
  match file with
  | None => True
  | Some content =>
      match map_lines_of content with
      | [] => True
      | first :: _ => LegacyMap.is_header first = CurrentMap.is_header first
      end
  end.

(** ** The reports, [writeCsv] *)

(** The [replace] of a value in [writeCsv]: every double quote is written
    twice. *)
Fixpoint double_quotes (v : string) : string :=
  match v with
  | EmptyString => EmptyString
  | String c v' =>
      if Ascii.eqb c dquote
      then String dquote (String dquote (double_quotes v'))
      else String c (double_quotes v')
  end.

(** The template that puts a value between two double quotes. *)
Definition in_quotes (v : string) : string :=
  String dquote (v +:+ String dquote EmptyString).

(** [l.join(sep)]. *)
Fixpoint join_with (sep : string) (l : list string) : string :=
  match l with
  | [] => EmptyString
  | [x] => x
  | x :: l' => x +:+ sep +:+ join_with sep l'
  end.

(** The line feed that joins the lines of a report. *)
Definition line_feed : string := String "010"%char EmptyString.

Section Reports.
Context {R : Type}.

(** [get r h] is [String(r[h])], [None] when [r[h]] is [undefined] or
    [null]. *)
Variable get : R -> string -> option string.

(** [header.map(h => String(r[h] ?? ''))]: the values of a row. *)
Definition values_of (header : list string) (r : R) : list string :=
  map (fun h => default "" (get r h)) header.

(** The line of a row. *)
Definition row_line (header : list string) (r : R) : string :=
  join_with ","
    (map in_quotes (map double_quotes (values_of header r))).

(** Lines 48-54 of src/unnamed/part_000 (lines 44-50 of
    src/recmar-sync.mjs): the text written to the file, [None] when
    nothing is written. *)
Definition writeCsv (rows : list R) (header : list string) : option string :=
  match rows with
  | [] => None
  | _ :: _ =>
      let lines := [join_with "," header] ++ map (row_line header) rows in
      Some (join_with line_feed lines)
  end.
End Reports.

(** The fields of the rows of misses.csv. *)
Definition miss_field (r : Miss) (h : string) : option string :=
  if String.eqb h "sku" then Some (miss_sku r)
  else if String.eqb h "mapped_to" then Some (mapped_to r)
  else if String.eqb h "reason" then Some (reason r)
  else None.

(** A string that is empty or starts with another character than a
    double quote. *)
Definition no_quote_ahead (s : string) : bool :=
  match s with
  | EmptyString => true
  | String c _ => negb (Ascii.eqb c dquote)
  end.

(** A string that is empty or starts with a line feed. *)
Definition line_ends (r : string) : Prop :=
  r = "" \/ exists r0, r = String "010"%char r0.

(** ** Example inputs: catalog pages, a feed file and a manual map *)

Module InputExamples.
Definition lf : string := String "010"%char EmptyString.

Definition page1 : list Edge :=
  [mkEdge "c1" " sku1 " (invGid "101"); mkEdge "c2" "SKU-1" (invGid "102")].

Definition page2 : list Edge :=
  [mkEdge "c3" "sku1" (invGid "103"); mkEdge "c4" "" (invGid "104");
   mkEdge "c5" "sku9" "gid://shopify/Product/9"].

(** A catalog of two pages: the second is asked for with the cursor of the
    last edge of the first. *)
Definition two_pages (n : nat) (c : option string) : PageResult :=
  match c with
  | None => Page page1 true
  | Some c => if String.eqb c "c2" then Page page2 false else PageThrows
  end.

(** A catalog whose second request throws. *)
Definition page_then_throws (n : nat) (c : option string) : PageResult :=
  match c with
  | None => Page page1 true
  | Some _ => PageThrows
  end.

(** A catalog that answers with a page without edges and promises more. *)
Definition empty_pages (n : nat) (c : option string) : PageResult :=
  Page [] true.

(** The index of [two_pages]. *)
Definition catalog_exact : gmap string string :=
  match fst (fetchAllVariantSkuToInvItem 5 two_pages) with
  | Fetched exact _ => exact
  | _ => ∅
  end.

Definition catalog_normalized : gmap string (list string) :=
  match fst (fetchAllVariantSkuToInvItem 5 two_pages) with
  | Fetched _ normalized => normalized
  | _ => ∅
  end.

Definition catalog_feed : list (string * Z) :=
  [("sku1", 5%Z); ("SKU-1", 7%Z); ("sku 1", 2%Z); ("other", 1%Z)].

(** A feed file of three data rows, two of them for one SKU. *)
Definition feed_text : string :=
  "SKU,Quantity" +:+ lf +:+ "sku1,5" +:+ lf +:+ "sku2,7" +:+ lf +:+ "sku1,6".

(** A manual map with its header line and one mapping. *)
Definition map_text : string :=
  "feed_sku,shopify_sku" +:+ lf +:+ "A-1,sku1".

(** A feed file of three rows: one SKU of the catalog, one that the
    manual map sends to a SKU of the catalog, and one that is unknown. *)
Definition three_rows_text : string :=
  "SKU,Quantity" +:+ lf +:+ "SKU-1,7" +:+ lf +:+ "A-1,4" +:+ lf +:+ "other,1".

Definition three_rows : list (string * Z) :=
  [("SKU-1", 7%Z); ("A-1", 4%Z); ("other", 1%Z)].

(** Every write call returns one user error, at row 1, that is not about
    stocking. *)
Definition gql_error_at_row_1 : nat -> list (Candidate Z) -> GqlResult :=
  fun _ _ => GqlData [mkUserError "The quantity is invalid." (Some 1%Z)].
End InputExamples.

(** ** Facts about normalisation *)

Lemma or_empty_Some (s : string) : or_empty (Some s) = s.
Proof.
  unfold or_empty, truthy. simpl.
  destruct (String.eqb_spec s "") as [-> | _]; reflexivity.
Qed.

Lemma strip_all_AZ09 (s : string) : all_AZ09 (strip_non_AZ09 s) = true.
Proof.
  induction s as [| c s IH]; simpl; [reflexivity |].
  destruct (is_AZ09 c) eqn:Hc; simpl; [rewrite Hc |]; exact IH.
Qed.

Lemma strip_fixes (s : string) : all_AZ09 s = true -> strip_non_AZ09 s = s.
Proof.
  induction s as [| c s IH]; simpl; [reflexivity |].
  intros [Hc Hs]%andb_prop. rewrite Hc, IH by exact Hs. reflexivity.
Qed.

Lemma upper_char_AZ09 (c : ascii) : is_AZ09 c = true -> upper_char c = c.
Proof.
  destruct c as [[] [] [] [] [] [] [] []]; vm_compute; congruence.
Qed.

Lemma toUpperCase_fixes (s : string) : all_AZ09 s = true -> toUpperCase s = s.
Proof.
  induction s as [| c s IH]; simpl; [reflexivity |].
  intros [Hc Hs]%andb_prop. rewrite upper_char_AZ09, IH; auto.
Qed.

(** Idempotence needs one thing of the case conversion: it leaves a string
    of capitals and digits as it is. *)
Lemma normalizeWith_idempotent (upper : string -> string) :
  (forall s, all_AZ09 s = true -> upper s = s) ->
  forall x, normalizeWith upper (normalizeWith upper x) = normalizeWith upper x.
Proof.
  intros Hup x. unfold normalizeWith, String_. rewrite !or_empty_Some.
  set (y := strip_non_AZ09 (upper x)).
  assert (Hy : all_AZ09 y = true) by apply strip_all_AZ09.
  rewrite (Hup y Hy). apply strip_fixes, Hy.
Qed.

Lemma in_all_chars (c : ascii) : In c all_chars.
Proof.
  unfold all_chars. apply in_map_iff. exists (nat_of_ascii c).
  split; [apply ascii_nat_embedding |].
  apply in_seq. pose proof (nat_ascii_bounded c). lia.
Qed.

Lemma for_all_chars (p : ascii -> bool) :
  forallb p all_chars = true -> forall c, p c = true.
Proof.
  intros H c. rewrite forallb_forall in H. apply H, in_all_chars.
Qed.

Lemma is_lower_spec (c : ascii) :
  is_lower c = true <-> (97 <= nat_of_ascii c <= 122)%nat.
Proof.
  unfold is_lower. cbv zeta. rewrite andb_true_iff, !Nat.leb_le. tauto.
Qed.

Lemma nat_of_ascii_inj (c d : ascii) :
  nat_of_ascii c = nat_of_ascii d -> c = d.
Proof.
  intros H. rewrite <- (ascii_nat_embedding c), <- (ascii_nat_embedding d), H.
  reflexivity.
Qed.

Lemma nat_of_upper_char (c : ascii) :
  nat_of_ascii (upper_char c)
  = if is_lower c then (nat_of_ascii c - 32)%nat else nat_of_ascii c.
Proof.
  unfold upper_char. destruct (is_lower c); [| reflexivity].
  apply nat_ascii_embedding. pose proof (nat_ascii_bounded c). lia.
Qed.

Lemma same_up_to_case_iff (c d : ascii) :
  same_up_to_case c d = true <-> upper_char c = upper_char d.
Proof.
  unfold same_up_to_case.
  rewrite !orb_true_iff, !andb_true_iff, !Nat.eqb_eq, Ascii.eqb_eq.
  pose proof (nat_of_upper_char c) as Hc.
  pose proof (nat_of_upper_char d) as Hd.
  pose proof (is_lower_spec c) as Lc. pose proof (is_lower_spec d) as Ld.
  split.
  - intros H. apply nat_of_ascii_inj. rewrite Hc, Hd.
    destruct H as [[-> | [Hl H]] | [Hl H]]; [reflexivity | |].
    + rewrite Hl. destruct (is_lower d); [| congruence].
      apply Lc in Hl. destruct Ld as [Ld _]. specialize (Ld eq_refl). lia.
    + rewrite Hl. destruct (is_lower c); [| congruence].
      apply Ld in Hl. destruct Lc as [Lc _]. specialize (Lc eq_refl). lia.
  - intros H. apply (f_equal nat_of_ascii) in H. rewrite Hc, Hd in H.
    destruct (is_lower c), (is_lower d).
    + left. left. apply nat_of_ascii_inj.
      destruct Lc as [Lc _], Ld as [Ld _].
      specialize (Lc eq_refl). specialize (Ld eq_refl). lia.
    + left. right. split; [reflexivity | congruence].
    + right. split; [reflexivity | congruence].
    + left. left. apply nat_of_ascii_inj, H.
Qed.

Lemma same_up_to_case_upper (c d : ascii) :
  same_up_to_case c d = true -> upper_char c = upper_char d.
Proof. apply same_up_to_case_iff. Qed.

Lemma upper_same_up_to_case (c d : ascii) :
  upper_char c = upper_char d -> same_up_to_case c d = true.
Proof. apply same_up_to_case_iff. Qed.

Lemma punctuation_stripped (c : ascii) :
  is_punctuation c = true -> is_AZ09 (upper_char c) = false.
Proof.
  generalize
    (for_all_chars
       (fun c => implb (is_punctuation c) (negb (is_AZ09 (upper_char c))))
       ltac:(vm_compute; reflexivity) c).
  destruct (is_punctuation c); simpl; [| discriminate].
  intros H _. apply negb_true_iff, H.
Qed.

Lemma ascii_kept_or_punctuation (c : ascii) :
  (nat_of_ascii c <? 128)%nat = true ->
  is_AZ09 (upper_char c) = false -> is_punctuation c = true.
Proof.
  generalize
    (for_all_chars
       (fun c => implb ((nat_of_ascii c <? 128)%nat
                        && negb (is_AZ09 (upper_char c)))
                   (is_punctuation c))
       ltac:(vm_compute; reflexivity) c).
  intros H H1 H2. rewrite H1, H2 in H. exact H.
Qed.

Lemma normalizeSkuText_unfold (s : string) :
  normalizeSkuText s = strip_non_AZ09 (toUpperCase s).
Proof.
  unfold normalizeSkuText, normalizeWith, String_.
  rewrite or_empty_Some. reflexivity.
Qed.

Lemma strip_upper_cons (c : ascii) (s : string) :
  strip_non_AZ09 (toUpperCase (String c s))
  = if is_AZ09 (upper_char c)
    then String (upper_char c) (strip_non_AZ09 (toUpperCase s))
    else strip_non_AZ09 (toUpperCase s).
Proof. reflexivity. Qed.

(** Variants have one key. *)
Lemma variants_collapse (s t : string) :
  variant_of s t -> normalizeSkuText s = normalizeSkuText t.
Proof.
  rewrite !normalizeSkuText_unfold.
  induction 1 as [| c d s t Hcd _ IH | c s t Hc _ IH | c s t Hc _ IH];
    rewrite ?strip_upper_cons.
  - reflexivity.
  - rewrite (same_up_to_case_upper c d Hcd), IH. reflexivity.
  - rewrite (punctuation_stripped c Hc). exact IH.
  - rewrite (punctuation_stripped c Hc). exact IH.
Qed.

(** ASCII spellings with one key are variants. *)
Lemma one_key_variants (s : string) :
  forall t,
    is_ascii_text s = true -> is_ascii_text t = true ->
    normalizeSkuText s = normalizeSkuText t -> variant_of s t.
Proof.
  setoid_rewrite normalizeSkuText_unfold.
  induction s as [| c s IHs].
  - induction t as [| d t IHt]; intros _ Ht Heq; [constructor |].
    cbn [is_ascii_text] in Ht. apply andb_prop in Ht as [Hd Ht].
    rewrite strip_upper_cons in Heq.
    destruct (is_AZ09 (upper_char d)) eqn:Hk; [discriminate |].
    apply variant_drop_r;
      [apply ascii_kept_or_punctuation; assumption | auto].
  - intros t Hs. cbn [is_ascii_text] in Hs. apply andb_prop in Hs as [Hc Hs].
    rewrite strip_upper_cons.
    destruct (is_AZ09 (upper_char c)) eqn:Hkc.
    + induction t as [| d t IHt]; intros Ht Heq; [discriminate |].
      cbn [is_ascii_text] in Ht. apply andb_prop in Ht as [Hd Ht].
      rewrite strip_upper_cons in Heq.
      destruct (is_AZ09 (upper_char d)) eqn:Hkd.
      * injection Heq as Hcd Heq.
        apply variant_char;
          [apply upper_same_up_to_case; assumption | auto].
      * apply variant_drop_r;
          [apply ascii_kept_or_punctuation; assumption | auto].
    + intros Ht Heq.
      apply variant_drop_l;
        [apply ascii_kept_or_punctuation; assumption | auto].
Qed.

(** C9. SKU normalisation is idempotent, [normalizeSkuText
    (normalizeSkuText x) = normalizeSkuText x] for every string [x], and
    it maps the case and punctuation variants of a SKU to one key: any two
    spellings that differ only in the case of letters and in ASCII
    characters that are neither letters nor digits have the same key, and
    two ASCII spellings with the same key differ in nothing else.  The
    spellings "ab-12", "AB12" and "Ab_12" are such variants, with the key
    "AB12". *)
Theorem normalizeSkuText_idempotent_collapses :
  (forall x : string,
      normalizeSkuText (normalizeSkuText x) = normalizeSkuText x) /\
  (forall s t : string,
      variant_of s t -> normalizeSkuText s = normalizeSkuText t) /\
  (forall s t : string,
      is_ascii_text s = true -> is_ascii_text t = true ->
      normalizeSkuText s = normalizeSkuText t -> variant_of s t) /\
  variant_of "ab-12" "AB12" /\
  variant_of "Ab_12" "AB12" /\
  normalizeSkuText "ab-12" = normalizeSkuText "AB12" /\
  normalizeSkuText "Ab_12" = normalizeSkuText "AB12" /\
  normalizeSkuText "AB12" = "AB12".
Proof.
  split; [| split; [| split; [| split; [| split]]]].
  - intros x. apply normalizeWith_idempotent, toUpperCase_fixes.
  - apply variants_collapse.
  - intros s t. apply one_key_variants.
  - apply one_key_variants; reflexivity.
  - apply one_key_variants; reflexivity.
  - repeat split; reflexivity.
Qed.

(** ** Facts about the match loop *)

Lemma truthy_found (o : option string) :
  truthy o = true -> exists s, o = Some s /\ s <> "" /\ found o = Some s.
Proof.
  unfold found. destruct o as [s |]; simpl; [| discriminate].
  intros H. exists s. rewrite H. repeat split.
  intros ->. discriminate.
Qed.

Lemma not_truthy_found (o : option string) :
  truthy o = false -> found o = None.
Proof. unfold found. intros ->. reflexivity. Qed.

Lemma size_zero_lookup (m : gmap string string) (k : string) :
  (size m =? 0)%nat = true -> m !! k = None.
Proof.
  intros H%Nat.eqb_eq. apply map_size_empty_iff in H. subst m.
  apply lookup_empty.
Qed.

(** Case analysis on every test of a loop body, innermost scrutinee
    first. *)
Ltac js_cases :=
  repeat match goal with
    | |- context [match ?x with _ => _ end] =>
        lazymatch x with
        | context [match _ with _ => _ end] => fail
        | _ => destruct x eqn:?; cbn
        end
    end.

Ltac unfold_match_row :=
  unfold Current.match_row, Legacy.match_row, Current.miss_or_push,
    Legacy.miss_or_push, tiered_outcome, tier_normalized, target_of,
    String_, found, or_empty, truthy, record_outcome.

Section MatchFacts.
Context {Qty : Type}.
Variable exact : gmap string string.
Variable normalized : gmap string (list string).
Variable skuMap : gmap string string.
Variable mode : string.

Local Abbreviation match_row :=
  (Current.match_row (Qty:=Qty) exact normalized skuMap mode).
Local Abbreviation match_loop :=
  (Current.match_loop (Qty:=Qty) exact normalized skuMap mode).
Local Abbreviation outcome := (tiered_outcome exact normalized skuMap mode).

(** The loop body files the row under the outcome of the tiers, and
    bumps the counters: a row that the manual map resolves bumps both
    [matchedMapped] and [matchedExact]. *)
Lemma match_row_spec (st : MatchState Qty) (feedSku : string) (q : Qty) :
  let st' := match_row st (feedSku, q) in
  let o := outcome feedSku in
  (candidates st', misses st', ambiguous st') = record_outcome o q st
  /\ matchedExact st'
     = (matchedExact st
        + (if is_tier TierExact o || is_tier TierMapped o then 1 else 0))%nat
  /\ matchedMapped st'
     = (matchedMapped st + (if is_tier TierMapped o then 1 else 0))%nat
  /\ (matchedNormalized st + (if is_tier TierNormalized o then 1 else 0)
      <= matchedNormalized st')%nat.
Proof.
  unfold_match_row.
  destruct (size skuMap =? 0)%nat eqn:Hsz;
    [rewrite (size_zero_lookup _ feedSku Hsz) |]; cbn.
  all: js_cases; simplify_eq/=; try congruence; repeat split; lia.
Qed.

Lemma match_row_outcome (st : MatchState Qty) (feedSku : string) (q : Qty) :
  let st' := match_row st (feedSku, q) in
  (candidates st', misses st', ambiguous st')
  = record_outcome (outcome feedSku) q st.
Proof. apply match_row_spec. Qed.

Lemma match_row_counters (st : MatchState Qty) (feedSku : string) (q : Qty) :
  let st' := match_row st (feedSku, q) in
  let o := outcome feedSku in
  matchedExact st'
  = (matchedExact st
     + (if is_tier TierExact o || is_tier TierMapped o then 1 else 0))%nat
  /\ matchedMapped st'
     = (matchedMapped st + (if is_tier TierMapped o then 1 else 0))%nat.
Proof.
  destruct (match_row_spec st feedSku q) as (_ & H1 & H2 & _). auto.
Qed.

Lemma match_row_one_bucket (st : MatchState Qty) (row : string * Qty) :
  let st' := match_row st row in
  (exists x, candidates st' = candidates st ++ [x]
             /\ misses st' = misses st /\ ambiguous st' = ambiguous st)
  \/ (exists x, candidates st' = candidates st
                /\ misses st' = misses st
                /\ ambiguous st' = ambiguous st ++ [x])
  \/ (exists x, candidates st' = candidates st
                /\ misses st' = misses st ++ [x]
                /\ ambiguous st' = ambiguous st).
Proof.
  destruct row as [feedSku q]. intros st'.
  pose proof (match_row_outcome st feedSku q) as H. cbv zeta in H.
  fold st' in H. destruct (outcome feedSku); simpl in H; simplify_eq.
  - left. eauto.
  - right. left. eauto.
  - right. right. eauto.
Qed.

Lemma match_row_sorted_rows (st : MatchState Qty) (row : string * Qty) :
  sorted_rows (match_row st row) = S (sorted_rows st).
Proof.
  unfold sorted_rows.
  destruct (match_row_one_bucket st row)
    as [(x & -> & -> & ->) | [(x & -> & -> & ->) | (x & -> & -> & ->)]];
    rewrite length_app; simpl; lia.
Qed.

Lemma fold_match_row_sorted_rows (feed : list (string * Qty)) :
  forall st, sorted_rows (fold_left match_row feed st)
             = (sorted_rows st + length feed)%nat.
Proof.
  induction feed as [| row feed IH]; intros st; simpl; [lia |].
  rewrite IH, match_row_sorted_rows. lia.
Qed.

Lemma fold_match_row_counters (feed : list (string * Qty)) :
  forall st,
    let st' := fold_left match_row feed st in
    matchedExact st'
    = (matchedExact st + matched_at exact normalized skuMap mode TierExact feed
       + matched_at exact normalized skuMap mode TierMapped feed)%nat
    /\ matchedMapped st'
       = (matchedMapped st
          + matched_at exact normalized skuMap mode TierMapped feed)%nat.
Proof.
  unfold matched_at.
  induction feed as [| [f q] feed IH]; intros st; cbv zeta;
    cbn [fold_left List.filter length fst]; [lia |].
  cbv zeta in IH. destruct (IH (match_row st (f, q))) as [-> ->].
  destruct (match_row_counters st f q) as (-> & ->).
  destruct (outcome f) as [[] ? ? | |]; simpl; lia.
Qed.
End MatchFacts.
(** ** The claims about the match loop *)

(** C8. For every feed table, catalog index, manual map and mode, the match
    loop files each feed row in exactly one of the three lists (matched
    candidates, ambiguous, misses), so the three lengths add up to the
    number of feed rows; an ambiguous row adds no candidate and no miss. *)
Theorem every_row_in_exactly_one_bucket {Qty : Type}
    (exact : gmap string string) (normalized : gmap string (list string))
    (skuMap : gmap string string) (mode : string)
    (feed : list (string * Qty)) :
  (forall (st : MatchState Qty) (row : string * Qty),
      let st' := Current.match_row exact normalized skuMap mode st row in
      (exists x, candidates st' = candidates st ++ [x]
                 /\ misses st' = misses st /\ ambiguous st' = ambiguous st)
      \/ (exists x, candidates st' = candidates st
                    /\ misses st' = misses st
                    /\ ambiguous st' = ambiguous st ++ [x])
      \/ (exists x, candidates st' = candidates st
                    /\ misses st' = misses st ++ [x]
                    /\ ambiguous st' = ambiguous st))
  /\ (let m := Current.match_loop exact normalized skuMap mode feed in
      length (candidates m) + length (ambiguous m) + length (misses m)
      = length feed)%nat.
Proof.
  split.
  - apply match_row_one_bucket.
  - cbv zeta. unfold Current.match_loop.
    pose proof (fold_match_row_sorted_rows exact normalized skuMap mode feed
                  match_init) as H.
    unfold sorted_rows in H. simpl in H. exact H.
Qed.

(** C10. For every feed table, catalog index, manual map and mode, the
    match loop of src/recmar-sync.mjs and the match loop of
    src/unnamed/part_000 compute the same candidate list, the same misses
    list and the same ambiguous list, element for element and in the same
    order. *)
Theorem match_loops_agree {Qty : Type}
    (exact : gmap string string) (normalized : gmap string (list string))
    (skuMap : gmap string string) (mode : string)
    (feed : list (string * Qty)) :
  let old := Legacy.match_loop exact normalized skuMap mode feed in
  let new := Current.match_loop exact normalized skuMap mode feed in
  candidates old = candidates new
  /\ misses old = misses new
  /\ ambiguous old = ambiguous new.
Proof.
  cbv zeta. unfold Legacy.match_loop, Current.match_loop.
  generalize (@match_init Qty) as st.
  induction feed as [| row feed IH]; intros st.
  - repeat split.
  - cbn [fold_left].
    replace (Legacy.match_row exact normalized skuMap mode st row)
      with (Current.match_row exact normalized skuMap mode st row).
    + apply IH.
    + destruct row as [feedSku q].
      unfold Current.match_row, Legacy.match_row, Current.miss_or_push,
        Legacy.miss_or_push, String_.
      reflexivity.
Qed.

(** C7. For every feed row the outcome is that of the tiers tried in the
    order exact, mapped, normalized, the first success winning; and when
    tier 1 fails and the manual map has a target for the feed SKU, the
    mapped SKU takes the place of the feed SKU from there on: tier 2 looks
    it up, tier 3 normalizes it, and a matched row carries it. *)
Theorem tiers_in_order_mapped_sku_carried {Qty : Type}
    (exact : gmap string string) (normalized : gmap string (list string))
    (skuMap : gmap string string) (mode : string)
    (st : MatchState Qty) (feedSku : string) (q : Qty) :
  let st' := Current.match_row exact normalized skuMap mode st (feedSku, q) in
  (candidates st', misses st', ambiguous st')
  = record_outcome (tiered_outcome exact normalized skuMap mode feedSku) q st
  /\ (forall id, found (exact !! feedSku) = Some id ->
        candidates st' = candidates st ++ [mkCandidate feedSku id q])
  /\ (forall mapped,
        found (exact !! feedSku) = None ->
        found (skuMap !! feedSku) = Some mapped ->
        (forall id, found (exact !! mapped) = Some id ->
           candidates st' = candidates st ++ [mkCandidate mapped id q])
        /\ (found (exact !! mapped) = None -> mode <> "exact" ->
            (candidates st', misses st', ambiguous st')
            = record_outcome (tier_normalized normalized skuMap feedSku mapped)
                q st)
        /\ (forall x, candidates st' = candidates st ++ [x] ->
            sku x = mapped)).
Proof.
  intros st'.
  pose proof (match_row_outcome exact normalized skuMap mode st feedSku q)
    as Hout.
  cbv zeta in Hout. fold st' in Hout.
  split; [exact Hout |].
  unfold tiered_outcome in Hout. split.
  - intros id Hid. rewrite Hid in Hout. simpl in Hout. congruence.
  - intros mapped He Hm. rewrite He in Hout.
    assert (Ht : target_of skuMap feedSku = mapped)
      by (unfold target_of; rewrite Hm; reflexivity).
    rewrite Hm, Ht in Hout. simpl in Hout.
    repeat split.
    + intros id Hid. rewrite Hid in Hout. simpl in Hout. congruence.
    + intros Hnone Hmode. rewrite Hnone in Hout.
      destruct (String.eqb_spec mode "exact") as [-> | _]; [congruence |].
      exact Hout.
    + intros x Hx.
      destruct (found (exact !! mapped)) as [id |].
      * simpl in Hout. rewrite Hx in Hout.
        injection Hout as Hc%app_inv_head _ _. by simplify_eq.
      * destruct (String.eqb mode "exact").
        -- simpl in Hout. rewrite Hx in Hout. injection Hout as Hc _ _.
           apply (f_equal length) in Hc. rewrite length_app in Hc.
           simpl in Hc. lia.
        -- unfold tier_normalized in Hout. rewrite Hx in Hout.
           destruct (default [] (normalized !! normalizeSkuText mapped))
             as [| id [| id' l]]; simpl in Hout;
             [| destruct (found (Some id)); simpl in Hout |].
           all: injection Hout as Hc _ _.
           all: try (apply app_inv_head in Hc; by simplify_eq).
           all: apply (f_equal length) in Hc; rewrite length_app in Hc;
             simpl in Hc; lia.
Qed.

(** What the counters of the summary hold, for every run: [matched_mapped]
    counts the rows the manual map resolves, and [matched_exact] counts
    those rows too, on top of the rows resolved at tier 1. *)
Lemma matched_exact_counts_mapped_rows {Qty : Type}
    (exact : gmap string string) (normalized : gmap string (list string))
    (skuMap : gmap string string) (mode : string)
    (feed : list (string * Qty)) :
  let m := Current.match_loop exact normalized skuMap mode feed in
  matchedExact m
  = (matched_at exact normalized skuMap mode TierExact feed
     + matched_at exact normalized skuMap mode TierMapped feed)%nat
  /\ matchedMapped m = matched_at exact normalized skuMap mode TierMapped feed.
Proof.
  cbv zeta. unfold Current.match_loop.
  pose proof (fold_match_row_counters exact normalized skuMap mode feed
                match_init) as [H1 H2].
  rewrite H1, H2. simpl. split; lia.
Qed.

(** C2. On the feed of the one row OLD, which the manual map resolves to
    NEW, the summary reports [matched_exact = 1] and [matched_mapped = 1]
    for a single matched row: no row matched at tier 1, and the three
    counters add up to 2. *)
Theorem mapped_row_counted_as_exact_too :
  let '(s, m, _) :=
    Current.main Examples.exact2 Examples.normalized2 Examples.skuMap2
      "normalize" true None Examples.gql_fine Examples.connect_fine
      Examples.feed2 in
  matched_exact s = 1%nat /\ matched_mapped s = 1%nat
  /\ matched_normalized s = 0%nat
  /\ length (candidates m) = 1%nat
  /\ matched_at Examples.exact2 Examples.normalized2 Examples.skuMap2
       "normalize" TierExact Examples.feed2 = 0%nat
  /\ matched_at Examples.exact2 Examples.normalized2 Examples.skuMap2
       "normalize" TierMapped Examples.feed2 = 1%nat.
Proof. vm_compute. repeat split; reflexivity. Qed.

(** A run of the tiers on the manual-map feeds: tier 2 resolves OLD to NEW,
    and tier 3 normalizes the target "new" of the manual map, not OLD. *)
Lemma tiers_in_order_mapped_sku_carried_witness :
  candidates (Current.match_row Examples.exact2 Examples.normalized2
                Examples.skuMap2 "normalize" match_init ("OLD", 3%Z))
  = [mkCandidate "NEW" "201" 3%Z]
  /\ candidates (Current.match_row Examples.exact2 Examples.normalized2
                   Examples.skuMap3 "normalize" match_init ("OLD", 3%Z))
     = [mkCandidate "new" "201" 3%Z].
Proof.
  split.
  - apply (proj1
             (proj2 (proj2 (tiers_in_order_mapped_sku_carried
                              Examples.exact2 Examples.normalized2
                              Examples.skuMap2 "normalize" match_init
                              "OLD" 3%Z))
                "NEW" eq_refl eq_refl)
             "201" eq_refl).
  - pose proof (proj1 (proj2
             (proj2 (proj2 (tiers_in_order_mapped_sku_carried
                              Examples.exact2 Examples.normalized2
                              Examples.skuMap3 "normalize" match_init
                              "OLD" 3%Z))
                "new" eq_refl eq_refl))
             eq_refl) as H.
    assert (Hmode : "normalize" <> "exact") by discriminate.
    exact (f_equal (fun t => fst (fst t)) (H Hmode)).
Defined.

(** ** Facts about the dedupe step *)

Section MapSet.
Context {V : Type}.
Implicit Types (m : list (string * V)) (k : string) (v : V).

Lemma map_set_keys k v m :
  map fst (map_set k v m)
  = if bool_decide (k ∈ map fst m) then map fst m else map fst m ++ [k].
Proof.
  induction m as [| [k' v'] m IH]; simpl; [reflexivity |].
  destruct (String.eqb_spec k' k) as [-> | Hne]; simpl.
  - rewrite bool_decide_eq_true_2 by left. reflexivity.
  - rewrite IH. case_bool_decide as Hin.
    + rewrite bool_decide_eq_true_2 by (right; exact Hin). reflexivity.
    + rewrite bool_decide_eq_false_2; [reflexivity |].
      intros [-> | ?]%elem_of_cons; [congruence | contradiction].
Qed.

Lemma map_set_NoDup k v m :
  NoDup (map fst m) -> NoDup (map fst (map_set k v m)).
Proof.
  intros Hnd. rewrite map_set_keys. case_bool_decide as Hin; [exact Hnd |].
  apply NoDup_app. repeat split; [exact Hnd | | apply NoDup_singleton].
  intros x Hx ->%list_elem_of_singleton. contradiction.
Qed.

Lemma elem_of_map_set k v m k' v' :
  NoDup (map fst m) ->
  (k', v') ∈ map_set k v m <->
  (k' = k /\ v' = v) \/ (k' <> k /\ (k', v') ∈ m).
Proof.
  induction m as [| [k0 v0] m IH]; simpl; intros Hnd.
  - rewrite list_elem_of_singleton. split.
    + intros [= -> ->]. left. auto.
    + intros [[-> ->] | [_ H]]; [reflexivity | inversion H].
  - apply NoDup_cons in Hnd as [Hk0 Hnd].
    destruct (String.eqb_spec k0 k) as [-> | Hne].
    + rewrite !elem_of_cons. split.
      * intros [[= -> ->] | Hin]; [left; auto |].
        right. split; [| right; exact Hin].
        intros ->. apply Hk0. apply list_elem_of_fmap. exists (k, v'). auto.
      * intros [[-> ->] | [Hne [[= -> ->] | Hin]]]; auto. congruence.
    + rewrite !elem_of_cons, (IH Hnd). split.
      * intros [[= -> ->] | [[-> ->] | [Hne' Hin]]]; auto.
      * intros [[-> ->] | [Hne' [[= -> ->] | Hin]]]; auto.
Qed.
End MapSet.

Section DedupeFacts.
Context {Qty : Type}.
Implicit Types (l : list (Candidate Qty)) (x w : Candidate Qty).

Lemma byInv_snoc l x :
  Current.byInv (l ++ [x])
  = map_set (inventory_item_id x) x (Current.byInv l).
Proof. unfold Current.byInv. rewrite fold_left_app. reflexivity. Qed.

Lemma last_row_of_snoc id l x :
  last_row_of id (l ++ [x])
  = if String.eqb (inventory_item_id x) id then Some x
    else last_row_of id l.
Proof. unfold last_row_of. rewrite rev_app_distr. reflexivity. Qed.

Lemma last_row_of_app id l1 l2 :
  last_row_of id (l1 ++ l2)
  = match last_row_of id l2 with
    | Some x => Some x
    | None => last_row_of id l1
    end.
Proof.
  induction l2 as [| x l2 IH] using rev_ind.
  - rewrite app_nil_r. reflexivity.
  - rewrite app_assoc, !last_row_of_snoc.
    destruct (String.eqb (inventory_item_id x) id); [reflexivity | exact IH].
Qed.

Lemma last_row_of_id id l x :
  last_row_of id l = Some x -> inventory_item_id x = id /\ x ∈ l.
Proof.
  unfold last_row_of. intros [Hin Heq]%find_some.
  apply String.eqb_eq in Heq. split; [exact Heq |].
  apply list_elem_of_In, in_rev, Hin.
Qed.

Lemma last_row_of_None id l :
  last_row_of id l = None <-> id ∉ item_ids l.
Proof.
  unfold item_ids. induction l as [| x l IH] using rev_ind.
  - split; [intros _ H; inversion H | reflexivity].
  - rewrite last_row_of_snoc, map_app, elem_of_app. simpl.
    rewrite list_elem_of_singleton.
    destruct (String.eqb_spec (inventory_item_id x) id) as [-> | Hne].
    + split; [discriminate | tauto].
    + rewrite IH. split; [intros ? [? | ?]; auto | tauto].
Qed.

(** The invariant of the dedupe loop: the keys of [byInv] are the item
    ids seen so far, each once, and each key holds the last row with
    that id. *)
Lemma byInv_invariant l :
  NoDup (map fst (Current.byInv l))
  /\ (forall k v, (k, v) ∈ Current.byInv l <-> last_row_of k l = Some v).
Proof.
  induction l as [| x l [IHnd IH]] using rev_ind.
  - split; [constructor |]. intros k v. split; [intros H; inversion H |].
    discriminate.
  - rewrite byInv_snoc. split; [apply map_set_NoDup, IHnd |].
    intros k v. rewrite (elem_of_map_set _ _ _ _ _ IHnd), last_row_of_snoc.
    destruct (String.eqb_spec (inventory_item_id x) k) as [-> | Hne].
    + split; [intros [[_ ->] | [? _]]; [reflexivity | congruence] |].
      intros [= ->]. left. auto.
    + rewrite IH. split; [intros [[-> _] | [_ ?]]; [congruence | auto] |].
      intros H. right. auto.
Qed.

Lemma elem_of_dedupe l w :
  w ∈ Current.dedupe l <-> last_row_of (inventory_item_id w) l = Some w.
Proof.
  destruct (byInv_invariant l) as [_ Hinv]. unfold Current.dedupe. split.
  - intros ([k v] & -> & Hin)%list_elem_of_fmap. simpl.
    apply Hinv in Hin as Hlast.
    destruct (last_row_of_id _ _ _ Hlast) as [-> _]. exact Hlast.
  - intros Hlast. apply list_elem_of_fmap.
    exists (inventory_item_id w, w). split; [reflexivity |].
    apply Hinv, Hlast.
Qed.

Lemma item_ids_dedupe l :
  item_ids (Current.dedupe l) = map fst (Current.byInv l).
Proof.
  destruct (byInv_invariant l) as [_ Hinv].
  unfold item_ids, Current.dedupe. rewrite map_map.
  apply map_ext_in. intros [k v] Hin%list_elem_of_In. simpl.
  apply Hinv, last_row_of_id in Hin as [-> _]. reflexivity.
Qed.

Lemma elem_of_item_ids_dedupe l id :
  id ∈ item_ids (Current.dedupe l) <-> id ∈ item_ids l.
Proof.
  split.
  - intros (w & -> & Hw)%list_elem_of_fmap.
    apply elem_of_dedupe, last_row_of_id in Hw as [_ Hw].
    apply list_elem_of_fmap. eauto.
  - intros Hin. destruct (last_row_of id l) as [w |] eqn:Hlast.
    + destruct (last_row_of_id _ _ _ Hlast) as [<- _].
      apply list_elem_of_fmap. exists w. split; [reflexivity |].
      apply elem_of_dedupe, Hlast.
    + apply last_row_of_None in Hlast. contradiction.
Qed.

(** The dedupe step of src/unnamed/part_000: one work item per item id,
    as many work items as there are distinct item ids among the matched
    rows, and each work item is the last matched row of its id. *)
Lemma dedupe_unique_last_write_wins l :
  let work := Current.dedupe l in
  NoDup (item_ids work)
  /\ length work = length (distinct_item_ids l)
  /\ (forall w, w ∈ work <-> last_row_of (inventory_item_id w) l = Some w)
  /\ (forall pre a mid b post,
        l = pre ++ a :: mid ++ b :: post ->
        inventory_item_id a = inventory_item_id b ->
        inventory_item_id b ∉ item_ids post ->
        b ∈ work
        /\ forall w, w ∈ work ->
             inventory_item_id w = inventory_item_id b -> qty w = qty b).
Proof.
  intros work. subst work.
  assert (Hnd : NoDup (item_ids (Current.dedupe l))).
  { rewrite item_ids_dedupe. apply byInv_invariant. }
  split; [exact Hnd |]. split; [| split; [apply elem_of_dedupe |]].
  - transitivity (length (item_ids (Current.dedupe l)));
      [unfold item_ids; rewrite length_map; reflexivity |].
    apply Permutation_length, NoDup_Permutation;
      [exact Hnd | apply NoDup_remove_dups |].
    intros id. unfold distinct_item_ids.
    rewrite elem_of_remove_dups. apply elem_of_item_ids_dedupe.
  - intros pre a mid b post -> Hab Hpost.
    assert (Hlast : last_row_of (inventory_item_id b)
                      (pre ++ a :: mid ++ b :: post) = Some b).
    { apply last_row_of_None in Hpost.
      replace (pre ++ a :: mid ++ b :: post)
        with ((pre ++ a :: mid) ++ [b] ++ post)
        by (rewrite <- app_assoc; reflexivity).
      rewrite !last_row_of_app, Hpost. unfold last_row_of. simpl.
      rewrite String.eqb_refl. reflexivity. }
    split; [apply elem_of_dedupe, Hlast |].
    intros w Hw Hid. apply elem_of_dedupe in Hw. rewrite Hid in Hw.
    congruence.
Qed.
(** The work list of src/unnamed/part_000 is the deduped list when the
    full sweep is on, and its first 1500 items otherwise; either way no
    item id occurs twice in it. *)
Lemma work_of_unique_ids (FULL_SWEEP : bool) l :
  NoDup (item_ids (Current.work_of FULL_SWEEP l))
  /\ (FULL_SWEEP = true ->
      Current.work_of FULL_SWEEP l = Current.dedupe l).
Proof.
  destruct (dedupe_unique_last_write_wins l) as [Hnd _].
  unfold Current.work_of. destruct FULL_SWEEP; simpl.
  - split; [exact Hnd | reflexivity].
  - split; [| discriminate].
    unfold item_ids in *. rewrite <- firstn_map.
    eapply sublist_NoDup; [exact Hnd | apply sublist_take].
Qed.
End DedupeFacts.

(** C1. On the feed SKU1:10, sku1:7, SKU3:5 against a catalog in which both
    spellings resolve to item 101, src/recmar-sync.mjs hands the writer two
    work items for item 101, while src/unnamed/part_000 hands it the one
    work item of the later row, with quantity 7. *)
Theorem legacy_work_list_keeps_duplicate_items :
  let '(_, _, st_old) :=
    Legacy.main Examples.exact1 Examples.normalized1 ∅ "normalize" true None
      Examples.gql_fine Examples.feed1 in
  let '(_, _, st_new) :=
    Current.main Examples.exact1 Examples.normalized1 ∅ "normalize" true None
      Examples.gql_fine Examples.connect_fine Examples.feed1 in
  written_chunks (trace st_old)
  = [[mkCandidate "SKU1" "101" 10%Z; mkCandidate "sku1" "101" 7%Z]]
  /\ written_chunks (trace st_new) = [[mkCandidate "sku1" "101" 7%Z]].
Proof. vm_compute. split; reflexivity. Qed.

(** ** Facts about the chunk loop *)

Lemma BATCH_positive (gql_batch : option Z) : (1 <= BATCH gql_batch)%Z.
Proof. unfold BATCH. lia. Qed.

Lemma chunks_from_cover {A : Type} (batch : nat) (work : list A) :
  (1 <= batch)%nat ->
  forall fuel i,
    (length work - i <= fuel)%nat ->
    concat (chunks_from fuel batch i work) = skipn i work.
Proof.
  intros Hb. induction fuel as [| fuel IH]; intros i Hfuel; simpl.
  - symmetry. apply skipn_all2. lia.
  - destruct (Nat.ltb_spec i (length work)) as [Hlt | Hge]; simpl.
    + rewrite IH by lia.
      rewrite Nat.add_comm, <- skipn_skipn. apply firstn_skipn.
    + symmetry. apply skipn_all2. lia.
Qed.

(** The chunk loop visits every work item once, in order: the rounds it
    is given are enough. *)
Lemma chunks_cover {A : Type} (gql_batch : option Z) (work : list A) :
  concat (chunks (BATCH gql_batch) work) = work.
Proof.
  unfold chunks. rewrite chunks_from_cover.
  - reflexivity.
  - pose proof (BATCH_positive gql_batch). lia.
  - lia.
Qed.

Lemma chunks_nil {A : Type} (batch : Z) : chunks batch (@nil A) = [].
Proof. reflexivity. Qed.

(** ** Facts about the insertion-ordered set *)

Lemma set_has_elem_of (x : string) (s : list string) :
  set_has x s = true <-> x ∈ s.
Proof.
  unfold set_has. rewrite existsb_exists. split.
  - intros (y & Hin & ->%String.eqb_eq). apply list_elem_of_In, Hin.
  - intros Hin. exists x. split; [apply list_elem_of_In, Hin |].
    apply String.eqb_refl.
Qed.

Lemma elem_of_set_add (x y : string) (s : list string) :
  y ∈ set_add x s <-> y = x \/ y ∈ s.
Proof.
  unfold set_add. destruct (set_has x s) eqn:Hhas.
  - apply set_has_elem_of in Hhas. split; [auto | intros [-> | ?]; auto].
  - rewrite elem_of_app, list_elem_of_singleton. tauto.
Qed.

Lemma NoDup_set_add (x : string) (s : list string) :
  NoDup s -> NoDup (set_add x s).
Proof.
  intros Hnd. unfold set_add. destruct (set_has x s) eqn:Hhas; [exact Hnd |].
  apply NoDup_app. repeat split; [exact Hnd | | apply NoDup_singleton].
  intros y Hy ->%list_elem_of_singleton.
  apply set_has_elem_of in Hy. congruence.
Qed.

(** ** Facts about one round of a write loop *)

Section ChunkFacts.
Context {Qty : Type}.
Implicit Types (st : RunState Qty) (chunk : list (Candidate Qty)).

Lemma note_not_stocked_spec chunk st e :
  let st' := Current.note_not_stocked chunk st e in
  updated st' = updated st /\ errors st' = errors st
  /\ changedRows st' = changedRows st /\ trace st' = trace st
  /\ (NoDup (notStockedSet st) -> NoDup (notStockedSet st'))
  /\ (forall id, id ∈ notStockedSet st'
                 <-> id ∈ notStockedSet st \/ flags chunk e id).
Proof.
  unfold Current.note_not_stocked, flags.
  destruct (not_stocked_message (message e)) eqn:Hmsg; simpl.
  2: { repeat split; auto. intros [? | (? & ? & ? & _)]; [auto | congruence]. }
  destruct (Z.leb_spec 0 (default (-1)%Z (field2 e))) as [Hlo | Hlo]; simpl.
  2: { repeat split; auto. intros [? | (idx & ? & _ & Hf & ? & _)]; [auto |].
       rewrite Hf in Hlo. simpl in Hlo. lia. }
  destruct (Z.ltb_spec (default (-1)%Z (field2 e)) (Z.of_nat (length chunk)))
    as [Hhi | Hhi]; simpl.
  2: { repeat split; auto. intros [? | (idx & ? & _ & Hf & ? & _)]; [auto |].
       rewrite Hf in Hhi. simpl in Hhi. lia. }
  destruct (field2 e) as [idx |] eqn:Hf; simpl in *; [| lia].
  destruct (nth_error chunk (Z.to_nat idx)) as [x |] eqn:Hx; simpl.
  - repeat split; auto using NoDup_set_add.
    + intros [-> | ?]%elem_of_set_add; [right | left; assumption].
      exists idx, x. repeat split; auto; lia.
    + intros [? | (idx' & x' & _ & [= <-] & _ & Hx' & <-)];
        apply elem_of_set_add; [right; assumption | left].
      congruence.
  - apply nth_error_None in Hx. lia.
Qed.

Lemma fold_note_not_stocked_spec chunk (ue : list UserError) :
  forall st,
    let st' := fold_left (Current.note_not_stocked chunk) ue st in
    updated st' = updated st /\ errors st' = errors st
    /\ changedRows st' = changedRows st /\ trace st' = trace st
    /\ (NoDup (notStockedSet st) -> NoDup (notStockedSet st'))
    /\ (forall id, id ∈ notStockedSet st'
                   <-> id ∈ notStockedSet st
                       \/ exists e, e ∈ ue /\ flags chunk e id).
Proof.
  induction ue as [| e ue IH]; intros st; cbv zeta; cbn [fold_left].
  - repeat split; auto. intros [? | (e & He & _)]; [auto | inversion He].
  - specialize (IH (Current.note_not_stocked chunk st e)). cbv zeta in IH.
    destruct IH as (-> & -> & -> & -> & Hnd & Hin).
    destruct (note_not_stocked_spec chunk st e)
      as (-> & -> & -> & -> & Hnd1 & Hin1).
    repeat split; auto.
    + intros [[? | ?]%Hin1 | (e' & He' & Hfl)]%Hin; [auto | |].
      * right. exists e. split; [left | assumption].
      * right. exists e'. split; [right |]; assumption.
    + intros [? | (e' & [-> | He']%elem_of_cons & Hfl)]; apply Hin.
      * left. apply Hin1. auto.
      * left. apply Hin1. auto.
      * right. eauto.
Qed.
End ChunkFacts.

Section WriteFacts.
Context {Qty : Type}.
Variable gql : nat -> list (Candidate Qty) -> GqlResult.
Implicit Types (st : RunState Qty) (chunk : list (Candidate Qty)).

Lemma gql_calls_snoc (t : list (Event Qty)) chunk :
  gql_calls (t ++ [EvSetQuantities chunk]) = S (gql_calls t).
Proof.
  unfold gql_calls. rewrite List.filter_app, length_app. simpl. lia.
Qed.

Lemma add_errors_if_any (ue : list UserError) st :
  errors (if (0 <? length ue)%nat
          then add_errors (Z.of_nat (length ue)) st else st)
  = (errors st + Z.of_nat (length ue))%Z.
Proof. destruct ue; simpl; lia. Qed.

Lemma legacy_write_chunk_spec st chunk :
  let st' := Legacy.write_chunk gql st chunk in
  trace st' = trace st ++ [EvSetQuantities chunk]
  /\ notStockedSet st' = notStockedSet st
  /\ match gql (gql_calls (trace st)) chunk with
     | GqlData ue => credited st st' chunk ue
     | GqlThrows => charged st st' chunk
     end.
Proof.
  unfold Legacy.write_chunk, credited, charged.
  destruct (gql (gql_calls (trace st)) chunk) as [| ue]; simpl.
  - repeat split.
  - destruct ue; simpl; repeat split; lia.
Qed.

Lemma retry_chunk_spec st chunk :
  let st' := Current.retry_chunk gql st chunk in
  trace st' = trace st ++ [EvSetQuantities chunk]
  /\ notStockedSet st' = notStockedSet st
  /\ match gql (gql_calls (trace st)) chunk with
     | GqlData ue => credited st st' chunk ue
     | GqlThrows => charged st st' chunk
     end.
Proof.
  unfold Current.retry_chunk, credited, charged.
  destruct (gql (gql_calls (trace st)) chunk) as [| ue]; simpl.
  - repeat split.
  - destruct ue; simpl; repeat split; lia.
Qed.

Lemma write_chunk_spec st chunk :
  let st' := Current.write_chunk gql st chunk in
  trace st' = trace st ++ [EvSetQuantities chunk]
  /\ (NoDup (notStockedSet st) -> NoDup (notStockedSet st'))
  /\ match gql (gql_calls (trace st)) chunk with
     | GqlData ue =>
         credited st st' chunk ue
         /\ forall id, id ∈ notStockedSet st'
                       <-> id ∈ notStockedSet st
                           \/ exists e, e ∈ ue /\ flags chunk e id
     | GqlThrows =>
         charged st st' chunk /\ notStockedSet st' = notStockedSet st
     end.
Proof.
  unfold Current.write_chunk, credited, charged.
  destruct (gql (gql_calls (trace st)) chunk) as [| ue]; simpl.
  - repeat split; auto.
  - pose proof (fold_note_not_stocked_spec chunk ue
                  (emit (EvSetQuantities chunk) st)) as H.
    cbv zeta in H. destruct H as (Hu & He & Hc & Ht & Hnd & Hin).
    destruct ue as [| e ue]; [simpl; repeat split; auto; try lia |].
    + intros [? | (e & He' & _)]; [assumption | inversion He'].
    + cbn [Nat.ltb Nat.leb length]. simpl in *.
      rewrite Hu, He, Hc, Ht. repeat split; auto; try lia; apply Hin.
Qed.

Lemma fold_write_chunk_spec (cs : list (list (Candidate Qty))) :
  forall st,
    let st' := fold_left (Current.write_chunk gql) cs st in
    trace st' = trace st ++ map EvSetQuantities cs
    /\ (NoDup (notStockedSet st) -> NoDup (notStockedSet st'))
    /\ (forall id, id ∈ notStockedSet st'
                   <-> id ∈ notStockedSet st
                       \/ flagged_in gql (gql_calls (trace st)) cs id).
Proof.
  induction cs as [| c cs IH]; intros st; cbv zeta; cbn [fold_left].
  - rewrite app_nil_r. repeat split; auto.
    intros [? | (k & ? & ? & ? & Hk & _)]; [assumption |].
    destruct k; discriminate.
  - specialize (IH (Current.write_chunk gql st c)). cbv zeta in IH.
    destruct IH as (-> & Hnd & Hin).
    destruct (write_chunk_spec st c) as (Ht & Hnd1 & Hc).
    rewrite Ht, gql_calls_snoc in *. rewrite <- app_assoc.
    split; [reflexivity |]. split; [auto |].
    intros id. rewrite Hin. unfold flagged_in. split.
    + intros [Hid | (k & chunk & ue & e & Hk & Hg & He & Hfl)].
      * destruct (gql (gql_calls (trace st)) c) as [| ue] eqn:Hg.
        -- destruct Hc as [_ <-]. auto.
        -- destruct Hc as [_ Hc]. apply Hc in Hid as [? | (e & He & Hfl)];
             [auto |].
           right. exists 0%nat, c, ue, e. rewrite Nat.add_0_r. auto.
      * right. exists (S k), chunk, ue, e.
        rewrite Nat.add_succ_r. auto.
    + intros [Hid | (k & chunk & ue & e & Hk & Hg & He & Hfl)].
      * left. destruct (gql (gql_calls (trace st)) c) as [| ue].
        -- destruct Hc as [_ ->]. assumption.
        -- apply Hc. auto.
      * destruct k as [| k]; simpl in Hk.
        -- injection Hk as ->. rewrite Nat.add_0_r in Hg. rewrite Hg in Hc.
           left. apply Hc. eauto.
        -- right. exists k, chunk, ue, e. rewrite Nat.add_succ_r in Hg.
           auto.
Qed.

Lemma fold_retry_chunk_spec (cs : list (list (Candidate Qty))) :
  forall st,
    let st' := fold_left (Current.retry_chunk gql) cs st in
    trace st' = trace st ++ map EvSetQuantities cs
    /\ notStockedSet st' = notStockedSet st.
Proof.
  induction cs as [| c cs IH]; intros st; cbv zeta; cbn [fold_left].
  - rewrite app_nil_r. auto.
  - specialize (IH (Current.retry_chunk gql st c)). cbv zeta in IH.
    destruct IH as (-> & ->).
    destruct (retry_chunk_spec st c) as (-> & -> & _).
    rewrite <- app_assoc. auto.
Qed.

Lemma fold_emit_spec (f : string -> Event Qty) (ids : list string) :
  forall st,
    let st' := fold_left (fun st id => emit (f id) st) ids st in
    trace st' = trace st ++ map f ids
    /\ notStockedSet st' = notStockedSet st.
Proof.
  induction ids as [| id ids IH]; intros st; cbv zeta; cbn [fold_left].
  - simpl. rewrite app_nil_r. auto.
  - destruct (IH (emit (f id) st)) as [-> ->].
    simpl. rewrite <- app_assoc. auto.
Qed.

Lemma connect_all_spec (fetch_connect : string -> ConnectResponse) st :
  let st' := Current.connect_all fetch_connect st in
  trace st'
  = trace st
    ++ map (fun id => EvConnect id (Current.connectInventory fetch_connect id))
         (notStockedSet st)
  /\ notStockedSet st' = notStockedSet st.
Proof.
  unfold Current.connect_all.
  apply (fold_emit_spec
           (fun id => EvConnect id
                        (Current.connectInventory fetch_connect id))).
Qed.
End WriteFacts.

(** ** The claims about the write passes *)

(** C3. When the first write reports the one work item as not stocked and
    the connect call for it fails with status 500, the retry write still
    holds that work item. *)
Theorem retry_holds_item_whose_connect_failed :
  Current.connectInventory Examples.connect_refused "300" = false
  /\ trace (Current.write_and_recover None Examples.gql_not_stocked_once
              Examples.connect_refused Examples.one_item)
     = [EvSetQuantities Examples.one_item;
        EvConnect "300" false;
        EvSetQuantities Examples.one_item].
Proof. vm_compute. split; reflexivity. Qed.

(** C4. On a chunk of five rows whose write returns one user error, at row
    2, each write loop records rows 0, 1, 2 and 3 as changed; the rows
    that no error points at are rows 0, 1, 3 and 4. *)
Theorem changed_rows_are_the_first_rows :
  let first_four :=
    map (fun x => mkChangedRow (sku x) (inventory_item_id x) (qty x))
      (map Examples.item [0; 1; 2; 3]%nat) in
  changedRows (Current.write_chunk Examples.gql_error_at_row_2 run_init
                 Examples.five_items) = first_four
  /\ changedRows (Current.retry_chunk Examples.gql_error_at_row_2 run_init
                    Examples.five_items) = first_four
  /\ changedRows (Legacy.write_chunk Examples.gql_error_at_row_2 run_init
                    Examples.five_items) = first_four
  /\ rows_without_error Examples.five_items Examples.error_at_row_2
     = map Examples.item [0; 1; 3; 4]%nat.
Proof. vm_compute. repeat split; reflexivity. Qed.

(** The changed rows of a round whose call returns data, in general: the
    first [max 0 (n - k)] rows of the chunk, whatever rows the errors
    point at. *)
Lemma changed_rows_of_a_round {Qty : Type}
    (gql : nat -> list (Candidate Qty) -> GqlResult)
    (st : RunState Qty) (chunk : list (Candidate Qty)) (ue : list UserError) :
  gql (gql_calls (trace st)) chunk = GqlData ue ->
  Forall
    (fun st' =>
       changedRows st'
       = changedRows st
         ++ map (fun x => mkChangedRow (sku x) (inventory_item_id x) (qty x))
              (firstn (Z.to_nat (count_ok chunk ue)) chunk))
    [Legacy.write_chunk gql st chunk;
     Current.write_chunk gql st chunk;
     Current.retry_chunk gql st chunk].
Proof.
  intros Hg.
  destruct (legacy_write_chunk_spec gql st chunk) as (_ & _ & H1).
  destruct (write_chunk_spec gql st chunk) as (_ & _ & H2).
  destruct (retry_chunk_spec gql st chunk) as (_ & _ & H3).
  rewrite Hg in H1, H2, H3.
  repeat constructor; [apply H1 | apply H2 | apply H3].
Qed.

(** C5, the claim as stated fails: a chunk of one row whose write returns
    two user errors adds 0 to [updated], not 1 - 2. *)
Lemma more_errors_than_rows_credits_zero :
  let chunk := Examples.one_item in
  let ue := Examples.two_errors_at_row_0 in
  let st' := Current.write_chunk Examples.gql_two_errors run_init chunk in
  updated st' = 0%Z
  /\ updated st'
     <> (updated (@run_init Z)
         + (Z.of_nat (length chunk) - Z.of_nat (length ue)))%Z.
Proof. vm_compute. split; [reflexivity | discriminate]. Qed.

(** C5, amended. For every write call that returns data, over a chunk of
    [n] rows with [k] user errors, each of the three write loops adds
    [max 0 (n - k)] to [updated] and [k] to [errors]; when [k <= n] that
    is [n - k], so five rows with one error add 4 and 1. *)
Theorem chunk_credit_is_clamped {Qty : Type}
    (gql : nat -> list (Candidate Qty) -> GqlResult)
    (st : RunState Qty) (chunk : list (Candidate Qty)) (ue : list UserError) :
  gql (gql_calls (trace st)) chunk = GqlData ue ->
  let n := Z.of_nat (length chunk) in
  let k := Z.of_nat (length ue) in
  Forall
    (fun st' =>
       updated st' = (updated st + Z.max 0 (n - k))%Z
       /\ errors st' = (errors st + k)%Z
       /\ ((k <= n)%Z -> updated st' = (updated st + (n - k))%Z))
    [Legacy.write_chunk gql st chunk;
     Current.write_chunk gql st chunk;
     Current.retry_chunk gql st chunk].
Proof.
  intros Hg n k.
  destruct (legacy_write_chunk_spec gql st chunk) as (_ & _ & H1).
  destruct (write_chunk_spec gql st chunk) as (_ & _ & H2).
  destruct (retry_chunk_spec gql st chunk) as (_ & _ & H3).
  rewrite Hg in H1, H2, H3.
  destruct H1 as (U1 & E1 & _), H2 as ((U2 & E2 & _) & _),
    H3 as (U3 & E3 & _).
  unfold count_ok in *. fold n k in U1, U2, U3, E1, E2, E3.
  repeat constructor; try assumption; intros; lia.
Qed.

Lemma chunk_credit_is_clamped_witness :
  Forall
    (fun st' : RunState Z => updated st' = 4%Z /\ errors st' = 1%Z)
    [Legacy.write_chunk Examples.gql_error_at_row_2 run_init
       Examples.five_items;
     Current.write_chunk Examples.gql_error_at_row_2 run_init
       Examples.five_items;
     Current.retry_chunk Examples.gql_error_at_row_2 run_init
       Examples.five_items].
Proof.
  eapply Forall_impl.
  - apply (chunk_credit_is_clamped Examples.gql_error_at_row_2 run_init
             Examples.five_items Examples.error_at_row_2).
    reflexivity.
  - simpl. intros st' (_ & He & Hu). split; [apply Hu; lia | exact He].
Defined.

Lemma connect_calls_app {Qty : Type} (t1 t2 : list (Event Qty)) :
  connect_calls (t1 ++ t2) = connect_calls t1 ++ connect_calls t2.
Proof. apply omap_app. Qed.

Lemma connect_calls_writes {Qty : Type} (cs : list (list (Candidate Qty))) :
  connect_calls (map EvSetQuantities cs) = [].
Proof. induction cs as [| c cs IH]; [reflexivity | exact IH]. Qed.

Lemma connect_calls_connects {Qty : Type} (f : string -> bool)
    (ids : list string) :
  connect_calls (Qty:=Qty) (map (fun id => EvConnect id (f id)) ids) = ids.
Proof.
  induction ids as [| id ids IH]; [reflexivity |].
  change (id :: connect_calls (Qty:=Qty)
                  (map (fun id => EvConnect id (f id)) ids) = id :: ids).
  rewrite IH. reflexivity.
Qed.

Lemma filter_set_has_nil {Qty : Type} (work : list (Candidate Qty)) :
  List.filter (fun x => set_has (inventory_item_id x) []) work = [].
Proof. induction work as [| x work IH]; [reflexivity | exact IH]. Qed.

(** C6. In every run the items flagged by a not-stocked user error of the
    first pass are connected once each, however many errors flag them; the
    calls of the two write stages are the writes of the first pass, then
    one connect call per flagged item, then the writes of one retry pass
    over the work items of those ids, and nothing after it: an error of
    the retry pass starts no further connect call or pass. *)
Theorem recovery_connects_once_and_runs_once {Qty : Type}
    (GQL_BATCH : option Z)
    (gql : nat -> list (Candidate Qty) -> GqlResult)
    (fetch_connect : string -> ConnectResponse)
    (work : list (Candidate Qty)) :
  let noted := notStockedSet (Current.write_pass GQL_BATCH gql work run_init) in
  let st := Current.write_and_recover GQL_BATCH gql fetch_connect work in
  trace st
  = map EvSetQuantities (chunks (BATCH GQL_BATCH) work)
    ++ map (fun id => EvConnect id (Current.connectInventory fetch_connect id))
         noted
    ++ map EvSetQuantities
         (chunks (BATCH GQL_BATCH)
            (List.filter (fun x => set_has (inventory_item_id x) noted) work))
  /\ NoDup noted
  /\ (forall id, id ∈ noted
                 <-> flagged_in gql 0 (chunks (BATCH GQL_BATCH) work) id)
  /\ connect_calls (trace st) = noted
  /\ notStockedSet st = noted.
Proof.
  intros noted st.
  pose proof (fold_write_chunk_spec gql (chunks (BATCH GQL_BATCH) work)
                run_init) as H1.
  cbv zeta in H1. fold (Current.write_pass GQL_BATCH gql work run_init) in H1.
  destruct H1 as (Ht1 & Hnd & Hin). simpl in Ht1, Hnd, Hin. fold noted in Hnd, Hin.
  assert (Htrace : trace st
    = map EvSetQuantities (chunks (BATCH GQL_BATCH) work)
      ++ map (fun id => EvConnect id
                          (Current.connectInventory fetch_connect id)) noted
      ++ map EvSetQuantities
           (chunks (BATCH GQL_BATCH)
              (List.filter (fun x => set_has (inventory_item_id x) noted)
                 work))
    /\ notStockedSet st = noted).
  { subst st. unfold Current.write_and_recover, Current.recover.
    fold noted. destruct noted as [| id0 noted'] eqn:Hnoted.
    - simpl. rewrite filter_set_has_nil, chunks_nil, Ht1. simpl.
      rewrite app_nil_r. auto.
    - cbn [length Nat.ltb Nat.leb]. rewrite <- Hnoted.
      pose proof (connect_all_spec fetch_connect
                    (Current.write_pass GQL_BATCH gql work run_init))
        as [Ht2 Hs2].
      pose proof (fold_retry_chunk_spec gql
                    (chunks (BATCH GQL_BATCH)
                       (Current.retry_of work
                          (Current.connect_all fetch_connect
                             (Current.write_pass GQL_BATCH gql work run_init))))
                    (Current.connect_all fetch_connect
                       (Current.write_pass GQL_BATCH gql work run_init)))
        as [Ht3 Hs3].
      rewrite Ht3, Hs3, Ht2, Hs2, Ht1. unfold Current.retry_of.
      rewrite Hs2. fold noted. rewrite <- app_assoc, Hnoted. auto. }
  destruct Htrace as [Htrace Hset].
  split; [exact Htrace |]. split; [apply Hnd; constructor |].
  split; [| split; [| exact Hset]].
  - intros id. rewrite Hin. split; [intros [H | H]; [inversion H | exact H] |].
    auto.
  - rewrite Htrace, !connect_calls_app, !connect_calls_writes,
      connect_calls_connects.
    rewrite app_nil_r. reflexivity.
Qed.

(** ** The match loop as a whole *)

Section MatchLoopFacts.
Context {Qty : Type}.
Variable exact : gmap string string.
Variable normalized : gmap string (list string).
Variable skuMap : gmap string string.
Variable mode : string.

Lemma omap_cons_case {A B : Type} (g : A -> option B) (x : A) (l : list A) :
  omap g (x :: l)
  = match g x with Some y => y :: omap g l | None => omap g l end.
Proof. reflexivity. Qed.

Lemma fold_match_row_lists (feed : list (string * Qty)) :
  forall st : MatchState Qty,
    let st' := fold_left (Current.match_row exact normalized skuMap mode)
                 feed st in
    candidates st'
    = candidates st ++ omap (candidate_of exact normalized skuMap mode) feed
    /\ misses st'
       = misses st ++ omap (miss_of exact normalized skuMap mode) feed
    /\ ambiguous st'
       = ambiguous st
         ++ omap (ambiguous_of exact normalized skuMap mode) feed.
Proof.
  induction feed as [| [f q] feed IH]; intros st; cbv zeta;
    cbn [fold_left].
  - simpl. rewrite !app_nil_r. auto.
  - specialize (IH (Current.match_row exact normalized skuMap mode st (f, q))).
    cbv zeta in IH. destruct IH as (-> & -> & ->).
    pose proof (match_row_outcome exact normalized skuMap mode st f q) as H.
    cbv zeta in H. rewrite !omap_cons_case.
    change (candidate_of exact normalized skuMap mode (f, q))
      with (match tiered_outcome exact normalized skuMap mode f with
            | Matched _ s id => Some (mkCandidate s id q)
            | _ => None
            end).
    change (miss_of exact normalized skuMap mode (f, q))
      with (match tiered_outcome exact normalized skuMap mode f with
            | Missed f' m => Some (mkMiss f' m "not_in_shopify")
            | _ => None
            end).
    change (ambiguous_of exact normalized skuMap mode (f, q))
      with (match tiered_outcome exact normalized skuMap mode f with
            | IsAmbiguous nk n s => Some (mkAmbiguous nk n s)
            | _ => None
            end).
    destruct (tiered_outcome exact normalized skuMap mode f);
      cbn [record_outcome] in H;
      apply pair_equal_spec in H as [[-> ->]%pair_equal_spec ->];
      rewrite <- ?app_assoc; auto.
Qed.
End MatchLoopFacts.

(** X1. The match loop treats the rows one by one: each of its three lists
    is the feed, in feed order, with every row replaced by what the tiers
    give for that row alone and the rows of the other two kinds left out.
    No row changes what another row yields. *)
Theorem match_loop_is_rowwise {Qty : Type}
    (exact : gmap string string) (normalized : gmap string (list string))
    (skuMap : gmap string string) (mode : string)
    (feed : list (string * Qty)) :
  let m := Current.match_loop exact normalized skuMap mode feed in
  candidates m = omap (candidate_of exact normalized skuMap mode) feed
  /\ misses m = omap (miss_of exact normalized skuMap mode) feed
  /\ ambiguous m = omap (ambiguous_of exact normalized skuMap mode) feed.
Proof.
  apply (fold_match_row_lists exact normalized skuMap mode feed match_init).
Qed.

Lemma tiered_outcome_matched
    (exact : gmap string string) (normalized : gmap string (list string))
    (skuMap : gmap string string) (mode : string) (f : string)
    (t : Tier) (s id : string) :
  tiered_outcome exact normalized skuMap mode f = Matched t s id ->
  id <> ""
  /\ (s = f \/ skuMap !! f = Some s)
  /\ match t with
     | TierExact => s = f /\ exact !! f = Some id
     | TierMapped => skuMap !! f = Some s /\ exact !! s = Some id
     | TierNormalized =>
         mode <> "exact" /\ normalized !! normalizeSkuText s = Some [id]
     end.
Proof.
  unfold tiered_outcome, tier_normalized, target_of, found, truthy.
  intros H.
  repeat match goal with
    | H : context [match ?x with _ => _ end] |- _ =>
        lazymatch x with
        | context [match _ with _ => _ end] => fail
        | _ => destruct x eqn:?; simplify_eq/=
        end
    end.
  all: repeat match goal with
         | H : negb (String.eqb _ "") = true |- _ =>
             apply negb_true_iff, String.eqb_neq in H
         | H : String.eqb _ _ = false |- _ => apply String.eqb_neq in H
         | H : default [] ?o = _ |- _ =>
             destruct o eqn:?; simplify_eq/=
         end.
  all: repeat split; auto.
Qed.

Lemma matched_rows_come_from_the_catalog_aux {Qty : Type}
    (exact : gmap string string) (normalized : gmap string (list string))
    (skuMap : gmap string string) (mode : string)
    (feed : list (string * Qty)) (x : Candidate Qty) :
  x ∈ candidates (Current.match_loop exact normalized skuMap mode feed) ->
  inventory_item_id x <> ""
  /\ (exact !! sku x = Some (inventory_item_id x)
      \/ (mode <> "exact"
          /\ normalized !! normalizeSkuText (sku x)
             = Some [inventory_item_id x]))
  /\ exists f, (f, qty x) ∈ feed
               /\ (sku x = f \/ skuMap !! f = Some (sku x)).
Proof.
  destruct (fold_match_row_lists exact normalized skuMap mode feed
              match_init) as (H & _ & _).
  unfold Current.match_loop. rewrite H. simpl.
  intros ([f q] & Hin & Hc)%list_elem_of_omap.
  unfold candidate_of in Hc. simpl in Hc.
  destruct (tiered_outcome exact normalized skuMap mode f)
    as [t s id | |] eqn:Ho; simplify_eq. simpl.
  destruct (tiered_outcome_matched _ _ _ _ _ _ _ _ Ho) as (Hne & Hs & Ht).
  split; [exact Hne |]. split.
  - destruct t; [left | left | right]; destruct Ht; subst; auto.
  - exists f. auto.
Qed.

(** X2. Every matched row carries an item id that is not empty and that the
    catalog holds for the row's SKU: the exact map's entry for it, or the
    one id under its normalized key. The row's SKU is a feed SKU or the
    manual map's target for one, and its quantity is that feed row's. *)
Theorem matched_rows_come_from_the_catalog {Qty : Type}
    (exact : gmap string string) (normalized : gmap string (list string))
    (skuMap : gmap string string) (mode : string)
    (feed : list (string * Qty)) (x : Candidate Qty) :
  x ∈ candidates (Current.match_loop exact normalized skuMap mode feed) ->
  inventory_item_id x <> ""
  /\ (exact !! sku x = Some (inventory_item_id x)
      \/ (mode <> "exact"
          /\ normalized !! normalizeSkuText (sku x)
             = Some [inventory_item_id x]))
  /\ exists f, (f, qty x) ∈ feed
               /\ (sku x = f \/ skuMap !! f = Some (sku x)).
Proof. apply matched_rows_come_from_the_catalog_aux. Qed.

Lemma exact_mode_matchedNormalized {Qty : Type}
    (exact : gmap string string) (normalized : gmap string (list string))
    (skuMap : gmap string string) (st : MatchState Qty)
    (row : string * Qty) :
  matchedNormalized
    (Current.match_row exact normalized skuMap "exact" st row)
  = matchedNormalized st.
Proof.
  destruct row as [f q].
  unfold Current.match_row, Current.miss_or_push, String_, or_empty, truthy.
  cbn. js_cases; try reflexivity.
  all: exfalso;
    match goal with
    | H : _ && false = true |- _ => rewrite andb_false_r in H; discriminate
    end.
Qed.

(** X3. In exact mode the third tier is never tried: no row is filed as
    ambiguous, [matched_normalized] stays 0, and every matched row's item
    id is the exact map's entry for its SKU. *)
Theorem exact_mode_skips_the_normalized_tier {Qty : Type}
    (exact : gmap string string) (normalized : gmap string (list string))
    (skuMap : gmap string string) (feed : list (string * Qty)) :
  let m := Current.match_loop exact normalized skuMap "exact" feed in
  ambiguous m = []
  /\ matchedNormalized m = 0%nat
  /\ Forall (fun x => exact !! sku x = Some (inventory_item_id x))
       (candidates m).
Proof.
  cbv zeta. split; [| split].
  - destruct (fold_match_row_lists exact normalized skuMap "exact" feed
                match_init) as (_ & _ & H).
    unfold Current.match_loop. rewrite H. simpl. clear H.
    induction feed as [| [f q] feed IH]; [reflexivity |].
    rewrite omap_cons_case, IH. unfold ambiguous_of. simpl.
    unfold tiered_outcome.
    destruct (found (exact !! f)); [reflexivity |].
    destruct (found (skuMap !! f) ≫= _); reflexivity.
  - unfold Current.match_loop.
    assert (H : forall st : MatchState Qty,
               matchedNormalized
                 (fold_left (Current.match_row exact normalized skuMap "exact")
                    feed st) = matchedNormalized st).
    { induction feed as [| row feed IH]; intros st; cbn [fold_left];
        [reflexivity |].
      rewrite IH. apply exact_mode_matchedNormalized. }
    apply H.
  - apply Forall_forall. intros x Hx.
    destruct (matched_rows_come_from_the_catalog_aux exact normalized skuMap
                "exact" feed x Hx) as (_ & [H | [H _]] & _);
      [exact H | congruence].
Qed.

(** ** More about the dedupe step *)

Lemma first_occurrences_snoc (ids : list string) (x : string) :
  first_occurrences (ids ++ [x]) = set_add x (first_occurrences ids).
Proof. unfold first_occurrences. rewrite fold_left_app. reflexivity. Qed.

Lemma set_add_keys (k : string) (s : list string) :
  set_add k s = if bool_decide (k ∈ s) then s else s ++ [k].
Proof.
  unfold set_add. destruct (set_has k s) eqn:H.
  - apply set_has_elem_of in H. rewrite bool_decide_eq_true_2; auto.
  - rewrite bool_decide_eq_false_2; [reflexivity |].
    intros Hin%set_has_elem_of. congruence.
Qed.

Lemma byInv_keys {Qty : Type} (l : list (Candidate Qty)) :
  map fst (Current.byInv l) = first_occurrences (item_ids l).
Proof.
  induction l as [| x l IH] using rev_ind; [reflexivity |].
  rewrite byInv_snoc, map_set_keys. unfold item_ids in *.
  rewrite map_app. cbn [map].
  rewrite first_occurrences_snoc, set_add_keys, IH. reflexivity.
Qed.

Lemma map_set_fresh {V : Type} (k : string) (v : V) (m : list (string * V)) :
  k ∉ map fst m -> map_set k v m = m ++ [(k, v)].
Proof.
  induction m as [| [k' v'] m IH]; simpl; intros Hk; [reflexivity |].
  destruct (String.eqb_spec k' k) as [-> | Hne].
  - exfalso. apply Hk. left.
  - rewrite IH; [reflexivity |]. intros Hin. apply Hk. right. exact Hin.
Qed.

Lemma byInv_NoDup {Qty : Type} (l : list (Candidate Qty)) :
  NoDup (item_ids l) ->
  Current.byInv l = map (fun x => (inventory_item_id x, x)) l.
Proof.
  induction l as [| x l IH] using rev_ind; [reflexivity |].
  unfold item_ids. rewrite map_app. simpl.
  intros (Hnd & Hx & _)%NoDup_app.
  rewrite byInv_snoc, IH by exact Hnd.
  rewrite map_set_fresh.
  - rewrite map_app. reflexivity.
  - rewrite map_map. simpl. intros Hin. apply (Hx _ Hin). left.
Qed.

Lemma dedupe_NoDup {Qty : Type} (l : list (Candidate Qty)) :
  NoDup (item_ids l) -> Current.dedupe l = l.
Proof.
  intros Hnd. unfold Current.dedupe. rewrite byInv_NoDup by exact Hnd.
  rewrite map_map. simpl. apply map_id.
Qed.

(** X4. The dedupe step keeps, for each item id, the position of its first
    matched row and the content of its last one: the ids of the deduped
    list are the distinct ids in the order they first appear, and each
    item is the last matched row of its id. A list without repeated ids is
    returned as it is, so deduping twice changes nothing. *)
Theorem dedupe_first_position_last_row {Qty : Type}
    (l : list (Candidate Qty)) :
  item_ids (Current.dedupe l) = first_occurrences (item_ids l)
  /\ (forall w, w ∈ Current.dedupe l
                <-> last_row_of (inventory_item_id w) l = Some w)
  /\ (NoDup (item_ids l) -> Current.dedupe l = l)
  /\ Current.dedupe (Current.dedupe l) = Current.dedupe l.
Proof.
  split; [rewrite item_ids_dedupe; apply byInv_keys |].
  split; [apply elem_of_dedupe |]. split; [apply dedupe_NoDup |].
  apply dedupe_NoDup. rewrite item_ids_dedupe. apply byInv_invariant.
Qed.

(** ** More about the chunk loop *)

Lemma chunks_from_nth {A : Type} (batch : nat) (work : list A) :
  (1 <= batch)%nat ->
  forall fuel i k c,
    (length work - i <= fuel)%nat ->
    nth_error (chunks_from fuel batch i work) k = Some c
    <-> (i + k * batch < length work)%nat
        /\ c = firstn batch (skipn (i + k * batch) work).
Proof.
  intros Hb. induction fuel as [| fuel IH]; intros i k c Hfuel; simpl.
  - split; [destruct k; discriminate | intros [? _]; lia].
  - destruct (Nat.ltb_spec i (length work)) as [Hlt | Hge].
    + destruct k as [| k]; simpl.
      * rewrite Nat.add_0_r. split; [intros [= <-]; auto | intros [_ ->]; auto].
      * rewrite IH by lia.
        replace (i + batch + k * batch)%nat with (i + (batch + k * batch))%nat
          by lia.
        reflexivity.
    + split; [destruct k; discriminate | intros [? _]; lia].
Qed.

Lemma chunks_slices {A : Type}
    (gql_batch : option Z) (work : list A) :
  let B := Z.to_nat (BATCH gql_batch) in
  let cs := chunks (BATCH gql_batch) work in
  (1 <= B)%nat
  /\ concat cs = work
  /\ (forall k c,
        nth_error cs k = Some c
        <-> (k * B < length work)%nat
            /\ c = firstn B (skipn (k * B) work))
  /\ Forall (fun c => (1 <= length c <= B)%nat) cs.
Proof.
  intros B cs.
  assert (HB : (1 <= B)%nat)
    by (subst B; pose proof (BATCH_positive gql_batch); lia).
  assert (Hnth : forall k c,
             nth_error cs k = Some c
             <-> (k * B < length work)%nat
                 /\ c = firstn B (skipn (k * B) work)).
  { intros k c. subst cs. unfold chunks. fold B.
    rewrite (chunks_from_nth B work HB (length work) 0 k c) by lia.
    reflexivity. }
  split; [exact HB |]. split; [apply chunks_cover |]. split; [exact Hnth |].
  apply Forall_forall. intros c Hc%list_elem_of_In.
  apply In_nth_error in Hc as [k Hk]. apply Hnth in Hk as [Hlt ->].
  rewrite length_firstn, length_skipn. lia.
Qed.

(** X5. For every setting of GQL_BATCH (also 0, a negative number, or no
    number at all) the chunk loop ends and cuts the work list into
    consecutive slices: chunk [k] is [work.slice(k*B, k*B + B)] for each
    [k] with [k*B] below the length, there is no other chunk, no chunk is
    empty or longer than [B], and the chunks put together are the work
    list. *)
Theorem chunk_loop_slices_the_work_list {A : Type}
    (gql_batch : option Z) (work : list A) :
  let B := Z.to_nat (BATCH gql_batch) in
  let cs := chunks (BATCH gql_batch) work in
  (1 <= B)%nat
  /\ concat cs = work
  /\ (forall k c,
        nth_error cs k = Some c
        <-> (k * B < length work)%nat
            /\ c = firstn B (skipn (k * B) work))
  /\ Forall (fun c => (1 <= length c <= B)%nat) cs.
Proof. apply chunks_slices. Qed.

(** ** The write stages as a whole *)

Lemma written_chunks_app {Qty : Type} (t1 t2 : list (Event Qty)) :
  written_chunks (t1 ++ t2) = written_chunks t1 ++ written_chunks t2.
Proof. apply omap_app. Qed.

Lemma written_chunks_writes {Qty : Type} (cs : list (list (Candidate Qty))) :
  written_chunks (map EvSetQuantities cs) = cs.
Proof.
  induction cs as [| c cs IH]; [reflexivity |].
  change (c :: written_chunks (map EvSetQuantities cs) = c :: cs).
  rewrite IH. reflexivity.
Qed.

Lemma written_chunks_connects {Qty : Type} (f : string -> bool)
    (ids : list string) :
  written_chunks (Qty:=Qty) (map (fun id => EvConnect id (f id)) ids) = [].
Proof. induction ids as [| id ids IH]; [reflexivity | exact IH]. Qed.

Lemma filter_sublist {A : Type} (p : A -> bool) (l : list A) :
  List.filter p l `sublist_of` l.
Proof.
  induction l as [| x l IH]; simpl; [constructor |].
  destruct (p x); [apply sublist_skip | apply sublist_cons]; exact IH.
Qed.

Lemma chunk_sublist {A : Type} (gql_batch : option Z) (work c : list A) :
  c ∈ chunks (BATCH gql_batch) work -> c `sublist_of` work.
Proof.
  intros Hc%list_elem_of_In. apply In_nth_error in Hc as [k Hk].
  apply chunks_slices in Hk as [_ ->].
  etransitivity; [apply sublist_take | apply sublist_drop].
Qed.

Section RunFacts.
Context {Qty : Type}.
Variable GQL_BATCH : option Z.
Variable gql : nat -> list (Candidate Qty) -> GqlResult.
Variable fetch_connect : string -> ConnectResponse.

(** The calls of the two write stages, in order. *)
Lemma write_and_recover_trace (work : list (Candidate Qty)) :
  let noted :=
    notStockedSet (Current.write_pass GQL_BATCH gql work run_init) in
  trace (Current.write_and_recover GQL_BATCH gql fetch_connect work)
  = map EvSetQuantities (chunks (BATCH GQL_BATCH) work)
    ++ map (fun id => EvConnect id (Current.connectInventory fetch_connect id))
         noted
    ++ map EvSetQuantities
         (chunks (BATCH GQL_BATCH)
            (List.filter (fun x => set_has (inventory_item_id x) noted) work)).
Proof.
  intros noted.
  pose proof (fold_write_chunk_spec gql (chunks (BATCH GQL_BATCH) work)
                run_init) as H1.
  cbv zeta in H1. fold (Current.write_pass GQL_BATCH gql work run_init) in H1.
  destruct H1 as (Ht1 & _ & _). simpl in Ht1.
  unfold Current.write_and_recover, Current.recover. fold noted.
  destruct noted as [| id0 noted'] eqn:Hnoted.
  - simpl. rewrite filter_set_has_nil, chunks_nil, Ht1. simpl.
    rewrite app_nil_r. reflexivity.
  - cbn [length Nat.ltb Nat.leb]. rewrite <- Hnoted.
    pose proof (connect_all_spec fetch_connect
                  (Current.write_pass GQL_BATCH gql work run_init))
      as [Ht2 Hs2].
    pose proof (fold_retry_chunk_spec gql
                  (chunks (BATCH GQL_BATCH)
                     (Current.retry_of work
                        (Current.connect_all fetch_connect
                           (Current.write_pass GQL_BATCH gql work run_init))))
                  (Current.connect_all fetch_connect
                     (Current.write_pass GQL_BATCH gql work run_init)))
      as [Ht3 _].
    rewrite Ht3, Ht2, Ht1. unfold Current.retry_of.
    rewrite Hs2. fold noted. rewrite <- app_assoc, Hnoted. reflexivity.
Qed.
End RunFacts.

(** X6. For every setting of GQL_BATCH that is an integer or is not a
    number ([GQL_BATCH : option Z]; a setting with a fraction, such as
    2.5, is outside the model of [BATCH]), every bulk write that
    src/unnamed/part_000 sends, in the first pass and in the retry pass,
    names each inventory item at most once, holds between 1 and BATCH
    items, and holds only items of the deduped list, in their order
    there. *)
Theorem written_batches_have_no_duplicates {Qty : Type}
    (exact : gmap string string) (normalized : gmap string (list string))
    (skuMap : gmap string string) (mode : string) (FULL_SWEEP : bool)
    (GQL_BATCH : option Z)
    (gql : nat -> list (Candidate Qty) -> GqlResult)
    (fetch_connect : string -> ConnectResponse)
    (feed : list (string * Qty)) :
  let '(_, m, st) :=
    Current.main exact normalized skuMap mode FULL_SWEEP GQL_BATCH gql
      fetch_connect feed in
  Forall
    (fun c => NoDup (item_ids c)
              /\ (1 <= length c <= Z.to_nat (BATCH GQL_BATCH))%nat
              /\ c `sublist_of` Current.dedupe (candidates m))
    (written_chunks (trace st)).
Proof.
  unfold Current.main. cbv zeta.
  set (m := Current.match_loop exact normalized skuMap mode feed).
  set (work := Current.work_of FULL_SWEEP (candidates m)).
  rewrite write_and_recover_trace.
  rewrite !written_chunks_app, !written_chunks_writes,
    written_chunks_connects. simpl.
  destruct (work_of_unique_ids FULL_SWEEP (candidates m)) as [Hnd _].
  fold work in Hnd.
  assert (Hwork : work `sublist_of` Current.dedupe (candidates m)).
  { subst work. unfold Current.work_of.
    destruct FULL_SWEEP; simpl; [reflexivity | apply sublist_take]. }
  assert (Hsub : forall l c,
             l `sublist_of` work -> c ∈ chunks (BATCH GQL_BATCH) l ->
             NoDup (item_ids c)
             /\ (1 <= length c <= Z.to_nat (BATCH GQL_BATCH))%nat
             /\ c `sublist_of` Current.dedupe (candidates m)).
  { intros l c Hl Hc.
    assert (Hcw : c `sublist_of` work)
      by (etransitivity; [apply (chunk_sublist _ _ _ Hc) | exact Hl]).
    split; [| split].
    - eapply sublist_NoDup; [exact Hnd |]. unfold item_ids.
      apply (fmap_sublist inventory_item_id), Hcw.
    - destruct (chunks_slices GQL_BATCH l) as (_ & _ & _ & Hlen).
      rewrite Forall_forall in Hlen. apply Hlen, Hc.
    - etransitivity; eassumption. }
  apply Forall_app. split; apply Forall_forall; intros c Hc.
  - apply (Hsub work); [reflexivity | exact Hc].
  - eapply Hsub; [apply filter_sublist | exact Hc].
Qed.

Section AccountingFacts.
Context {Qty : Type}.
Variable gql : nat -> list (Candidate Qty) -> GqlResult.
Implicit Types (st : RunState Qty) (chunk : list (Candidate Qty)).

Lemma credited_accounted st st' chunk ue :
  credited st st' chunk ue -> accounted st st' chunk.
Proof.
  intros (Hu & He & Hc). exists (Z.to_nat (count_ok chunk ue)).
  unfold count_ok in *. repeat split; [lia | exact Hc | lia | lia].
Qed.

Lemma charged_accounted st st' chunk :
  charged st st' chunk -> accounted st st' chunk.
Proof.
  intros (Hu & He & Hc). exists 0%nat. simpl.
  rewrite app_nil_r. repeat split; [lia | exact Hc | lia | lia].
Qed.

Lemma legacy_write_chunk_accounted st chunk :
  accounted st (Legacy.write_chunk gql st chunk) chunk.
Proof.
  destruct (legacy_write_chunk_spec gql st chunk) as (_ & _ & H).
  destruct (gql (gql_calls (trace st)) chunk);
    eauto using credited_accounted, charged_accounted.
Qed.

Lemma write_chunk_accounted st chunk :
  accounted st (Current.write_chunk gql st chunk) chunk.
Proof.
  destruct (write_chunk_spec gql st chunk) as (_ & _ & H).
  destruct (gql (gql_calls (trace st)) chunk); destruct H;
    eauto using credited_accounted, charged_accounted.
Qed.

Lemma retry_chunk_accounted st chunk :
  accounted st (Current.retry_chunk gql st chunk) chunk.
Proof.
  destruct (retry_chunk_spec gql st chunk) as (_ & _ & H).
  destruct (gql (gql_calls (trace st)) chunk);
    eauto using credited_accounted, charged_accounted.
Qed.

(** A whole pass of a write loop whose rounds are accounted for. *)
Lemma fold_accounted (step : RunState Qty -> list (Candidate Qty)
                             -> RunState Qty)
    (Hstep : forall st chunk, accounted st (step st chunk) chunk)
    (cs : list (list (Candidate Qty))) :
  forall st,
    let st' := fold_left step cs st in
    exists rows,
      rows `sublist_of` concat cs
      /\ changedRows st' = changedRows st ++ map changed_row_of rows
      /\ updated st' = (updated st + Z.of_nat (length rows))%Z
      /\ (Z.of_nat (length (concat cs)) - Z.of_nat (length rows)
          <= errors st' - errors st)%Z.
Proof.
  induction cs as [| c cs IH]; intros st; cbv zeta; cbn [fold_left].
  - exists []. simpl. rewrite app_nil_r. repeat split; [constructor | lia | lia].
  - destruct (Hstep st c) as (j & Hj & Hc & Hu & He).
    destruct (IH (step st c)) as (rows & Hsub & Hc' & Hu' & He').
    exists (firstn j c ++ rows). cbn [concat].
    split; [apply sublist_app; [apply sublist_take | exact Hsub] |].
    rewrite Hc', Hc, Hu', Hu, map_app, !length_app, length_firstn.
    rewrite <- app_assoc. repeat split; lia.
Qed.
End AccountingFacts.

Lemma connect_all_fields {Qty : Type}
    (fetch_connect : string -> ConnectResponse) (st : RunState Qty) :
  let st' := Current.connect_all fetch_connect st in
  updated st' = updated st /\ errors st' = errors st
  /\ changedRows st' = changedRows st.
Proof.
  unfold Current.connect_all. generalize (notStockedSet st) as ids.
  intros ids. revert st.
  induction ids as [| id ids IH]; intros st; cbn [fold_left]; [auto |].
  destruct (IH (emit (EvConnect id
                        (Current.connectInventory fetch_connect id)) st))
    as (-> & -> & ->).
  auto.
Qed.

(** The two write stages of the later script on a work list: the changed
    rows are rows of the work list followed by rows of the retry list. *)
Lemma write_and_recover_accounted {Qty : Type} (GQL_BATCH : option Z)
    (gql : nat -> list (Candidate Qty) -> GqlResult)
    (fetch_connect : string -> ConnectResponse)
    (work : list (Candidate Qty)) :
  let st := Current.write_and_recover GQL_BATCH gql fetch_connect work in
  let retry :=
    List.filter
      (fun x => set_has (inventory_item_id x)
                  (notStockedSet
                     (Current.write_pass GQL_BATCH gql work run_init)))
      work in
  exists rows1 rows2,
    rows1 `sublist_of` work /\ rows2 `sublist_of` retry
    /\ changedRows st = map changed_row_of (rows1 ++ rows2)
    /\ updated st = Z.of_nat (length (rows1 ++ rows2))
    /\ (Z.of_nat (length work) - Z.of_nat (length rows1)
        + (Z.of_nat (length retry) - Z.of_nat (length rows2))
        <= errors st)%Z.
Proof.
  intros st retry. subst st.
  unfold Current.write_and_recover.
  set (st1 := Current.write_pass GQL_BATCH gql work run_init) in *.
  destruct (fold_accounted (Current.write_chunk gql)
              (write_chunk_accounted gql)
              (chunks (BATCH GQL_BATCH) work) run_init)
    as (rows1 & Hs1 & Hc1 & Hu1 & He1).
  fold (Current.write_pass GQL_BATCH gql work run_init) in Hc1, Hu1, He1.
  fold st1 in Hc1, Hu1, He1. rewrite chunks_cover in Hs1, He1.
  simpl in Hc1, Hu1, He1.
  unfold Current.recover.
  destruct (notStockedSet st1) as [| id0 ids] eqn:Hset.
  - simpl. exists rows1, []. subst retry. rewrite filter_set_has_nil.
    rewrite app_nil_r. simpl. repeat split; auto; lia.
  - cbn [length Nat.ltb Nat.leb].
    destruct (connect_all_fields fetch_connect st1) as (Hu2 & He2 & Hc2).
    destruct (connect_all_spec fetch_connect st1) as (_ & Hs2).
    destruct (fold_accounted (Current.retry_chunk gql)
                (retry_chunk_accounted gql)
                (chunks (BATCH GQL_BATCH)
                   (Current.retry_of work
                      (Current.connect_all fetch_connect st1)))
                (Current.connect_all fetch_connect st1))
      as (rows2 & Hs3 & Hc3 & Hu3 & He3).
    rewrite chunks_cover in Hs3, He3.
    unfold Current.retry_of in Hs3, He3 at 1. rewrite Hs2, Hset in Hs3, He3.
    exists rows1, rows2. subst retry.
    rewrite Hc3, Hu3, Hc2, Hu2, Hc1, Hu1, map_app, length_app.
    repeat split; auto; lia.
Qed.

Lemma legacy_write_pass_accounted {Qty : Type} (GQL_BATCH : option Z)
    (gql : nat -> list (Candidate Qty) -> GqlResult)
    (work : list (Candidate Qty)) :
  let st := Legacy.write_pass GQL_BATCH gql work run_init in
  exists rows,
    rows `sublist_of` work
    /\ changedRows st = map changed_row_of rows
    /\ updated st = Z.of_nat (length rows)
    /\ (Z.of_nat (length work) - Z.of_nat (length rows) <= errors st)%Z.
Proof.
  destruct (fold_accounted (Legacy.write_chunk gql)
              (legacy_write_chunk_accounted gql)
              (chunks (BATCH GQL_BATCH) work) run_init)
    as (rows & Hs & Hc & Hu & He).
  rewrite chunks_cover in Hs, He. simpl in Hc, Hu, He.
  exists rows. unfold Legacy.write_pass. repeat split; auto; lia.
Qed.

Lemma legacy_work_of_sublist {Qty : Type} (FULL_SWEEP : bool)
    (l : list (Candidate Qty)) :
  Legacy.work_of FULL_SWEEP l `sublist_of` l.
Proof.
  unfold Legacy.work_of. destruct FULL_SWEEP; simpl;
    [reflexivity | apply sublist_take].
Qed.

Lemma work_of_elem_of {Qty : Type} (FULL_SWEEP : bool)
    (l : list (Candidate Qty)) (x : Candidate Qty) :
  x ∈ Current.work_of FULL_SWEEP l -> x ∈ l.
Proof.
  intros Hx.
  assert (Hd : x ∈ Current.dedupe l).
  { unfold Current.work_of in Hx. destruct FULL_SWEEP; simpl in Hx;
      [exact Hx |].
    eapply elem_of_sublist; [exact Hx | apply sublist_take]. }
  apply elem_of_dedupe, last_row_of_id in Hd as [_ Hd]. exact Hd.
Qed.

(** X7. In both scripts the rows of changes.csv and the counter [updated]
    of the summary agree at the end of every run: there are exactly
    [updated] changed rows, and each one is the SKU, item id and quantity
    of a matched row. *)
Theorem changed_rows_agree_with_updated {Qty : Type}
    (exact : gmap string string) (normalized : gmap string (list string))
    (skuMap : gmap string string) (mode : string) (FULL_SWEEP : bool)
    (GQL_BATCH : option Z)
    (gql : nat -> list (Candidate Qty) -> GqlResult)
    (fetch_connect : string -> ConnectResponse)
    (feed : list (string * Qty)) :
  (let '(s, m, st) :=
     Legacy.main exact normalized skuMap mode FULL_SWEEP GQL_BATCH gql feed in
   summary_updated s = Z.of_nat (length (changedRows st))
   /\ Forall (fun r => exists x, x ∈ candidates m /\ r = changed_row_of x)
        (changedRows st))
  /\ (let '(s, m, st) :=
        Current.main exact normalized skuMap mode FULL_SWEEP GQL_BATCH gql
          fetch_connect feed in
      summary_updated s = Z.of_nat (length (changedRows st))
      /\ Forall (fun r => exists x, x ∈ candidates m /\ r = changed_row_of x)
           (changedRows st)).
Proof.
  split.
  - unfold Legacy.main. cbv zeta. cbn [summary_updated].
    destruct (legacy_write_pass_accounted GQL_BATCH gql
                (Legacy.work_of FULL_SWEEP
                   (candidates
                      (Legacy.match_loop exact normalized skuMap mode feed))))
      as (rows & Hs & -> & -> & _).
    rewrite length_map. split; [reflexivity |].
    apply Forall_forall. intros r (x & -> & Hx)%list_elem_of_fmap.
    exists x. split; [| reflexivity].
    eapply elem_of_sublist; [exact Hx |].
    etransitivity; [exact Hs | apply legacy_work_of_sublist].
  - unfold Current.main. cbv zeta. cbn [summary_updated].
    destruct (write_and_recover_accounted GQL_BATCH gql fetch_connect
                (Current.work_of FULL_SWEEP
                   (candidates
                      (Current.match_loop exact normalized skuMap mode feed))))
      as (rows1 & rows2 & Hs1 & Hs2 & -> & -> & _).
    rewrite length_map. split; [reflexivity |].
    apply Forall_forall. intros r (x & -> & Hx)%list_elem_of_fmap.
    exists x. split; [| reflexivity].
    apply (work_of_elem_of FULL_SWEEP).
    apply elem_of_app in Hx as [Hx | Hx].
    + eapply elem_of_sublist; [exact Hx | exact Hs1].
    + eapply elem_of_sublist; [exact Hx |].
      etransitivity; [exact Hs2 | apply filter_sublist].
Qed.

(** X8. In both scripts every work item of a run is counted: [updated]
    plus [errors] is at least [processed_this_run], no counter is
    negative, and [updated] is at most [processed_this_run] in the earlier
    script and at most twice that in the later one, which writes an item
    at most twice. *)
Theorem every_work_item_is_counted {Qty : Type}
    (exact : gmap string string) (normalized : gmap string (list string))
    (skuMap : gmap string string) (mode : string) (FULL_SWEEP : bool)
    (GQL_BATCH : option Z)
    (gql : nat -> list (Candidate Qty) -> GqlResult)
    (fetch_connect : string -> ConnectResponse)
    (feed : list (string * Qty)) :
  (let '(s, _, _) :=
     Legacy.main exact normalized skuMap mode FULL_SWEEP GQL_BATCH gql feed in
   (Z.of_nat (processed_this_run s) <= summary_updated s + summary_errors s
    /\ 0 <= summary_updated s <= Z.of_nat (processed_this_run s)
    /\ 0 <= summary_errors s)%Z)
  /\ (let '(s, _, _) :=
        Current.main exact normalized skuMap mode FULL_SWEEP GQL_BATCH gql
          fetch_connect feed in
      (Z.of_nat (processed_this_run s) <= summary_updated s + summary_errors s
       /\ 0 <= summary_updated s <= 2 * Z.of_nat (processed_this_run s)
       /\ 0 <= summary_errors s)%Z).
Proof.
  split.
  - unfold Legacy.main. cbv zeta.
    cbn [summary_updated summary_errors processed_this_run].
    destruct (legacy_write_pass_accounted GQL_BATCH gql
                (Legacy.work_of FULL_SWEEP
                   (candidates
                      (Legacy.match_loop exact normalized skuMap mode feed))))
      as (rows & Hs%sublist_length & _ & -> & He).
    lia.
  - unfold Current.main. cbv zeta.
    cbn [summary_updated summary_errors processed_this_run].
    destruct (write_and_recover_accounted GQL_BATCH gql fetch_connect
                (Current.work_of FULL_SWEEP
                   (candidates
                      (Current.match_loop exact normalized skuMap mode feed))))
      as (rows1 & rows2 & Hs1%sublist_length & Hs2%sublist_length & _
          & -> & He).
    match type of Hs2 with
    | (_ <= length (List.filter ?p ?l))%nat =>
        pose proof (sublist_length _ _ (filter_sublist p l)) as Hf
    end.
    rewrite length_app. lia.
Qed.

(** ** The two scripts side by side *)

Lemma match_row_same {Qty : Type}
    (exact : gmap string string) (normalized : gmap string (list string))
    (skuMap : gmap string string) (mode : string)
    (st : MatchState Qty) (row : string * Qty) :
  Legacy.match_row exact normalized skuMap mode st row
  = Current.match_row exact normalized skuMap mode st row.
Proof. destruct row. reflexivity. Qed.

Lemma match_loop_same {Qty : Type}
    (exact : gmap string string) (normalized : gmap string (list string))
    (skuMap : gmap string string) (mode : string)
    (feed : list (string * Qty)) :
  Legacy.match_loop exact normalized skuMap mode feed
  = Current.match_loop exact normalized skuMap mode feed.
Proof.
  unfold Legacy.match_loop, Current.match_loop.
  generalize (@match_init Qty) as st.
  induction feed as [| row feed IH]; intros st; cbn [fold_left];
    [reflexivity |].
  rewrite match_row_same. apply IH.
Qed.

Section NothingNoted.
Context {Qty : Type}.
Variable gql : nat -> list (Candidate Qty) -> GqlResult.
Hypothesis never_not_stocked :
  forall n chunk ue e,
    gql n chunk = GqlData ue -> e ∈ ue ->
    not_stocked_message (message e) = false.

Lemma fold_note_nothing (chunk : list (Candidate Qty))
    (ue : list UserError) (st : RunState Qty) :
  (forall e, e ∈ ue -> not_stocked_message (message e) = false) ->
  fold_left (Current.note_not_stocked chunk) ue st = st.
Proof.
  revert st. induction ue as [| e ue IH]; intros st Hue; cbn [fold_left];
    [reflexivity |].
  unfold Current.note_not_stocked at 2.
  rewrite (Hue e) by left. simpl. apply IH.
  intros e' He'. apply Hue. right. exact He'.
Qed.

Lemma write_chunk_same (st : RunState Qty) (chunk : list (Candidate Qty)) :
  Current.write_chunk gql st chunk = Legacy.write_chunk gql st chunk.
Proof.
  unfold Current.write_chunk, Legacy.write_chunk.
  destruct (gql (gql_calls (trace st)) chunk) as [| ue] eqn:Hg;
    [reflexivity |].
  rewrite fold_note_nothing; [reflexivity |].
  intros e He. exact (never_not_stocked _ _ _ _ Hg He).
Qed.

Lemma write_pass_same (GQL_BATCH : option Z) (work : list (Candidate Qty))
    (st : RunState Qty) :
  Current.write_pass GQL_BATCH gql work st
  = Legacy.write_pass GQL_BATCH gql work st.
Proof.
  unfold Current.write_pass, Legacy.write_pass.
  revert st. induction (chunks (BATCH GQL_BATCH) work) as [| c cs IH];
    intros st; cbn [fold_left]; [reflexivity |].
  rewrite write_chunk_same. apply IH.
Qed.
End NothingNoted.

Lemma legacy_write_pass_notes_nothing {Qty : Type} (GQL_BATCH : option Z)
    (gql : nat -> list (Candidate Qty) -> GqlResult)
    (work : list (Candidate Qty)) (st : RunState Qty) :
  notStockedSet (Legacy.write_pass GQL_BATCH gql work st) = notStockedSet st.
Proof.
  unfold Legacy.write_pass.
  revert st. induction (chunks (BATCH GQL_BATCH) work) as [| c cs IH];
    intros st; cbn [fold_left]; [reflexivity |].
  rewrite IH. apply legacy_write_chunk_spec.
Qed.

(** From one feed table, one catalog index and one manual map the two
    scripts do the same, when no two matched rows share an item id and no
    user error carries the not-stocked signature. *)
Lemma mains_agree_on_one_feed {Qty : Type}
    (exact : gmap string string) (normalized : gmap string (list string))
    (skuMap : gmap string string) (mode : string) (FULL_SWEEP : bool)
    (GQL_BATCH : option Z)
    (gql : nat -> list (Candidate Qty) -> GqlResult)
    (fetch_connect : string -> ConnectResponse)
    (feed : list (string * Qty)) :
  NoDup (item_ids
           (candidates (Legacy.match_loop exact normalized skuMap mode feed))) ->
  (forall n chunk ue e,
      gql n chunk = GqlData ue -> e ∈ ue ->
      not_stocked_message (message e) = false) ->
  Current.main exact normalized skuMap mode FULL_SWEEP GQL_BATCH gql
    fetch_connect feed
  = Legacy.main exact normalized skuMap mode FULL_SWEEP GQL_BATCH gql feed.
Proof.
  intros Hnd Hgql. unfold Current.main, Legacy.main. cbv zeta.
  rewrite match_loop_same in *.
  set (m := Current.match_loop exact normalized skuMap mode feed) in *.
  assert (Hwork : Current.work_of FULL_SWEEP (candidates m)
                  = Legacy.work_of FULL_SWEEP (candidates m)).
  { unfold Current.work_of, Legacy.work_of.
    rewrite dedupe_NoDup by exact Hnd. reflexivity. }
  rewrite Hwork.
  set (work := Legacy.work_of FULL_SWEEP (candidates m)).
  assert (Hst : Current.write_and_recover GQL_BATCH gql fetch_connect work
                = Legacy.write_pass GQL_BATCH gql work run_init).
  { unfold Current.write_and_recover, Current.recover.
    rewrite (write_pass_same gql Hgql).
    rewrite legacy_write_pass_notes_nothing. reflexivity. }
  rewrite Hst. reflexivity.
Qed.

(** ** The connect call *)

Lemma status_422_only :
  forallb
    (fun status =>
       Bool.eqb (occurs_in "422" (status_text status)) (status =? 422)%nat)
    (seq 100 900)
  = true.
Proof. vm_compute. reflexivity. Qed.

(** X10. For a three-digit HTTP status, [connectInventory] returns exactly
    when the status is in the range 200 to 299 or is 422, and throws for
    every other status; it also throws when the request itself fails. *)
Theorem connect_tolerates_only_422
    (fetch_connect : string -> ConnectResponse) (invId : string) :
  (fetch_connect invId = FetchThrows ->
   Current.connectInventory fetch_connect invId = false)
  /\ (forall status,
        fetch_connect invId = Response status ->
        (100 <= status <= 999)%nat ->
        (Current.connectInventory fetch_connect invId = true
         <-> (200 <= status <= 299)%nat \/ status = 422%nat)).
Proof.
  unfold Current.connectInventory. split.
  - intros ->. reflexivity.
  - intros status -> Hrange.
    pose proof status_422_only as H. rewrite forallb_forall in H.
    specialize (H status). rewrite in_seq in H.
    apply Bool.eqb_prop in H; [| lia]. rewrite H. unfold res_ok.
    destruct (Nat.leb_spec 200 status), (Nat.leb_spec status 299),
      (Nat.eqb_spec status 422); simpl; split; intros; try lia;
      try reflexivity; try discriminate.
Qed.

(** ** Runs of the statements above on the example data *)

Lemma matched_rows_come_from_the_catalog_witness :
  let x := mkCandidate "sku1" "101" 7%Z in
  inventory_item_id x <> ""
  /\ (Examples.exact1 !! sku x = Some (inventory_item_id x)
      \/ ("normalize" <> "exact"
          /\ Examples.normalized1 !! normalizeSkuText (sku x)
             = Some [inventory_item_id x]))
  /\ exists f, (f, qty x) ∈ Examples.feed1
               /\ (sku x = f \/ (∅ : gmap string string) !! f = Some (sku x)).
Proof.
  apply (matched_rows_come_from_the_catalog Examples.exact1
           Examples.normalized1 ∅ "normalize" Examples.feed1).
  apply list_elem_of_In. vm_compute. right. left. reflexivity.
Defined.

Lemma dedupe_first_position_last_row_witness :
  Current.dedupe Examples.five_items = Examples.five_items.
Proof.
  apply (proj1 (proj2 (proj2
           (dedupe_first_position_last_row Examples.five_items)))).
  apply (bool_decide_unpack _). vm_compute. reflexivity.
Defined.

Lemma connect_tolerates_only_422_witness :
  Current.connectInventory (fun _ => Response 422) "300" = true.
Proof.
  apply (proj2 (connect_tolerates_only_422 (fun _ => Response 422) "300")
           422%nat eq_refl).
  - lia.
  - right. reflexivity.
Defined.

(** ** Facts about the catalog index *)

Lemma last_id_of_snoc (sku sku' id : string)
    (records : list (string * string)) :
  last_id_of sku (records ++ [(sku', id)])
  = if String.eqb sku' sku then Some id else last_id_of sku records.
Proof.
  unfold last_id_of. rewrite rev_app_distr. simpl.
  destruct (String.eqb sku' sku); reflexivity.
Qed.

Lemma ids_under_snoc (key sku id : string)
    (records : list (string * string)) :
  ids_under key (records ++ [(sku, id)])
  = ids_under key records
    ++ (if String.eqb (normalizeSkuText sku) key then [id] else []).
Proof.
  unfold ids_under. rewrite List.filter_app, map_app. simpl.
  destruct (String.eqb (normalizeSkuText sku) key); reflexivity.
Qed.

Lemma default_ids_entry (key : string) (records : list (string * string)) :
  default [] (ids_entry key records) = ids_under key records.
Proof. unfold ids_entry. destruct (ids_under key records); reflexivity. Qed.

Lemma ids_entry_snoc (key sku id : string)
    (records : list (string * string)) :
  ids_entry key (records ++ [(sku, id)])
  = if String.eqb (normalizeSkuText sku) key
    then Some (ids_under key records ++ [id])
    else ids_entry key records.
Proof.
  unfold ids_entry. rewrite ids_under_snoc.
  destruct (String.eqb (normalizeSkuText sku) key).
  - destruct (ids_under key records); reflexivity.
  - rewrite app_nil_r. reflexivity.
Qed.

(** One edge: the maps take the edge's record in, when it has one, and the
    cursor moves to the edge either way. *)
Lemma add_edge_spec (st : IndexState) (e : Edge)
    (records : list (string * string)) :
  index_of_records (index_exact st) (index_normalized st) records ->
  let st' := add_edge st e in
  index_of_records (index_exact st') (index_normalized st')
    (records ++ omap record_of [e])
  /\ index_cursor st' = Some (cursor e).
Proof.
  intros [Hex Hnm]. unfold add_edge, record_of. cbn [omap list_omap].
  destruct (match_InventoryItem (inventoryItem_id e)) as [invId |];
    [| simpl; rewrite app_nil_r; repeat split; auto].
  destruct (String.eqb (trim (node_sku e)) "") eqn:Hsku;
    [simpl; rewrite app_nil_r; repeat split; auto |].
  simpl. split; [| reflexivity]. split.
  - intros sku. rewrite last_id_of_snoc, lookup_insert.
    destruct (String.eqb_spec (trim (node_sku e)) sku) as [-> | Hne].
    + rewrite decide_True by reflexivity. reflexivity.
    + rewrite decide_False by exact Hne. apply Hex.
  - intros key. rewrite ids_entry_snoc, lookup_insert.
    destruct (String.eqb_spec (normalizeSkuText (trim (node_sku e))) key)
      as [-> | Hne].
    + rewrite decide_True by reflexivity.
      rewrite Hnm, default_ids_entry. reflexivity.
    + rewrite decide_False by exact Hne. apply Hnm.
Qed.

Lemma fold_add_edge_spec (edges : list Edge) :
  forall (st : IndexState) (records : list (string * string)),
    index_of_records (index_exact st) (index_normalized st) records ->
    let st' := fold_left add_edge edges st in
    index_of_records (index_exact st') (index_normalized st')
      (records ++ omap record_of edges)
    /\ index_cursor st' = cursor_after (index_cursor st) edges.
Proof.
  induction edges as [| e edges IH] using rev_ind; intros st records Hst;
    cbv zeta.
  - simpl. rewrite app_nil_r. auto.
  - rewrite fold_left_app. cbn [fold_left].
    destruct (IH st records Hst) as [Hidx _].
    destruct (add_edge_spec (fold_left add_edge edges st) e _ Hidx)
      as [Hidx' Hc].
    rewrite omap_app, app_assoc. split; [exact Hidx' |].
    rewrite Hc. unfold cursor_after. rewrite last_snoc. reflexivity.
Qed.

Lemma index_of_records_init : index_of_records ∅ ∅ [].
Proof. split; intros; apply lookup_empty. Qed.

Lemma records_of_cons (edges : list Edge) (b : bool)
    (pages : list (list Edge * bool)) :
  records_of ((edges, b) :: pages) = omap record_of edges ++ records_of pages.
Proof. unfold records_of. simpl. apply omap_app. Qed.

(** The loop, forwards: when the next [k] requests are answered by pages
    of which the last one is the first to report no further page, [k]
    rounds end the loop with the index of all records seen. *)
Lemma fetch_loop_returns (source : nat -> option string -> PageResult) :
  forall k fuel n st asked records pages,
    index_of_records (index_exact st) (index_normalized st) records ->
    pages_seen source k n (index_cursor st) = Some pages ->
    ends_at_last pages = true ->
    (k <= fuel)%nat ->
    exists exact normalized,
      fetch_loop fuel source n st asked
      = (Fetched exact normalized,
         asked ++ cursors_asked (index_cursor st) pages)
      /\ index_of_records exact normalized (records ++ records_of pages).
Proof.
  induction k as [| k IH]; intros fuel n st asked records pages Hst Hseen
    Hend Hfuel.
  - simpl in Hseen. injection Hseen as <-. discriminate.
  - destruct fuel as [| fuel]; [lia |]. simpl in Hseen |- *.
    destruct (source n (index_cursor st)) as [| edges hasNext];
      [discriminate |].
    destruct (pages_seen source k (S n) (cursor_after (index_cursor st) edges))
      as [rest |] eqn:Hrest; [| discriminate].
    injection Hseen as <-.
    destruct (fold_add_edge_spec edges st records Hst) as [Hidx Hc].
    rewrite records_of_cons, app_assoc. cbn [cursors_asked].
    destruct rest as [| p rest].
    + simpl in Hend. apply negb_true_iff in Hend. subst hasNext.
      exists (index_exact (fold_left add_edge edges st)),
        (index_normalized (fold_left add_edge edges st)).
      unfold records_of. simpl. rewrite app_nil_r. auto.
    + cbn [ends_at_last] in Hend. apply andb_prop in Hend as [-> Hend].
      rewrite <- Hc in Hrest.
      destruct (IH fuel (S n) (fold_left add_edge edges st)
                  (asked ++ [index_cursor st]) _ _ Hidx Hrest Hend
                  ltac:(lia)) as (ex & nm & Hf & Hi).
      exists ex, nm. rewrite Hf, Hc, <- app_assoc. auto.
Qed.

(** The loop, backwards: an index that the loop returns is the index of
    the records of the pages that the requests were answered with. *)
Lemma fetch_loop_fetched (source : nat -> option string -> PageResult) :
  forall fuel n st asked records exact normalized asked',
    index_of_records (index_exact st) (index_normalized st) records ->
    fetch_loop fuel source n st asked = (Fetched exact normalized, asked') ->
    exists pages,
      pages_seen source (length pages) n (index_cursor st) = Some pages
      /\ ends_at_last pages = true
      /\ (length pages <= fuel)%nat
      /\ asked' = asked ++ cursors_asked (index_cursor st) pages
      /\ index_of_records exact normalized (records ++ records_of pages).
Proof.
  induction fuel as [| fuel IH];
    intros n st asked records exact normalized asked' Hst Hf;
    simpl in Hf; [discriminate |].
  destruct (source n (index_cursor st)) as [| edges hasNext] eqn:Hsrc;
    [discriminate |].
  destruct (fold_add_edge_spec edges st records Hst) as [Hidx Hc].
  destruct hasNext.
  - destruct (IH _ _ _ _ _ _ _ Hidx Hf)
      as (pages & Hseen & Hend & Hlen & -> & Hi).
    exists ((edges, true) :: pages). cbn [length pages_seen].
    rewrite Hsrc, <- Hc, Hseen. cbn [cursors_asked].
    rewrite records_of_cons, app_assoc, <- Hc, <- app_assoc.
    split; [reflexivity |]. split.
    { cbn [ends_at_last]. destruct pages; [discriminate | exact Hend]. }
    split; [lia |]. split; [reflexivity | exact Hi].
  - injection Hf as <- <- <-.
    exists [(edges, false)]. cbn [length pages_seen]. rewrite Hsrc.
    unfold records_of. simpl. rewrite app_nil_r.
    split; [reflexivity |]. split; [reflexivity |]. split; [lia |].
    split; [reflexivity | exact Hidx].
Qed.

(** X11. The page loop returns exactly when the requests, each made with
    the cursor of the last edge read so far (none at first, and the same
    cursor again after a page without edges), are answered by pages of
    which the last is the first to report no further page.  The index it
    returns is then that of all records read, whatever the page
    boundaries: the exact map holds, for a SKU, the item id of the last
    record with that SKU, and the normalized map holds, for a key, the
    item ids of all records whose SKU has that key, in the order read, and
    no entry for a key without records. An empty catalog gives two empty
    maps. *)
Theorem fetch_index_is_index_of_pages
    (source : nat -> option string -> PageResult) (fuel : nat) :
  (forall pages,
      pages_seen source (length pages) 0 None = Some pages ->
      ends_at_last pages = true ->
      (length pages <= fuel)%nat ->
      exists exact normalized,
        fetchAllVariantSkuToInvItem fuel source
        = (Fetched exact normalized, cursors_asked None pages)
        /\ index_of_records exact normalized (records_of pages))
  /\ (forall exact normalized asked,
        fetchAllVariantSkuToInvItem fuel source
        = (Fetched exact normalized, asked) ->
        exists pages,
          pages_seen source (length pages) 0 None = Some pages
          /\ ends_at_last pages = true
          /\ (length pages <= fuel)%nat
          /\ asked = cursors_asked None pages
          /\ index_of_records exact normalized (records_of pages)).
Proof.
  unfold fetchAllVariantSkuToInvItem. split.
  - intros pages Hseen Hend Hfuel.
    destruct (fetch_loop_returns source (length pages) fuel 0 index_init []
                [] pages index_of_records_init Hseen Hend Hfuel)
      as (ex & nm & Hf & Hi).
    exists ex, nm. auto.
  - intros exact normalized asked Hf.
    destruct (fetch_loop_fetched source fuel 0 index_init [] [] exact
                normalized asked index_of_records_init Hf)
      as (pages & Hseen & Hend & Hlen & -> & Hi).
    exists pages. auto.
Qed.

Lemma fetch_loop_fails (source : nat -> option string -> PageResult) :
  forall k fuel n st asked pages,
    pages_seen source k n (index_cursor st) = Some pages ->
    forallb snd pages = true ->
    source (n + k)%nat
      (fold_left cursor_after (map fst pages) (index_cursor st))
    = PageThrows ->
    (k < fuel)%nat ->
    fst (fetch_loop fuel source n st asked) = FetchFailed.
Proof.
  induction k as [| k IH]; intros fuel n st asked pages Hseen Hall Hthrow
    Hfuel; (destruct fuel as [| fuel]; [lia |]); simpl in Hseen |- *.
  - injection Hseen as <-. simpl in Hthrow. rewrite Nat.add_0_r in Hthrow.
    rewrite Hthrow. reflexivity.
  - destruct (source n (index_cursor st)) as [| edges hasNext];
      [discriminate |].
    destruct (pages_seen source k (S n) (cursor_after (index_cursor st) edges))
      as [rest |] eqn:Hrest; [| discriminate].
    injection Hseen as <-. simpl in Hall, Hthrow.
    apply andb_prop in Hall as [-> Hall].
    assert (Hc : index_cursor (fold_left add_edge edges st)
                 = cursor_after (index_cursor st) edges).
    { clear. revert st. induction edges as [| e edges IHe] using rev_ind;
        intros st; [reflexivity |].
      rewrite fold_left_app. unfold cursor_after. rewrite last_snoc.
      simpl. unfold add_edge.
      destruct (match_InventoryItem (inventoryItem_id e));
        [destruct (String.eqb (trim (node_sku e)) "") |]; reflexivity. }
    rewrite <- Hc in Hrest, Hthrow.
    apply (IH fuel (S n) _ _ rest Hrest Hall); [| lia].
    rewrite <- Hthrow. f_equal. lia.
Qed.

(** X12. A page request that throws fails the whole fetch, however many
    pages were read before it: no partial index is returned. *)
Theorem fetch_fails_when_a_page_request_throws
    (source : nat -> option string -> PageResult) (fuel : nat)
    (pages : list (list Edge * bool)) :
  pages_seen source (length pages) 0 None = Some pages ->
  forallb snd pages = true ->
  source (length pages) (fold_left cursor_after (map fst pages) None)
  = PageThrows ->
  (length pages < fuel)%nat ->
  fst (fetchAllVariantSkuToInvItem fuel source) = FetchFailed.
Proof.
  intros Hseen Hall Hthrow Hfuel. unfold fetchAllVariantSkuToInvItem.
  apply (fetch_loop_fails source (length pages) fuel 0 index_init [] pages);
    auto.
Qed.

Lemma fetch_loop_stuck (source : nat -> option string -> PageResult)
    (c : option string) :
  (forall n, source n c = Page [] true) ->
  forall fuel n st asked,
    index_cursor st = c ->
    fetch_loop fuel source n st asked
    = (FetchRunsOn, asked ++ replicate fuel c).
Proof.
  intros Hsrc. induction fuel as [| fuel IH]; intros n st asked Hc; simpl.
  - rewrite app_nil_r. reflexivity.
  - rewrite Hc, Hsrc. simpl. rewrite IH by exact Hc.
    rewrite <- app_assoc. reflexivity.
Qed.

(** X13. The cursor moves only with an edge. A source that answers the
    first cursor with a page that has no edges and reports a further page,
    and does so each time it is asked, keeps the loop asking with that
    same cursor: it does not return within any number of rounds. *)
Theorem fetch_repeats_the_request_after_an_empty_page
    (source : nat -> option string -> PageResult) (fuel : nat) :
  (forall n, source n None = Page [] true) ->
  fetchAllVariantSkuToInvItem fuel source
  = (FetchRunsOn, replicate fuel None).
Proof.
  intros Hsrc. unfold fetchAllVariantSkuToInvItem.
  rewrite (fetch_loop_stuck source None Hsrc fuel 0 index_init []);
    reflexivity.
Qed.

Lemma take_digits_all_digits (s : string) : all_digits (take_digits s) = true.
Proof.
  induction s as [| c s IH]; simpl; [reflexivity |].
  destruct (is_digit c) eqn:Hc; simpl; [rewrite Hc; exact IH | reflexivity].
Qed.

Lemma match_InventoryItem_digits (gid digits : string) :
  match_InventoryItem gid = Some digits ->
  digits <> "" /\ all_digits digits = true.
Proof.
  assert (Hhere : forall s d, match_InventoryItem_here s = Some d ->
                              d <> "" /\ all_digits d = true).
  { intros s d. unfold match_InventoryItem_here.
    destruct (drop_prefix "InventoryItem/" s) as [rest |]; [| discriminate].
    destruct (String.eqb_spec (take_digits rest) "") as [| Hne];
      [discriminate |].
    intros [= <-]. split; [exact Hne | apply take_digits_all_digits]. }
  induction gid as [| c gid IH]; simpl.
  - discriminate.
  - destruct (match_InventoryItem_here (String c gid)) as [d |] eqn:Hd;
      [| exact IH].
    intros [= <-]. apply (Hhere _ _ Hd).
Qed.

Lemma record_of_valid (e : Edge) (sku id : string) :
  record_of e = Some (sku, id) ->
  sku <> "" /\ id <> "" /\ all_digits id = true.
Proof.
  unfold record_of.
  destruct (match_InventoryItem (inventoryItem_id e)) as [d |] eqn:Hm;
    [| discriminate].
  destruct (String.eqb_spec (trim (node_sku e)) "") as [| Hne];
    [discriminate |].
  intros [= <- <-]. split; [exact Hne |].
  apply (match_InventoryItem_digits _ _ Hm).
Qed.

Lemma records_of_valid (pages : list (list Edge * bool)) (sku id : string) :
  (sku, id) ∈ records_of pages ->
  sku <> "" /\ id <> "" /\ all_digits id = true.
Proof.
  unfold records_of. intros (e & _ & He)%list_elem_of_omap.
  apply (record_of_valid e), He.
Qed.

Lemma last_id_of_elem_of (sku id : string)
    (records : list (string * string)) :
  last_id_of sku records = Some id -> (sku, id) ∈ records.
Proof.
  unfold last_id_of.
  destruct (List.find _ (rev records)) as [[s i] |] eqn:Hf; [| discriminate].
  apply find_some in Hf as [Hin Heq]. simpl in Heq.
  apply String.eqb_eq in Heq. subst s. simpl.
  intros [= <-]. apply list_elem_of_In, in_rev, Hin.
Qed.

Lemma elem_of_ids_under (key id : string)
    (records : list (string * string)) :
  id ∈ ids_under key records
  <-> exists sku, (sku, id) ∈ records /\ normalizeSkuText sku = key.
Proof.
  unfold ids_under. rewrite list_elem_of_fmap. split.
  - intros ([sku i] & -> & Hin). apply list_elem_of_In in Hin.
    apply filter_In in Hin as [Hin Heq]. simpl in Heq.
    apply String.eqb_eq in Heq.
    exists sku. split; [apply list_elem_of_In, Hin | exact Heq].
  - intros (sku & Hin & <-). exists (sku, id). split; [reflexivity |].
    apply list_elem_of_In, filter_In. split; [apply list_elem_of_In, Hin |].
    apply String.eqb_refl.
Qed.

Lemma normalizeSkuText_fixed (s : string) :
  normalizeSkuText (normalizeSkuText s) = normalizeSkuText s.
Proof. apply normalizeWith_idempotent, toUpperCase_fixes. Qed.

(** What holds of every index that the page loop returns. *)
Lemma fetched_index_well_formed
    (source : nat -> option string -> PageResult) (fuel : nat)
    (exact : gmap string string) (normalized : gmap string (list string))
    (asked : list (option string)) :
  fetchAllVariantSkuToInvItem fuel source = (Fetched exact normalized, asked) ->
  (forall sku id,
      exact !! sku = Some id ->
      sku <> "" /\ id <> "" /\ all_digits id = true
      /\ id ∈ default [] (normalized !! normalizeSkuText sku))
  /\ (forall key ids,
        normalized !! key = Some ids ->
        ids <> [] /\ normalizeSkuText key = key
        /\ Forall (fun id => id <> "" /\ all_digits id = true) ids).
Proof.
  intros Hf.
  destruct (fetch_loop_fetched source fuel 0 index_init [] [] exact
              normalized asked index_of_records_init Hf)
    as (pages & _ & _ & _ & _ & Hex & Hnm).
  simpl in Hex, Hnm. split.
  - intros sku id Hsku. rewrite Hex in Hsku.
    apply last_id_of_elem_of in Hsku.
    destruct (records_of_valid _ _ _ Hsku) as (? & ? & ?).
    repeat split; auto.
    rewrite Hnm, default_ids_entry. apply elem_of_ids_under. eauto.
  - intros key ids Hkey. rewrite Hnm in Hkey. unfold ids_entry in Hkey.
    destruct (ids_under key (records_of pages)) as [| i l] eqn:Hids;
      [discriminate |].
    injection Hkey as <-. split; [discriminate |].
    assert (Hall : forall id, id ∈ i :: l ->
               exists sku, (sku, id) ∈ records_of pages
                           /\ normalizeSkuText sku = key).
    { intros id Hid. apply elem_of_ids_under. rewrite Hids. exact Hid. }
    split.
    + destruct (Hall i ltac:(left)) as (sku & _ & <-).
      apply normalizeSkuText_fixed.
    + apply Forall_forall. intros id (sku & Hin & _)%Hall.
      destruct (records_of_valid _ _ _ Hin) as (_ & ? & ?). auto.
Qed.

(** X14. In every index that the page loop returns, a SKU of the exact map
    is not empty, every item id (in either map) is a non-empty string of
    digits, the item id that the exact map holds for a SKU is among the
    ids that the normalized map holds under that SKU's key, no list of the
    normalized map is empty, and every key of it is in normalized form. *)
Theorem fetched_index_is_well_formed
    (source : nat -> option string -> PageResult) (fuel : nat)
    (exact : gmap string string) (normalized : gmap string (list string))
    (asked : list (option string)) :
  fetchAllVariantSkuToInvItem fuel source = (Fetched exact normalized, asked) ->
  (forall sku id,
      exact !! sku = Some id ->
      sku <> "" /\ id <> "" /\ all_digits id = true
      /\ id ∈ default [] (normalized !! normalizeSkuText sku))
  /\ (forall key ids,
        normalized !! key = Some ids ->
        ids <> [] /\ normalizeSkuText key = key
        /\ Forall (fun id => id <> "" /\ all_digits id = true) ids).
Proof. apply fetched_index_well_formed. Qed.

(** ** The match loop on a catalog index that the page loop returned *)

Section WellFormedIndex.
Context {Qty : Type}.
Variable exact : gmap string string.
Variable normalized : gmap string (list string).
Variable skuMap : gmap string string.
Variable mode : string.
Hypothesis normalized_ids_not_empty :
  forall key ids, normalized !! key = Some ids -> Forall (fun id => id <> "") ids.

Lemma single_id_not_empty (key id : string) :
  default [] (normalized !! key) = [id] -> String.eqb id "" = false.
Proof.
  destruct (normalized !! key) as [ids |] eqn:Hk; simpl; [| discriminate].
  intros ->. apply normalized_ids_not_empty in Hk.
  apply Forall_cons in Hk as [Hne _]. apply String.eqb_neq, Hne.
Qed.

Lemma head_single (l : list string) (id : string) :
  (length l =? 1)%nat = true -> head l = Some id -> l = [id].
Proof.
  destruct l as [| x [| y l]]; simpl; try discriminate.
  intros _ [= ->]. reflexivity.
Qed.

Lemma match_row_normalized_counter (st : MatchState Qty) (feedSku : string)
    (q : Qty) :
  matchedNormalized
    (Current.match_row exact normalized skuMap mode st (feedSku, q))
  = (matchedNormalized st
     + (if is_tier TierNormalized
             (tiered_outcome exact normalized skuMap mode feedSku)
        then 1 else 0))%nat.
Proof.
  unfold_match_row.
  destruct (size skuMap =? 0)%nat eqn:Hsz;
    [rewrite (size_zero_lookup _ feedSku Hsz) |]; cbn.
  all: js_cases; simplify_eq/=; try congruence; try lia.
  all: exfalso;
    repeat match goal with
      | H : default [] (normalized !! ?k) = [?id] |- _ =>
          apply single_id_not_empty in H
      | H1 : (length ?l =? 1)%nat = true, H2 : head ?l = Some ?id |- _ =>
          apply (head_single l id H1) in H2
      end;
    simpl in *; try congruence.
  all: match goal with
       | H : String.eqb ?x "" = false, H' : negb (String.eqb ?x "") = false
         |- _ => rewrite H in H'; discriminate
       end.
Qed.

Lemma fold_match_row_normalized_counter (feed : list (string * Qty)) :
  forall st : MatchState Qty,
    matchedNormalized
      (fold_left (Current.match_row exact normalized skuMap mode) feed st)
    = (matchedNormalized st
       + matched_at exact normalized skuMap mode TierNormalized feed)%nat.
Proof.
  unfold matched_at.
  induction feed as [| [f q] feed IH]; intros st;
    cbn [fold_left List.filter length fst]; [lia |].
  rewrite IH, match_row_normalized_counter.
  destruct (is_tier TierNormalized
              (tiered_outcome exact normalized skuMap mode f)); simpl; lia.
Qed.
End WellFormedIndex.

Lemma candidates_by_tier {Qty : Type}
    (exact : gmap string string) (normalized : gmap string (list string))
    (skuMap : gmap string string) (mode : string)
    (feed : list (string * Qty)) :
  length (omap (candidate_of exact normalized skuMap mode) feed)
  = (matched_at exact normalized skuMap mode TierExact feed
     + matched_at exact normalized skuMap mode TierMapped feed
     + matched_at exact normalized skuMap mode TierNormalized feed)%nat.
Proof.
  unfold matched_at.
  induction feed as [| [f q] feed IH]; [reflexivity |].
  rewrite omap_cons_case. cbn [List.filter fst].
  unfold candidate_of at 1. cbn [fst snd].
  destruct (tiered_outcome exact normalized skuMap mode f) as [[] ? ? | |];
    simpl; rewrite IH; lia.
Qed.

(** X15. On a catalog index that the page loop returned, a feed SKU that
    the exact map has always matches at tier 1, to the item id the map
    holds; [matched_normalized] is the number of rows matched at tier 3;
    and the three counters of the summary add up to the matched rows plus
    the rows matched through the manual map, which are counted twice. *)
Theorem counters_on_a_fetched_index {Qty : Type}
    (source : nat -> option string -> PageResult) (fuel : nat)
    (exact : gmap string string) (normalized : gmap string (list string))
    (asked : list (option string))
    (skuMap : gmap string string) (mode : string)
    (feed : list (string * Qty)) :
  fetchAllVariantSkuToInvItem fuel source = (Fetched exact normalized, asked) ->
  let m := Current.match_loop exact normalized skuMap mode feed in
  (forall f id,
      exact !! f = Some id ->
      tiered_outcome exact normalized skuMap mode f = Matched TierExact f id)
  /\ matchedNormalized m
     = matched_at exact normalized skuMap mode TierNormalized feed
  /\ (matchedExact m + matchedMapped m + matchedNormalized m
      = length (candidates m) + matchedMapped m)%nat.
Proof.
  intros Hf m.
  destruct (fetched_index_well_formed source fuel exact normalized asked Hf)
    as [Hex Hnm].
  assert (Hwf : forall key ids, normalized !! key = Some ids ->
                                Forall (fun id => id <> "") ids).
  { intros key ids (_ & _ & Hall)%Hnm. eapply Forall_impl; [exact Hall |].
    simpl. tauto. }
  split; [| split].
  - intros f id Hid. destruct (Hex f id Hid) as (_ & Hne & _).
    unfold tiered_outcome, found, truthy. rewrite Hid.
    apply String.eqb_neq in Hne. rewrite Hne. reflexivity.
  - subst m. unfold Current.match_loop.
    rewrite (fold_match_row_normalized_counter exact normalized skuMap mode
               Hwf feed match_init).
    reflexivity.
  - subst m. unfold Current.match_loop.
    rewrite (fold_match_row_normalized_counter exact normalized skuMap mode
               Hwf feed match_init).
    destruct (fold_match_row_counters exact normalized skuMap mode feed
                match_init) as [-> ->].
    destruct (fold_match_row_lists exact normalized skuMap mode feed
                match_init) as (-> & _ & _).
    cbn [match_init matchedExact matchedMapped matchedNormalized
         candidates app].
    rewrite candidates_by_tier. lia.
Qed.

(** ** Facts about reading the feed *)

Section MapOfSets.
Context {V : Type}.
Implicit Types (sets : list (string * V)) (k : string) (v : V).

Lemma map_of_sets_snoc sets k v :
  map_of_sets (sets ++ [(k, v)]) = map_set k v (map_of_sets sets).
Proof. unfold map_of_sets. rewrite fold_left_app. reflexivity. Qed.

Lemma last_set_snoc sets k k' v :
  last_set k (sets ++ [(k', v)])
  = if String.eqb k' k then Some v else last_set k sets.
Proof.
  unfold last_set. rewrite rev_app_distr. simpl.
  destruct (String.eqb k' k); reflexivity.
Qed.

Lemma map_of_sets_keys sets :
  map fst (map_of_sets sets) = first_occurrences (map fst sets).
Proof.
  induction sets as [| [k v] sets IH] using rev_ind; [reflexivity |].
  rewrite map_of_sets_snoc, map_set_keys, map_app. cbn [map fst].
  rewrite first_occurrences_snoc, set_add_keys, IH. reflexivity.
Qed.

Lemma map_of_sets_NoDup sets : NoDup (map fst (map_of_sets sets)).
Proof.
  induction sets as [| [k v] sets IH] using rev_ind; [constructor |].
  rewrite map_of_sets_snoc. apply map_set_NoDup, IH.
Qed.

Lemma elem_of_map_of_sets sets k v :
  (k, v) ∈ map_of_sets sets <-> last_set k sets = Some v.
Proof.
  revert k v. induction sets as [| [k' v'] sets IH] using rev_ind;
    intros k v.
  - split; [intros H; inversion H | discriminate].
  - rewrite map_of_sets_snoc, last_set_snoc.
    rewrite (elem_of_map_set _ _ _ _ _ (map_of_sets_NoDup sets)).
    destruct (String.eqb_spec k' k) as [-> | Hne].
    + split; [intros [[_ ->] | [? _]]; [reflexivity | congruence] |].
      intros [= ->]. left. auto.
    + rewrite IH. split; [intros [[-> _] | [_ ?]]; [congruence | auto] |].
      intros H. right. auto.
Qed.

Lemma filter_map_set k v (m : list (string * V)) :
  List.filter has_sku (map_set k v m)
  = if String.eqb k "" then List.filter has_sku m
    else map_set k v (List.filter has_sku m).
Proof.
  unfold has_sku.
  induction m as [| [k' v'] m IH]; simpl.
  - destruct (String.eqb k ""); reflexivity.
  - destruct (String.eqb_spec k' k) as [-> | Hne]; simpl.
    + destruct (String.eqb k "") eqn:Hk; simpl; [reflexivity |].
      rewrite String.eqb_refl. reflexivity.
    + rewrite IH.
      destruct (String.eqb k' "") eqn:Hk'; simpl; [reflexivity |].
      destruct (String.eqb k ""); [reflexivity |].
      apply String.eqb_neq in Hne. rewrite Hne. reflexivity.
Qed.

Lemma filter_map_of_sets sets :
  List.filter has_sku (map_of_sets sets)
  = map_of_sets (List.filter has_sku sets).
Proof.
  induction sets as [| [k v] sets IH] using rev_ind; [reflexivity |].
  rewrite map_of_sets_snoc, filter_map_set, List.filter_app, IH.
  change (List.filter has_sku [(k, v)])
    with (if negb (String.eqb k "") then [(k, v)] else []).
  destruct (String.eqb k ""); cbn [negb].
  - rewrite app_nil_r. reflexivity.
  - rewrite map_of_sets_snoc. reflexivity.
Qed.
End MapOfSets.

Section ParseFacts.
Context {Qty : Type}.
Variable Number_ : string -> option Qty.

Lemma fold_add_line (iSku iQty : nat) (lines : list string) :
  forall m : list (string * Qty),
    fold_left (CurrentInput.add_line Number_ iSku iQty) lines m
    = fold_left (fun m r => map_set (fst r) (snd r) m)
        (omap (feed_row_of Number_ iSku iQty) lines) m.
Proof.
  induction lines as [| line lines IH]; intros m; [reflexivity |].
  cbn [fold_left]. rewrite omap_cons_case, IH.
  unfold CurrentInput.add_line, feed_row_of.
  destruct (String.eqb (trim (or_empty (nth_error _ iSku))) "");
    [reflexivity |].
  destruct (Number_ _); reflexivity.
Qed.

Lemma fold_legacy_add_line (iSku iQty : nat) (lines : list string) :
  forall m : list (string * Qty),
    fold_left (LegacyInput.add_line Number_ iSku iQty) lines m
    = fold_left (fun m r => map_set (fst r) (snd r) m)
        (omap (legacy_feed_row_of Number_ iSku iQty) lines) m.
Proof.
  induction lines as [| line lines IH]; intros m; [reflexivity |].
  cbn [fold_left]. rewrite omap_cons_case, IH.
  unfold LegacyInput.add_line, legacy_feed_row_of.
  destruct (negb (truthy (nth_error _ iSku))); [reflexivity |].
  destruct (Number_ _); reflexivity.
Qed.

Lemma feed_row_of_has_sku (iSku iQty : nat) (line : string)
    (r : string * Qty) :
  feed_row_of Number_ iSku iQty line = Some r -> fst r <> "".
Proof.
  unfold feed_row_of.
  destruct (String.eqb_spec
              (trim (or_empty (nth_error (split_on "," line) iSku))) "")
    as [| Hne]; [discriminate |].
  destruct (Number_ _); [| discriminate]. intros [= <-]. exact Hne.
Qed.

(** The rows of the later script are the rows of the earlier one that have
    a SKU after trimming. *)
Lemma feed_rows_filter (iSku iQty : nat) (lines : list string) :
  omap (feed_row_of Number_ iSku iQty) lines
  = List.filter has_sku (omap (legacy_feed_row_of Number_ iSku iQty) lines).
Proof.
  induction lines as [| line lines IH]; [reflexivity |].
  rewrite !omap_cons_case, IH.
  unfold feed_row_of, legacy_feed_row_of, or_empty.
  destruct (nth_error (split_on "," line) iSku) as [cell |]; simpl.
  - destruct (String.eqb_spec cell "") as [-> | Hcell]; simpl;
      [reflexivity |].
    destruct (Number_ _); simpl; [| destruct (String.eqb _ ""); reflexivity].
    unfold has_sku. simpl. destruct (String.eqb (trim cell) ""); reflexivity.
  - reflexivity.
Qed.
End ParseFacts.

(** X16. [parseCsvNumeric] of src/unnamed/part_000 throws exactly when the
    first line has no cell that is SKU or no cell that is Quantity, in any
    letter case.  Otherwise the feed it returns has one entry per SKU and
    none for the empty SKU: the SKUs are those of the data rows in the
    order they first appear, and a SKU's quantity is that of the last data
    row with it, where a data row is a line whose trimmed SKU cell is not
    empty and whose quantity cell is a number. *)
Theorem parsed_feed_has_one_entry_per_sku {Qty : Type}
    (Number_ : string -> option Qty) (content : string) :
  match CurrentInput.parseCsvNumeric Number_ content with
  | None =>
      findIndex is_sku_header (header_of content) = None
      \/ findIndex is_quantity_header (header_of content) = None
  | Some feed =>
      exists iSku iQty,
        findIndex is_sku_header (header_of content) = Some iSku
        /\ findIndex is_quantity_header (header_of content) = Some iQty
        /\ let rows := omap (feed_row_of Number_ iSku iQty)
                         (data_lines_of content) in
           NoDup (map fst feed)
           /\ ("" ∉ map fst feed)
           /\ map fst feed = first_occurrences (map fst rows)
           /\ forall sku q, (sku, q) ∈ feed <-> last_set sku rows = Some q
  end.
Proof.
  unfold CurrentInput.parseCsvNumeric, header_of, data_lines_of.
  destruct (findIndex is_sku_header _) as [iSku |]; [| left; reflexivity].
  destruct (findIndex is_quantity_header _) as [iQty |];
    [| right; reflexivity].
  exists iSku, iQty. split; [reflexivity |]. split; [reflexivity |].
  cbv zeta. rewrite fold_add_line.
  set (rows := omap (feed_row_of Number_ iSku iQty) _).
  change (fold_left _ rows []) with (map_of_sets rows).
  split; [apply map_of_sets_NoDup |]. split; [| split].
  - intros ([k v] & Hk & Hin)%list_elem_of_fmap. simpl in Hk. subst k.
    apply elem_of_map_of_sets in Hin. unfold last_set in Hin.
    destruct (List.find _ (rev rows)) as [[k' v'] |] eqn:Hf;
      [| discriminate].
    apply find_some in Hf as [Hin' Hk']. simpl in Hk'.
    apply String.eqb_eq in Hk'. subst k'.
    apply in_rev, list_elem_of_In in Hin'. subst rows.
    apply list_elem_of_omap in Hin' as (line & _ & Hrow).
    apply feed_row_of_has_sku in Hrow. apply Hrow. reflexivity.
  - apply map_of_sets_keys.
  - intros sku q. apply elem_of_map_of_sets.
Qed.

(** X17. The two versions of [parseCsvNumeric] throw on the same files,
    and on every other file the feed of the later script is the feed of
    the earlier one without the entry for the empty SKU, which the earlier
    script makes of a SKU cell that holds white space only; when the
    earlier feed has no such entry the two feeds are the same. *)
Theorem parsers_differ_by_the_empty_sku {Qty : Type}
    (Number_ : string -> option Qty) (content : string) :
  match LegacyInput.parseCsvNumeric Number_ content,
        CurrentInput.parseCsvNumeric Number_ content with
  | Some old, Some new =>
      new = List.filter has_sku old
      /\ NoDup (map fst old)
      /\ ("" ∉ map fst old -> new = old)
  | None, None => True
  | _, _ => False
  end.
Proof.
  unfold LegacyInput.parseCsvNumeric, CurrentInput.parseCsvNumeric.
  destruct (findIndex is_sku_header _) as [iSku |]; [| exact I].
  destruct (findIndex is_quantity_header _) as [iQty |]; [| exact I].
  rewrite fold_add_line, fold_legacy_add_line, feed_rows_filter.
  set (rows := omap (legacy_feed_row_of Number_ iSku iQty) _).
  change (fold_left _ rows []) with (map_of_sets rows).
  change (fold_left _ (List.filter has_sku rows) [])
    with (map_of_sets (List.filter has_sku rows)).
  rewrite <- filter_map_of_sets.
  split; [reflexivity |]. split; [apply map_of_sets_NoDup |].
  intros Hno. generalize dependent (map_of_sets rows). clear.
  intros m Hno. induction m as [| [k v] m IH]; [reflexivity |].
  simpl in *. unfold has_sku at 1. simpl.
  destruct (String.eqb_spec k "") as [-> | Hne]; simpl.
  - exfalso. apply Hno. left.
  - f_equal. apply IH. intros Hin. apply Hno. right. exact Hin.
Qed.

(** ** Item ids from the catalog to the write call *)

Lemma take_digits_all (s : string) : all_digits s = true -> take_digits s = s.
Proof.
  induction s as [| c s IH]; simpl; [reflexivity |].
  intros [Hc Hs]%andb_prop. rewrite Hc, IH by exact Hs. reflexivity.
Qed.

Lemma match_InventoryItem_invGid (id : string) :
  id <> "" -> all_digits id = true ->
  match_InventoryItem (invGid id) = Some id.
Proof.
  intros Hne Hd.
  cbv -[take_digits String.eqb].
  rewrite (take_digits_all _ Hd).
  apply String.eqb_neq in Hne. rewrite Hne. reflexivity.
Qed.

(** X18. The item ids of a fetched catalog index survive the way to the
    write call: the identifier that [invGid] builds from such an id is
    read back as the same id by the pattern that the page loop reads item
    ids with. A chunk that names no item id twice gives a list of
    quantities that names no identifier twice. *)
Theorem fetched_ids_round_trip_through_invGid
    (source : nat -> option string -> PageResult) (fuel : nat)
    (exact : gmap string string) (normalized : gmap string (list string))
    (asked : list (option string)) :
  fetchAllVariantSkuToInvItem fuel source = (Fetched exact normalized, asked) ->
  (forall sku id,
      exact !! sku = Some id -> match_InventoryItem (invGid id) = Some id)
  /\ (forall key ids id,
        normalized !! key = Some ids -> id ∈ ids ->
        match_InventoryItem (invGid id) = Some id)
  /\ (forall (Qty : Type) location_id (chunk : list (Candidate Qty)),
        NoDup (item_ids chunk) ->
        NoDup (map inventoryItemId (quantities_of location_id chunk))).
Proof.
  intros Hf.
  destruct (fetched_index_well_formed source fuel exact normalized asked Hf)
    as [Hex Hnm].
  split; [| split].
  - intros sku id (_ & Hne & Hd & _)%Hex.
    apply match_InventoryItem_invGid; assumption.
  - intros key ids id (_ & _ & Hall)%Hnm Hin.
    rewrite Forall_forall in Hall. destruct (Hall id Hin).
    apply match_InventoryItem_invGid; assumption.
  - intros Qty location_id chunk Hnd. unfold quantities_of.
    rewrite map_map. cbn [inventoryItemId].
    rewrite <- (map_map inventory_item_id invGid).
    assert (Hinj : Inj (=) (=) invGid).
    { intros id id' H. unfold invGid in H.
      repeat (injection H as H). exact H. }
    exact (NoDup_fmap_2 invGid _ Hnd).
Qed.

(** ** Facts about reading the manual map *)

Lemma split_on_not_nil (sep : ascii) (s : string) : split_on sep s <> [].
Proof.
  destruct s as [| c s]; simpl; [discriminate |].
  destruct (Ascii.eqb c sep); [discriminate |].
  destruct (split_on sep s); discriminate.
Qed.

Lemma map_add_line_same (map : gmap string string) (line : string) :
  LegacyMap.add_line map line = CurrentMap.add_line map line.
Proof.
  unfold LegacyMap.add_line, CurrentMap.add_line.
  pose proof (split_on_not_nil ","%char line) as Hne.
  destruct (split_on ","%char line) as [| a [| b rest]];
    [congruence | simpl; rewrite orb_true_r; reflexivity |].
  cbn [length Nat.ltb Nat.leb nth_error default truthy].
  destruct (String.eqb_spec a "") as [-> | Ha]; [reflexivity |].
  destruct (String.eqb_spec b "") as [-> | Hb]; simpl; [| reflexivity].
  rewrite andb_false_r. reflexivity.
Qed.

(** A map without an empty key or an empty value. *)
Lemma map_add_line_entries (map : gmap string string) (line : string) :
  (forall k v, map !! k = Some v -> k <> "" /\ v <> "") ->
  forall k v, CurrentMap.add_line map line !! k = Some v ->
              k <> "" /\ v <> "".
Proof.
  intros Hmap k v. unfold CurrentMap.add_line.
  destruct (negb (truthy _) || negb (truthy _)); [apply Hmap |].
  set (f := strip_quotes (trim _)). set (s := strip_quotes (trim _)).
  unfold truthy.
  destruct (String.eqb_spec f "") as [| Hf]; [apply Hmap |].
  destruct (String.eqb_spec s "") as [| Hs]; [apply Hmap |].
  simpl. rewrite lookup_insert. case_decide as Hk; [| apply Hmap].
  intros [= <-]. subst k. auto.
Qed.

Lemma fold_map_add_line_entries (lines : list string) :
  forall map : gmap string string,
    (forall k v, map !! k = Some v -> k <> "" /\ v <> "") ->
    forall k v, fold_left CurrentMap.add_line lines map !! k = Some v ->
                k <> "" /\ v <> "".
Proof.
  induction lines as [| line lines IH]; intros map Hmap; [exact Hmap |].
  cbn [fold_left]. apply IH, map_add_line_entries, Hmap.
Qed.

Lemma fold_map_add_line_same (lines : list string) :
  forall map : gmap string string,
    fold_left LegacyMap.add_line lines map
    = fold_left CurrentMap.add_line lines map.
Proof.
  induction lines as [| line lines IH]; intros map; [reflexivity |].
  cbn [fold_left]. rewrite map_add_line_same. apply IH.
Qed.

Lemma legacy_loadSkuMap_unfold (content : string) :
  LegacyMap.loadSkuMap (Some content)
  = match map_lines_of content with
    | first :: rest =>
        fold_left CurrentMap.add_line
          (if LegacyMap.is_header first then rest else first :: rest) ∅
    | [] => ∅
    end.
Proof.
  unfold LegacyMap.loadSkuMap, map_lines_of.
  destruct (List.filter is_map_line _); [reflexivity |].
  apply fold_map_add_line_same.
Qed.

Lemma loadSkuMap_unfold (content : string) :
  CurrentMap.loadSkuMap (Some content)
  = match map_lines_of content with
    | first :: rest =>
        fold_left CurrentMap.add_line
          (if CurrentMap.is_header first then rest else first :: rest) ∅
    | [] => ∅
    end.
Proof.
  unfold CurrentMap.loadSkuMap, map_lines_of.
  destruct (List.filter is_map_line _); reflexivity.
Qed.

(** X19. A manual map that either version of [loadSkuMap] returns has no
    empty SKU on either side, so the matcher's test of a mapped SKU holds
    for every feed SKU that the map has; without a readable file the map
    is empty. *)
Theorem loaded_map_has_no_empty_sku (file : option string) :
  Forall
    (fun map : gmap string string =>
       (forall k v, map !! k = Some v -> k <> "" /\ v <> "")
       /\ (forall f, found (map !! f) = map !! f)
       /\ (file = None -> map = ∅))
    [CurrentMap.loadSkuMap file; LegacyMap.loadSkuMap file].
Proof.
  assert (Hfound : forall map : gmap string string,
             (forall k v, map !! k = Some v -> k <> "" /\ v <> "") ->
             forall f, found (map !! f) = map !! f).
  { intros map Hmap f. unfold found, truthy.
    destruct (map !! f) as [v |] eqn:Hf; [| reflexivity].
    destruct (Hmap f v Hf) as [_ Hv%String.eqb_neq]. rewrite Hv.
    reflexivity. }
  assert (Hempty : forall k v, (∅ : gmap string string) !! k = Some v ->
                               k <> "" /\ v <> "")
    by (intros k v H; rewrite lookup_empty in H; discriminate).
  assert (Hcur : forall k v, CurrentMap.loadSkuMap file !! k = Some v ->
                             k <> "" /\ v <> "").
  { destruct file as [content |]; [| exact Hempty].
    rewrite loadSkuMap_unfold.
    destruct (map_lines_of content) as [| first rest]; [exact Hempty |].
    apply fold_map_add_line_entries, Hempty. }
  assert (Hold : forall k v, LegacyMap.loadSkuMap file !! k = Some v ->
                             k <> "" /\ v <> "").
  { destruct file as [content |]; [| exact Hempty].
    rewrite legacy_loadSkuMap_unfold.
    destruct (map_lines_of content) as [| first rest]; [exact Hempty |].
    apply fold_map_add_line_entries, Hempty. }
  constructor; [| constructor; [| constructor]].
  - split; [exact Hcur |].
    split; [apply Hfound, Hcur | intros ->; reflexivity].
  - split; [exact Hold |].
    split; [apply Hfound, Hold | intros ->; reflexivity].
Qed.

Lemma prefix_append (p s b : string) :
  String.prefix p s = true -> String.prefix p (String.append s b) = true.
Proof.
  revert p. induction s as [| c s IH]; intros [| a p]; simpl;
    try discriminate; try reflexivity.
  - intros _. destruct b; reflexivity.
  - destruct (ascii_dec a c); [apply IH | discriminate].
Qed.

Lemma occurs_in_cons (p : string) (c : ascii) (s : string) :
  occurs_in p (String c s) = String.prefix p (String c s) || occurs_in p s.
Proof. reflexivity. Qed.

Lemma occurs_in_append_r (p s b : string) :
  occurs_in p s = true -> occurs_in p (String.append s b) = true.
Proof.
  induction s as [| c s IH].
  - destruct p; [| discriminate]. intros _. destruct b; reflexivity.
  - rewrite occurs_in_cons. intros [H | H]%orb_prop.
    + change (String.append (String c s) b)
        with (String c (String.append s b)).
      rewrite occurs_in_cons.
      change (String c (String.append s b))
        with (String.append (String c s) b).
      rewrite (prefix_append _ _ _ H). reflexivity.
    + change (String.append (String c s) b)
        with (String c (String.append s b)).
      rewrite occurs_in_cons, (IH H). apply orb_true_r.
Qed.

Lemma occurs_in_append_l (p a s : string) :
  occurs_in p s = true -> occurs_in p (String.append a s) = true.
Proof.
  intros H. induction a as [| c a IH]; [exact H |].
  change (String.append (String c a) s) with (String c (String.append a s)).
  rewrite occurs_in_cons, IH. apply orb_true_r.
Qed.

Lemma toUpperCase_append (a b : string) :
  toUpperCase (String.append a b)
  = String.append (toUpperCase a) (toUpperCase b).
Proof. induction a as [| c a IH]; simpl; [| rewrite IH]; reflexivity. Qed.

Lemma first_piece_prefix (sep : ascii) (s piece : string)
    (rest : list string) :
  split_on sep s = piece :: rest -> exists b, s = String.append piece b.
Proof.
  revert piece rest. induction s as [| c s IH]; intros piece rest; simpl.
  - intros [= <- <-]. exists "". reflexivity.
  - destruct (Ascii.eqb c sep).
    + intros [= <- <-]. exists (String c s). reflexivity.
    + destruct (split_on sep s) as [| p0 ps] eqn:Hs.
      * intros [= <- <-]. destruct (split_on_not_nil sep s Hs).
      * intros [= <- <-]. destruct (IH p0 ps eq_refl) as [b ->].
        exists b. reflexivity.
Qed.

Lemma piece_substring (sep : ascii) (s : string) :
  forall i piece,
    nth_error (split_on sep s) i = Some piece ->
    exists a b, s = String.append a (String.append piece b).
Proof.
  induction s as [| c s IH]; intros i piece; simpl.
  - destruct i as [| [| i]]; simpl; try discriminate.
    intros [= <-]. exists "", "". reflexivity.
  - destruct (Ascii.eqb c sep).
    + destruct i as [| i]; simpl.
      * intros [= <-]. exists "", (String c s). reflexivity.
      * intros (a & b & ->)%IH. exists (String c a), b. reflexivity.
    + destruct (split_on sep s) as [| p0 ps] eqn:Hs.
      * destruct (split_on_not_nil sep s Hs).
      * destruct i as [| i]; simpl.
        -- intros [= <-].
           destruct (first_piece_prefix sep s p0 ps Hs) as [b ->].
           exists "", b. reflexivity.
        -- intros H. destruct (IH (S i) piece H) as (a & b & ->).
           exists (String c a), b. reflexivity.
Qed.

Lemma occurs_in_piece (sep : ascii) (pat s piece : string) (i : nat) :
  nth_error (split_on sep s) i = Some piece ->
  occurs_in pat (toUpperCase piece) = true ->
  occurs_in pat (toUpperCase s) = true.
Proof.
  intros (a & b & ->)%piece_substring H.
  rewrite !toUpperCase_append.
  apply occurs_in_append_l, occurs_in_append_r, H.
Qed.

Lemma legacy_header_is_header (line : string) :
  LegacyMap.is_header line = true -> CurrentMap.is_header line = true.
Proof.
  unfold LegacyMap.is_header, CurrentMap.is_header, has_feed_sku,
    has_shopify_sku.
  intros [H0 H1]%andb_prop.
  destruct (nth_error (split_on "," line) 0) as [c0 |] eqn:E0;
    [| vm_compute in H0; discriminate].
  destruct (nth_error (split_on "," line) 1) as [c1 |] eqn:E1;
    [| vm_compute in H1; discriminate].
  simpl in H0, H1.
  apply andb_true_intro. split.
  - exact (occurs_in_piece _ _ _ _ _ E0 H0).
  - exact (occurs_in_piece _ _ _ _ _ E1 H1).
Qed.

(** X20. The two versions of [loadSkuMap] read every line after the first
    in the same way, and differ in the test that drops a header line: a
    first line that the earlier script takes for a header is one for the
    later script too, and the two maps are the same whenever the two tests
    agree on the first line. When only the later script takes the first
    line for a header (the two names are there, but not in the first and
    the second cell), the earlier script reads it as a mapping. *)
Theorem map_loaders_differ_by_the_header_test (content : string) :
  match map_lines_of content with
  | [] =>
      LegacyMap.loadSkuMap (Some content) = ∅
      /\ CurrentMap.loadSkuMap (Some content) = ∅
  | first :: rest =>
      (LegacyMap.is_header first = true -> CurrentMap.is_header first = true)
      /\ (LegacyMap.is_header first = CurrentMap.is_header first ->
          LegacyMap.loadSkuMap (Some content)
          = CurrentMap.loadSkuMap (Some content))
      /\ (LegacyMap.is_header first = false ->
          CurrentMap.is_header first = true ->
          LegacyMap.loadSkuMap (Some content)
          = fold_left CurrentMap.add_line rest
              (CurrentMap.add_line ∅ first)
          /\ CurrentMap.loadSkuMap (Some content)
             = fold_left CurrentMap.add_line rest ∅)
  end.
Proof.
  rewrite legacy_loadSkuMap_unfold, loadSkuMap_unfold.
  destruct (map_lines_of content) as [| first rest]; [auto |].
  split; [apply legacy_header_is_header |]. split.
  - intros ->. reflexivity.
  - intros -> ->. auto.
Qed.

(** ** The two scripts on the same files *)

Lemma filter_has_sku_all {V : Type} (m : list (string * V)) :
  "" ∉ map fst m -> List.filter has_sku m = m.
Proof.
  induction m as [| [k v] m IH]; intros Hno; [reflexivity |].
  cbn [List.filter map fst] in *. unfold has_sku at 1. cbn [fst].
  destruct (String.eqb_spec k "") as [-> | Hne]; cbn [negb].
  - exfalso. apply Hno. left.
  - f_equal. apply IH. intros Hin. apply Hno. right. exact Hin.
Qed.

Lemma current_feed_of_legacy_feed {Qty : Type}
    (Number_ : string -> option Qty) (csv : string)
    (feed : list (string * Qty)) :
  LegacyInput.parseCsvNumeric Number_ csv = Some feed ->
  CurrentInput.parseCsvNumeric Number_ csv = Some (List.filter has_sku feed).
Proof.
  unfold LegacyInput.parseCsvNumeric, CurrentInput.parseCsvNumeric.
  destruct (findIndex is_sku_header _) as [iSku |]; [| discriminate].
  destruct (findIndex is_quantity_header _) as [iQty |]; [| discriminate].
  rewrite fold_add_line, fold_legacy_add_line, feed_rows_filter.
  set (rows := omap (legacy_feed_row_of Number_ iSku iQty) _).
  change (fold_left _ rows []) with (map_of_sets rows).
  change (fold_left _ (List.filter has_sku rows) [])
    with (map_of_sets (List.filter has_sku rows)).
  intros [= <-]. rewrite filter_map_of_sets. reflexivity.
Qed.

Lemma loaders_agree (file : option string) :
  header_tests_agree file ->
  CurrentMap.loadSkuMap file = LegacyMap.loadSkuMap file.
Proof.
  destruct file as [content |]; [| reflexivity].
  unfold header_tests_agree.
  rewrite legacy_loadSkuMap_unfold, loadSkuMap_unfold.
  destruct (map_lines_of content) as [| first rest]; [reflexivity |].
  intros ->. reflexivity.
Qed.

Lemma legacy_write_pass_trace {Qty : Type} (GQL_BATCH : option Z)
    (gql : nat -> list (Candidate Qty) -> GqlResult)
    (work : list (Candidate Qty)) (st : RunState Qty) :
  trace (Legacy.write_pass GQL_BATCH gql work st)
  = trace st ++ map EvSetQuantities (chunks (BATCH GQL_BATCH) work).
Proof.
  unfold Legacy.write_pass.
  revert st. induction (chunks (BATCH GQL_BATCH) work) as [| c cs IH];
    intros st; cbn [fold_left map].
  - rewrite app_nil_r. reflexivity.
  - rewrite IH. destruct (legacy_write_chunk_spec gql st c) as [-> _].
    rewrite <- app_assoc. reflexivity.
Qed.

Lemma legacy_makes_no_connect_call {Qty : Type}
    (exact : gmap string string) (normalized : gmap string (list string))
    (skuMap : gmap string string) (mode : string) (FULL_SWEEP : bool)
    (GQL_BATCH : option Z)
    (gql : nat -> list (Candidate Qty) -> GqlResult)
    (feed : list (string * Qty)) :
  connect_calls
    (trace (Legacy.main exact normalized skuMap mode FULL_SWEEP GQL_BATCH
              gql feed).2)
  = [].
Proof.
  unfold Legacy.main. cbn [snd].
  rewrite legacy_write_pass_trace. apply connect_calls_writes.
Qed.

(** X9. The two scripts run on the same feed file, the same manual-map
    file and the same catalog index do the same, under four conditions:
    the feed that the earlier script reads has no entry for the empty SKU;
    the two header tests agree on the first line of the map file; no two
    matched rows share an item id; and no user error of the run carries
    the not-stocked signature.  Then the later script reads the same feed
    and the same map as the earlier one, and from there on gives the same
    summary, the same three match lists and counters, the same write calls
    in the same order and the same changed rows, and makes no connect
    call. *)
Theorem later_script_agrees_with_earlier {Qty : Type}
    (Number_ : string -> option Qty) (csv : string)
    (map_file : option string)
    (exact : gmap string string) (normalized : gmap string (list string))
    (mode : string) (FULL_SWEEP : bool) (GQL_BATCH : option Z)
    (gql : nat -> list (Candidate Qty) -> GqlResult)
    (fetch_connect : string -> ConnectResponse)
    (feed : list (string * Qty)) :
  LegacyInput.parseCsvNumeric Number_ csv = Some feed ->
  "" ∉ map fst feed ->
  header_tests_agree map_file ->
  NoDup (item_ids
           (candidates
              (Legacy.match_loop exact normalized
                 (LegacyMap.loadSkuMap map_file) mode feed))) ->
  (forall n chunk ue e,
      gql n chunk = GqlData ue -> e ∈ ue ->
      not_stocked_message (message e) = false) ->
  CurrentInput.parseCsvNumeric Number_ csv = Some feed
  /\ CurrentMap.loadSkuMap map_file = LegacyMap.loadSkuMap map_file
  /\ Current.main exact normalized (CurrentMap.loadSkuMap map_file) mode
       FULL_SWEEP GQL_BATCH gql fetch_connect feed
     = Legacy.main exact normalized (LegacyMap.loadSkuMap map_file) mode
         FULL_SWEEP GQL_BATCH gql feed
  /\ connect_calls
       (trace (Current.main exact normalized (CurrentMap.loadSkuMap map_file)
                 mode FULL_SWEEP GQL_BATCH gql fetch_connect feed).2)
     = [].
Proof.
  intros Hparse Hno Hheader Hnd Hgql.
  split; [| split; [| split]].
  - rewrite (current_feed_of_legacy_feed Number_ csv feed Hparse).
    rewrite (filter_has_sku_all feed Hno). reflexivity.
  - apply loaders_agree, Hheader.
  - rewrite (loaders_agree map_file Hheader).
    apply mains_agree_on_one_feed; assumption.
  - rewrite (loaders_agree map_file Hheader).
    rewrite (mains_agree_on_one_feed exact normalized
               (LegacyMap.loadSkuMap map_file) mode FULL_SWEEP GQL_BATCH gql
               fetch_connect feed Hnd Hgql).
    apply legacy_makes_no_connect_call.
Qed.

(** ** Facts about the reports *)

Lemma append_String (c : ascii) (a b : string) :
  String.append (String c a) b = String c (String.append a b).
Proof. reflexivity. Qed.

Lemma append_Empty (b : string) : String.append "" b = b.
Proof. reflexivity. Qed.

Ltac push_append := rewrite ?append_String, ?append_Empty.
Ltac push_append_in H := rewrite ?append_String, ?append_Empty in H.

Lemma append_nil_r (a : string) : String.append a "" = a.
Proof.
  induction a as [| x a IH]; [reflexivity |].
  push_append. rewrite IH. reflexivity.
Qed.

Lemma append_assoc' (a b c : string) :
  String.append (String.append a b) c = String.append a (String.append b c).
Proof.
  induction a as [| x a IH]; [reflexivity |].
  push_append. rewrite IH. reflexivity.
Qed.

Lemma append_cancel_l (a x y : string) :
  String.append a x = String.append a y -> x = y.
Proof.
  induction a as [| c a IH]; push_append; [auto | intros [= H]; auto].
Qed.

Lemma double_quotes_cons (c : ascii) (v : string) :
  double_quotes (String c v)
  = if Ascii.eqb c dquote
    then String dquote (String dquote (double_quotes v))
    else String c (double_quotes v).
Proof. reflexivity. Qed.

Lemma no_quote_ahead_quote (r : string) :
  no_quote_ahead (String dquote r) = true -> False.
Proof. intros H. vm_compute in H. discriminate. Qed.

Lemma double_quotes_inj_ahead (a : string) :
  forall b r r',
    no_quote_ahead r = true -> no_quote_ahead r' = true ->
    String.append (double_quotes a) (String dquote r)
    = String.append (double_quotes b) (String dquote r') ->
    a = b /\ r = r'.
Proof.
  induction a as [| c a IH]; intros [| d b] r r' Hr Hr';
    rewrite ?double_quotes_cons;
    change (double_quotes "") with EmptyString.
  - push_append. intros [= ->]. auto.
  - destruct (Ascii.eqb_spec d dquote) as [-> | Hd]; push_append.
    + intros [= ->]. destruct (no_quote_ahead_quote _ Hr).
    + intros [= H _]. congruence.
  - destruct (Ascii.eqb_spec c dquote) as [-> | Hc]; push_append.
    + intros [= <-]. destruct (no_quote_ahead_quote _ Hr').
    + intros [= H _]. congruence.
  - destruct (Ascii.eqb_spec c dquote) as [-> | Hc];
      destruct (Ascii.eqb_spec d dquote) as [-> | Hd]; push_append.
    + intros [= H]. destruct (IH b r r' Hr Hr' H) as [-> ->]. auto.
    + intros [= H _]. congruence.
    + intros [= H _]. congruence.
    + intros [= -> H]. destruct (IH b r r' Hr Hr' H) as [-> ->]. auto.
Qed.

Lemma in_quotes_append (v r : string) :
  String.append (in_quotes v) r
  = String dquote (String.append v (String dquote r)).
Proof.
  unfold in_quotes. push_append. rewrite append_assoc'. reflexivity.
Qed.

Lemma line_ends_no_quote (r : string) : line_ends r -> no_quote_ahead r = true.
Proof. intros [-> | [r0 ->]]; reflexivity. Qed.

Lemma join_with_one (sep x : string) : join_with sep [x] = x.
Proof. reflexivity. Qed.

Lemma join_with_more (sep x y : string) (l : list string) :
  join_with sep (x :: y :: l)
  = String.append x (String.append sep (join_with sep (y :: l))).
Proof. reflexivity. Qed.

Lemma cells_inj (vs : list string) :
  forall vs' r r',
    length vs = length vs' -> vs <> [] ->
    line_ends r -> line_ends r' ->
    String.append
      (join_with "," (map in_quotes (map double_quotes vs))) r
    = String.append
        (join_with "," (map in_quotes (map double_quotes vs'))) r' ->
    vs = vs' /\ r = r'.
Proof.
  induction vs as [| v vs IH]; intros vs' r r' Hlen Hne Hr Hr' Heq;
    [congruence |].
  destruct vs' as [| v' vs']; [discriminate |].
  destruct vs as [| w vs]; destruct vs' as [| w' vs']; try discriminate.
  - cbn [map] in Heq. rewrite !join_with_one, !in_quotes_append in Heq.
    injection Heq as Heq.
    apply double_quotes_inj_ahead in Heq as [-> ->];
      auto using line_ends_no_quote.
  - cbn [map] in Heq.
    rewrite !join_with_more, !append_assoc', !in_quotes_append in Heq.
    injection Heq as Heq.
    apply double_quotes_inj_ahead in Heq as [-> Heq]; [| reflexivity ..].
    push_append_in Heq. injection Heq as Heq.
    destruct (IH (w' :: vs') r r') as [Hvs ->]; auto.
    rewrite Hvs. auto.
Qed.

Section ReportFacts.
Context {R : Type}.
Variable get : R -> string -> option string.
Variable header : list string.

Lemma row_line_inj (x y : R) (r r' : string) :
  header <> [] ->
  line_ends r -> line_ends r' ->
  String.append (row_line get header x) r
  = String.append (row_line get header y) r' ->
  values_of get header x = values_of get header y /\ r = r'.
Proof.
  intros header_not_empty Hr Hr' Heq. unfold row_line in Heq.
  apply cells_inj in Heq; auto.
  - unfold values_of. rewrite !length_map. reflexivity.
  - unfold values_of. destruct header; [congruence | discriminate].
Qed.

Lemma lines_inj (rows : list R) :
  forall rows',
    header <> [] ->
    rows <> [] -> rows' <> [] ->
    join_with line_feed (map (row_line get header) rows)
    = join_with line_feed (map (row_line get header) rows') ->
    map (values_of get header) rows = map (values_of get header) rows'.
Proof.
  induction rows as [| x rows IH]; intros [| y rows'] Hh Hne Hne' Heq;
    try congruence.
  destruct rows as [| x1 rows]; destruct rows' as [| y1 rows'];
    cbn [map] in Heq;
    rewrite ?join_with_one, ?join_with_more in Heq.
  - rewrite <- (append_nil_r (row_line get header x)) in Heq.
    rewrite <- (append_nil_r (row_line get header y)) in Heq.
    apply row_line_inj in Heq as [Hx _]; [| exact Hh | left; reflexivity ..].
    cbn [map]. rewrite Hx. reflexivity.
  - exfalso.
    rewrite <- (append_nil_r (row_line get header x)) in Heq.
    apply row_line_inj in Heq as [_ Heq];
      [discriminate | exact Hh | left; reflexivity |].
    right. eexists. reflexivity.
  - exfalso.
    rewrite <- (append_nil_r (row_line get header y)) in Heq.
    apply row_line_inj in Heq as [_ Heq];
      [discriminate | exact Hh | | left; reflexivity].
    right. eexists. reflexivity.
  - apply row_line_inj in Heq as [Hx Heq];
      [| exact Hh | right; eexists; reflexivity
       | right; eexists; reflexivity].
    unfold line_feed in Heq. push_append_in Heq. injection Heq as Heq.
    cbn [map]. rewrite Hx. f_equal.
    apply (IH (y1 :: rows'));
      [exact Hh | discriminate | discriminate | exact Heq].
Qed.

Lemma empty_lines_length (rows : list R) :
  String.length (join_with line_feed (map (row_line get []) rows))
  = pred (length rows).
Proof.
  induction rows as [| x [| y rows] IH]; [reflexivity | reflexivity |].
  cbn [map] in *. rewrite join_with_more. unfold line_feed at 1.
  change (row_line get [] x) with EmptyString. push_append.
  cbn [String.length length pred] in *. rewrite IH. reflexivity.
Qed.

Lemma writeCsv_inj (rows rows' : list R) :
  writeCsv get rows header = writeCsv get rows' header ->
  map (values_of get header) rows = map (values_of get header) rows'.
Proof.
  destruct rows as [| x rows]; destruct rows' as [| y rows'];
    try discriminate; [reflexivity |].
  unfold writeCsv. intros Heq.
  apply (f_equal (default EmptyString)) in Heq.
  cbn [default app map] in Heq. rewrite !join_with_more in Heq.
  apply append_cancel_l in Heq. apply append_cancel_l in Heq.
  assert (Hh : header = [] \/ header <> [])
    by (destruct header; [left | right]; congruence).
  destruct Hh as [Hh | Hh].
  - rewrite Hh in Heq |- *. apply (f_equal String.length) in Heq.
    change (String.length
              (join_with line_feed (map (row_line get []) (x :: rows)))
            = String.length
                (join_with line_feed (map (row_line get []) (y :: rows'))))
      in Heq.
    rewrite !empty_lines_length in Heq. cbn [length pred] in Heq.
    unfold values_of. cbn [map]. f_equal. clear -Heq.
    revert rows' Heq. induction rows as [| ? rows IH]; intros [| ? rows'];
      try discriminate; [reflexivity |].
    cbn [length map]. intros [= Heq]. f_equal. apply IH, Heq.
  - apply (lines_inj (x :: rows) (y :: rows')) in Heq;
      [exact Heq | exact Hh | discriminate | discriminate].
Qed.
End ReportFacts.

Lemma miss_of_values (x y : Miss) :
  values_of miss_field ["sku"; "mapped_to"; "reason"] x
  = values_of miss_field ["sku"; "mapped_to"; "reason"] y ->
  x = y.
Proof.
  destruct x, y. unfold values_of, miss_field. simpl.
  intros [= -> -> ->]. reflexivity.
Qed.

(** X21. A report file determines its rows: the values are put between
    double quotes with every double quote inside written twice, so that
    two lists of rows give the same text only when they hold the same
    values under the header, whatever commas, quotes and line feeds the
    values contain; and no file is written exactly when the list is
    empty.  In particular misses.csv determines the list of misses. *)
Theorem report_file_determines_its_rows {R : Type}
    (get : R -> string -> option string) (header : list string)
    (rows rows' : list R) :
  (writeCsv get rows header = None <-> rows = [])
  /\ (writeCsv get rows header = writeCsv get rows' header ->
      map (values_of get header) rows = map (values_of get header) rows')
  /\ (forall ms ms' : list Miss,
        writeCsv miss_field ms ["sku"; "mapped_to"; "reason"]
        = writeCsv miss_field ms' ["sku"; "mapped_to"; "reason"] ->
        ms = ms').
Proof.
  split; [| split].
  - destruct rows; simpl; split; congruence.
  - apply writeCsv_inj.
  - intros ms ms' Heq. apply writeCsv_inj in Heq.
    revert ms' Heq. induction ms as [| x ms IH]; intros [| y ms'];
      try discriminate; [reflexivity |].
    cbn [map]. intros Heq.
    assert (Hx := f_equal (hd []) Heq). assert (Hms := f_equal (@tl _) Heq).
    cbn [hd tl] in Hx, Hms.
    rewrite (miss_of_values x y Hx), (IH ms' Hms). reflexivity.
Qed.

(** ** Runs of the statements above on the example inputs *)

Lemma fetch_index_is_index_of_pages_witness :
  exists exact normalized,
    fetchAllVariantSkuToInvItem 5 InputExamples.two_pages
    = (Fetched exact normalized, [None; Some "c2"])
    /\ index_of_records exact normalized
         [("sku1", "101"); ("SKU-1", "102"); ("sku1", "103")].
Proof.
  apply (proj1 (fetch_index_is_index_of_pages InputExamples.two_pages 5)
           [(InputExamples.page1, true); (InputExamples.page2, false)]).
  - reflexivity.
  - reflexivity.
  - simpl. lia.
Defined.

Lemma fetch_fails_when_a_page_request_throws_witness :
  fst (fetchAllVariantSkuToInvItem 3 InputExamples.page_then_throws)
  = FetchFailed.
Proof.
  apply (fetch_fails_when_a_page_request_throws
           InputExamples.page_then_throws 3 [(InputExamples.page1, true)]).
  - reflexivity.
  - reflexivity.
  - reflexivity.
  - simpl. lia.
Defined.

Lemma fetch_repeats_the_request_after_an_empty_page_witness :
  fetchAllVariantSkuToInvItem 4 InputExamples.empty_pages
  = (FetchRunsOn, [None; None; None; None]).
Proof.
  apply (fetch_repeats_the_request_after_an_empty_page
           InputExamples.empty_pages 4).
  intros n. reflexivity.
Defined.

Lemma fetched_index_is_well_formed_witness :
  (forall sku id,
      InputExamples.catalog_exact !! sku = Some id ->
      sku <> "" /\ id <> "" /\ all_digits id = true
      /\ id ∈ default []
                (InputExamples.catalog_normalized !! normalizeSkuText sku))
  /\ (forall key ids,
        InputExamples.catalog_normalized !! key = Some ids ->
        ids <> [] /\ normalizeSkuText key = key
        /\ Forall (fun id => id <> "" /\ all_digits id = true) ids).
Proof.
  apply (fetched_index_is_well_formed InputExamples.two_pages 5
           InputExamples.catalog_exact InputExamples.catalog_normalized
           [None; Some "c2"]).
  vm_compute. reflexivity.
Defined.

Lemma counters_on_a_fetched_index_witness :
  let m := Current.match_loop InputExamples.catalog_exact
             InputExamples.catalog_normalized ∅ "normalize"
             InputExamples.catalog_feed in
  (forall f id,
      InputExamples.catalog_exact !! f = Some id ->
      tiered_outcome InputExamples.catalog_exact
        InputExamples.catalog_normalized ∅ "normalize" f
      = Matched TierExact f id)
  /\ matchedNormalized m
     = matched_at InputExamples.catalog_exact
         InputExamples.catalog_normalized ∅ "normalize" TierNormalized
         InputExamples.catalog_feed
  /\ (matchedExact m + matchedMapped m + matchedNormalized m
      = length (candidates m) + matchedMapped m)%nat.
Proof.
  apply (counters_on_a_fetched_index InputExamples.two_pages 5
           InputExamples.catalog_exact InputExamples.catalog_normalized
           [None; Some "c2"]).
  vm_compute. reflexivity.
Defined.

Lemma fetched_ids_round_trip_through_invGid_witness :
  match_InventoryItem (invGid "103") = Some "103".
Proof.
  apply (proj1 (fetched_ids_round_trip_through_invGid
                  InputExamples.two_pages 5
                  InputExamples.catalog_exact
                  InputExamples.catalog_normalized
                  [None; Some "c2"] ltac:(vm_compute; reflexivity))
           "sku1").
  vm_compute. reflexivity.
Defined.

Lemma parsers_differ_by_the_empty_sku_witness :
  CurrentInput.parseCsvNumeric Number_of_digits InputExamples.feed_text
  = LegacyInput.parseCsvNumeric Number_of_digits InputExamples.feed_text.
Proof.
  pose proof (parsers_differ_by_the_empty_sku Number_of_digits
                InputExamples.feed_text) as H.
  destruct (LegacyInput.parseCsvNumeric Number_of_digits
              InputExamples.feed_text) as [old |] eqn:Hold;
    [| vm_compute in Hold; discriminate].
  destruct (CurrentInput.parseCsvNumeric Number_of_digits
              InputExamples.feed_text) as [new |]; [| destruct H].
  destruct H as (_ & _ & H). f_equal. apply H.
  vm_compute in Hold. injection Hold as <-.
  intros Hin. apply list_elem_of_In in Hin. simpl in Hin.
  intuition discriminate.
Defined.

Lemma loaded_map_has_no_empty_sku_witness :
  CurrentMap.loadSkuMap None = ∅.
Proof.
  apply (Forall_inv (loaded_map_has_no_empty_sku None)). reflexivity.
Defined.

Lemma map_loaders_differ_by_the_header_test_witness :
  LegacyMap.loadSkuMap (Some InputExamples.map_text)
  = CurrentMap.loadSkuMap (Some InputExamples.map_text).
Proof.
  apply (proj1 (proj2
           (map_loaders_differ_by_the_header_test InputExamples.map_text))).
  reflexivity.
Defined.

Lemma report_file_determines_its_rows_witness :
  map (values_of miss_field ["sku"])
    [mkMiss "sku1" "" "not_in_shopify"]
  = map (values_of miss_field ["sku"]) [mkMiss "sku1" "sku9" "other"].
Proof.
  apply (proj1 (proj2
           (report_file_determines_its_rows miss_field ["sku"]
              [mkMiss "sku1" "" "not_in_shopify"]
              [mkMiss "sku1" "sku9" "other"]))).
  vm_compute. reflexivity.
Defined.

Lemma later_script_agrees_with_earlier_witness :
  CurrentInput.parseCsvNumeric Number_of_digits InputExamples.three_rows_text
  = Some InputExamples.three_rows
  /\ CurrentMap.loadSkuMap (Some InputExamples.map_text)
     = LegacyMap.loadSkuMap (Some InputExamples.map_text)
  /\ Current.main InputExamples.catalog_exact
       InputExamples.catalog_normalized
       (CurrentMap.loadSkuMap (Some InputExamples.map_text)) "normalize"
       true None InputExamples.gql_error_at_row_1 Examples.connect_fine
       InputExamples.three_rows
     = Legacy.main InputExamples.catalog_exact
         InputExamples.catalog_normalized
         (LegacyMap.loadSkuMap (Some InputExamples.map_text)) "normalize"
         true None InputExamples.gql_error_at_row_1
         InputExamples.three_rows
  /\ connect_calls
       (trace (Current.main InputExamples.catalog_exact
                 InputExamples.catalog_normalized
                 (CurrentMap.loadSkuMap (Some InputExamples.map_text))
                 "normalize" true None InputExamples.gql_error_at_row_1
                 Examples.connect_fine InputExamples.three_rows).2)
     = [].
Proof.
  apply (later_script_agrees_with_earlier Number_of_digits
           InputExamples.three_rows_text (Some InputExamples.map_text)).
  - vm_compute. reflexivity.
  - intros Hin. apply list_elem_of_In in Hin. simpl in Hin.
    intuition discriminate.
  - vm_compute. reflexivity.
  - apply (bool_decide_unpack _). vm_compute. reflexivity.
  - intros n chunk ue e [= <-] He.
    apply list_elem_of_In in He. destruct He as [<- | []]. reflexivity.
Defined.
